(** * sbcc-lite: the row form of [src/App.tsx] and its derived output

    A shallow embedding of the parts of [App.tsx] that carry state or
    decide something: the catalogue listings, the zod row schema, the
    react-hook-form value store the calculator reads through [watch], the
    field handlers, the [SelectInput] chooser and the export button.

    JavaScript values are dynamically typed: a form field holds whatever
    the last handler put there (a number from the defaults, a string from
    an [<Input>]), so rows are records of [JsVal]. Numbers are IEEE 754
    binary64 values, written with the standard library's [spec_float]. *)

From Stdlib Require Import ZArith Bool Ascii String List Lia.
From Stdlib Require Import Floats.SpecFloat.
From stdpp Require Import base option list gmap strings.

Open Scope Z_scope.

(** ** JavaScript numbers *)

Module Js.

Abbreviation number := spec_float.

Definition prec : Z := 53.
Definition emax : Z := 1024.

(** An integer literal of the source ([20], [50], [1000]). *)
Definition lit (z : Z) : number := binary_normalize prec emax z 0 false.

Definition NaN : number := S754_nan.
Definition Infinity (neg : bool) : number := S754_infinity neg.

(** [x < y] on numbers: false as soon as one side is NaN. *)
Definition lt (x y : number) : bool := SFltb x y.

Definition isNaN (x : number) : bool :=
  match x with S754_nan => true | _ => false end.

Definition isFinite (x : number) : bool :=
  match x with S754_zero _ | S754_finite _ _ _ => true | _ => false end.

(** The values a form field or a catalogue entry can hold: the
    primitives, and [JObject name] for an object that is none, known by
    a name only. The one such object this program can come by is a member
    every object inherits from [Object.prototype] (the function
    [constructor], say). *)
Inductive JsVal :=
| JUndefined
| JNull
| JBool (b : bool)
| JNum (x : number)
| JStr (s : string)
| JObject (name : string).

(** *** StringToNumber

    The string grammar of [Number(s)]: white space is trimmed, the empty
    string is [+0], then [Infinity] with an optional sign, a decimal
    literal with an optional sign, or an unsigned [0x]/[0o]/[0b]
    integer; anything else is NaN. The mathematical value is rounded to
    the nearest binary64, ties to even. Strings are byte strings, so the
    white space characters beyond ASCII appear in their UTF-8 form. *)

Definition code (c : ascii) : Z := Z.of_N (N_of_ascii c).

Definition is_digit (c : ascii) : bool := (48 <=? code c) && (code c <=? 57).

Definition digit_val (c : ascii) : Z := code c - 48.

(** Value of a hexadecimal digit, if it is one. *)
Definition hex_val (c : ascii) : option Z :=
  let n := code c in
  if (48 <=? n) && (n <=? 57) then Some (n - 48)
  else if (65 <=? n) && (n <=? 70) then Some (n - 55)
  else if (97 <=? n) && (n <=? 102) then Some (n - 87)
  else None.

Fixpoint span_digits (s : list ascii) : list ascii * list ascii :=
  match s with
  | c :: r =>
      if is_digit c then let '(ds, rest) := span_digits r in (c :: ds, rest)
      else ([], s)
  | [] => ([], [])
  end.

Definition digits_to_Z (ds : list ascii) : Z :=
  fold_left (fun acc c => 10 * acc + digit_val c) ds 0.

(** Digits of a [0x], [0o] or [0b] literal in the given radix: every
    character must be a digit below the radix and there is at least one. *)
Fixpoint radix_digits (radix : Z) (s : list ascii) (acc : Z) : option Z :=
  match s with
  | [] => Some acc
  | c :: r =>
      match hex_val c with
      | Some d => if d <? radix then radix_digits radix r (radix * acc + d) else None
      | None => None
      end
  end.

Definition bytes (l : list nat) : list ascii := map ascii_of_nat l.

(** WhiteSpace and LineTerminator: TAB, LF, VT, FF, CR, SP, then U+00A0,
    U+1680, U+2000 to U+200A, U+2028, U+2029, U+202F, U+205F, U+3000 and
    U+FEFF. *)
Definition white_space : list (list ascii) :=
  map bytes
    [ [9]; [10]; [11]; [12]; [13]; [32];
      [194; 160];
      [225; 154; 128];
      [226; 128; 128]; [226; 128; 129]; [226; 128; 130]; [226; 128; 131];
      [226; 128; 132]; [226; 128; 133]; [226; 128; 134]; [226; 128; 135];
      [226; 128; 136]; [226; 128; 137]; [226; 128; 138];
      [226; 128; 168]; [226; 128; 169]; [226; 128; 175];
      [226; 129; 159];
      [227; 128; 128];
      [239; 187; 191] ]%nat.

Definition ascii_list_eqb (a b : list ascii) : bool :=
  bool_decide (a = b).

(** The rest of [s] after the first white space token that starts it. *)
Definition strip_one (tokens : list (list ascii)) (s : list ascii)
  : option (list ascii) :=
  let hit t := ascii_list_eqb (take (length t) s) t in
  match filter (fun t => hit t = true) tokens with
  | t :: _ => Some (drop (length t) s)
  | [] => None
  end.

Fixpoint strip_leading (fuel : nat) (tokens : list (list ascii)) (s : list ascii)
  : list ascii :=
  match fuel with
  | O => s
  | S fuel' =>
      match strip_one tokens s with
      | Some r => strip_leading fuel' tokens r
      | None => s
      end
  end.

Definition trim (s : list ascii) : list ascii :=
  let s1 := strip_leading (length s) white_space s in
  rev (strip_leading (length s1) (map (@rev ascii) white_space) (rev s1)).

(** [m * 10^e] rounded to binary64, with the sign kept apart so that a
    zero or an underflow keeps it ([-0]). *)
Definition round_decimal (neg : bool) (m e : Z) : number :=
  match m with
  | Zpos p =>
      if 0 <=? e
      then binary_round prec emax neg (p * Z.to_pos (10 ^ e)) 0
      else SFdiv prec emax (S754_finite neg p 0)
                           (S754_finite false (Z.to_pos (10 ^ (- e))) 0)
  | _ => S754_zero neg
  end.

(** [e] or [E], an optional sign, at least one digit, and nothing after. *)
Definition parse_exponent (s : list ascii) : option Z :=
  match s with
  | [] => Some 0
  | c :: r =>
      if bool_decide (c = "e"%char) || bool_decide (c = "E"%char) then
        let '(neg, r') :=
          match r with
          | "-"%char :: r' => (true, r')
          | "+"%char :: r' => (false, r')
          | _ => (false, r)
          end in
        match span_digits r' with
        | ([], _) => None
        | (ds, []) => Some (if neg then - digits_to_Z ds else digits_to_Z ds)
        | (_, _ :: _) => None
        end
      else None
  end.

(** StrUnsignedDecimalLiteral without [Infinity]: the mantissa and the
    decimal exponent of the value. *)
Definition parse_unsigned_decimal (s : list ascii) : option (Z * Z) :=
  let '(ip, r1) := span_digits s in
  let '(fp, r2) :=
    match r1 with
    | "."%char :: r => span_digits r
    | _ => ([], r1)
    end in
  match ip ++ fp with
  | [] => None
  | ds =>
      match parse_exponent r2 with
      | Some ex => Some (digits_to_Z ds, ex - Z.of_nat (length fp))
      | None => None
      end
  end.

Definition parse_non_decimal (s : list ascii) : option Z :=
  match s with
  | [] | [_] | [_; _] => None
  | z :: p :: ds =>
      if negb (bool_decide (z = "0"%char)) then None
      else if bool_decide (p = "x"%char) || bool_decide (p = "X"%char)
      then radix_digits 16 ds 0
      else if bool_decide (p = "o"%char) || bool_decide (p = "O"%char)
      then radix_digits 8 ds 0
      else if bool_decide (p = "b"%char) || bool_decide (p = "B"%char)
      then radix_digits 2 ds 0
      else None
  end.

Definition StringToNumber (str : string) : number :=
  match trim (list_ascii_of_string str) with
  | [] => S754_zero false
  | t =>
      match parse_non_decimal t with
      | Some n => binary_normalize prec emax n 0 false
      | None =>
          let '(neg, u) :=
            match t with
            | "-"%char :: u => (true, u)
            | "+"%char :: u => (false, u)
            | _ => (false, t)
            end in
          if ascii_list_eqb u (list_ascii_of_string "Infinity") then Infinity neg
          else match parse_unsigned_decimal u with
               | Some (m, e) => round_decimal neg m e
               | None => NaN
               end
      end
  end.

(** [Number(v)]. The members of [Object.prototype] have no primitive
    value of their own: they go through their [toString], whose text (the
    source of a function, or [[object Object]]) is no numeral. *)
Definition Number (v : JsVal) : number :=
  match v with
  | JUndefined => NaN
  | JNull => S754_zero false
  | JBool true => lit 1
  | JBool false => S754_zero false
  | JNum x => x
  | JStr s => StringToNumber s
  | JObject _ => NaN
  end.

End Js.

(** ** The reference catalogue (tables of [@citysyntax/sbcc-core]) *)

Inductive Category := Concrete | Steel | Glass.

Definition Category_name (c : Category) : string :=
  match c with Concrete => "Concrete" | Steel => "Steel" | Glass => "Glass" end.

(** A category or [undefined], as a form value. *)
Definition Category_value (c : option Category) : Js.JsVal :=
  match c with Some k => Js.JStr (Category_name k) | None => Js.JUndefined end.

Module Component.
Record t := { componentId : string; greenMarkCategory : option Category }.
End Component.

Module CountryComponent.
Record t := { countryId : string; componentId : string;
              greenMarkCategory : option Category }.
End CountryComponent.

Module Port.
Record t := { countryId : string }.
End Port.

Module ReferenceValue.
Record t := { buildingType : string; referenceValue : Js.number }.
End ReferenceValue.

(** The static tables the application imports. *)
Record Catalogue := {
  globalComponents : list Component.t;
  countryComponents : list CountryComponent.t;
  ports : list Port.t;
  referenceValues : list ReferenceValue.t
}.

(** [new Set(arr)] keeps its elements in insertion order and ignores a
    value it already holds; [Array.from] lists them in that order. *)
Definition Set_add (s : list string) (x : string) : list string :=
  if bool_decide (x ∈ s) then s else s ++ [x].

Definition Set_new (arr : list string) : list string := foldl Set_add [] arr.

Definition unique (arr : list string) : list string := Set_new arr.

Definition componentIds (cat : Catalogue) : list string :=
  unique (map Component.componentId (globalComponents cat)
          ++ map CountryComponent.componentId (countryComponents cat)).

Definition countryIds (cat : Catalogue) : list string :=
  unique (map CountryComponent.countryId (countryComponents cat)
          ++ map Port.countryId (ports cat)).

(** The elements of [[...globalComponents, ...countryComponents]], read
    through the two properties the reducer uses. *)
Definition component_entries (cat : Catalogue) : list (string * option Category) :=
  map (fun c => (Component.componentId c, Component.greenMarkCategory c))
      (globalComponents cat)
  ++ map (fun c => (CountryComponent.componentId c, CountryComponent.greenMarkCategory c))
      (countryComponents cat).

(** The reducer: [acc[component.componentId] = component.greenMarkCategory].
    The accumulator is the record at its declared type
    [Record<string, "Concrete" | "Steel" | "Glass" | undefined>]: the
    finite map of its own entries, which may hold [undefined] ([None]).
    The keys are names of components: the key [__proto__], on which the
    assignment would make no entry, is taken to be none of them. *)
Definition greenmark_step (acc : gmap string (option Category))
    (component : string * option Category) : gmap string (option Category) :=
  <[component.1 := component.2]> acc.

Definition greenmark_reduce (entries : list (string * option Category))
  : gmap string (option Category) :=
  foldl greenmark_step ∅ entries.

Definition componentIdToGreenmarkMap (cat : Catalogue) : gmap string (option Category) :=
  greenmark_reduce (component_entries cat).

(** The property names every object inherits from [Object.prototype]. *)
Definition Object_prototype_names : list string :=
  [ "constructor"; "__defineGetter__"; "__defineSetter__"; "hasOwnProperty";
    "__lookupGetter__"; "__lookupSetter__"; "isPrototypeOf";
    "propertyIsEnumerable"; "toString"; "valueOf"; "__proto__";
    "toLocaleString" ].

(** [componentIdToGreenmarkMap[v]], a property read on an object made by
    [{}]: the value of the entry of [v] when the map has one; without an
    entry the member of that name inherited from [Object.prototype], when
    there is one; else [undefined]. *)
Definition greenmark_lookup (m : gmap string (option Category)) (v : string) : Js.JsVal :=
  match m !! v with
  | Some c => Category_value c
  | None =>
      if bool_decide (v ∈ Object_prototype_names) then Js.JObject v
      else Js.JUndefined
  end.

(** ** Rows *)

Module Field.
Inductive t :=
| componentId | greenMarkCategory | countryId | quantity | units
| manualMarineDistance | marineVehicleId | internationalRoadVehicleId
| internationalRoadDistance | localRoadVehicleId | localRoadDistance.

#[global] Instance eq_dec : EqDecision t.
Proof. solve_decision. Defined.

(** The property name of a field, as it appears in a form path such as
    [rows.0.quantity] and in the path of a validation issue. *)
Definition name (f : t) : string :=
  match f with
  | componentId => "componentId"
  | greenMarkCategory => "greenMarkCategory"
  | countryId => "countryId"
  | quantity => "quantity"
  | units => "units"
  | manualMarineDistance => "manualMarineDistance"
  | marineVehicleId => "marineVehicleId"
  | internationalRoadVehicleId => "internationalRoadVehicleId"
  | internationalRoadDistance => "internationalRoadDistance"
  | localRoadVehicleId => "localRoadVehicleId"
  | localRoadDistance => "localRoadDistance"
  end.
End Field.

(** One row object of the form. The TypeScript type [InputRow] says what
    the fields should hold; at run time each holds the value last written. *)
Record InputRow := {
  componentId : Js.JsVal;
  greenMarkCategory : Js.JsVal;
  countryId : Js.JsVal;
  quantity : Js.JsVal;
  units : Js.JsVal;
  manualMarineDistance : Js.JsVal;
  marineVehicleId : Js.JsVal;
  internationalRoadVehicleId : Js.JsVal;
  internationalRoadDistance : Js.JsVal;
  localRoadVehicleId : Js.JsVal;
  localRoadDistance : Js.JsVal
}.

(** [row[f]] *)
Definition row_get (f : Field.t) (r : InputRow) : Js.JsVal :=
  match f with
  | Field.componentId => componentId r
  | Field.greenMarkCategory => greenMarkCategory r
  | Field.countryId => countryId r
  | Field.quantity => quantity r
  | Field.units => units r
  | Field.manualMarineDistance => manualMarineDistance r
  | Field.marineVehicleId => marineVehicleId r
  | Field.internationalRoadVehicleId => internationalRoadVehicleId r
  | Field.internationalRoadDistance => internationalRoadDistance r
  | Field.localRoadVehicleId => localRoadVehicleId r
  | Field.localRoadDistance => localRoadDistance r
  end.

(** [row[f] = v] *)
Definition row_set (f : Field.t) (v : Js.JsVal) (r : InputRow) : InputRow :=
  let pick g := if bool_decide (f = g) then v else row_get g r in
  {| componentId := pick Field.componentId;
     greenMarkCategory := pick Field.greenMarkCategory;
     countryId := pick Field.countryId;
     quantity := pick Field.quantity;
     units := pick Field.units;
     manualMarineDistance := pick Field.manualMarineDistance;
     marineVehicleId := pick Field.marineVehicleId;
     internationalRoadVehicleId := pick Field.internationalRoadVehicleId;
     internationalRoadDistance := pick Field.internationalRoadDistance;
     localRoadVehicleId := pick Field.localRoadVehicleId;
     localRoadDistance := pick Field.localRoadDistance |}.

(** The object [{}]: every property reads [undefined]. *)
Definition empty_row : InputRow :=
  {| componentId := Js.JUndefined; greenMarkCategory := Js.JUndefined;
     countryId := Js.JUndefined; quantity := Js.JUndefined;
     units := Js.JUndefined; manualMarineDistance := Js.JUndefined;
     marineVehicleId := Js.JUndefined;
     internationalRoadVehicleId := Js.JUndefined;
     internationalRoadDistance := Js.JUndefined;
     localRoadVehicleId := Js.JUndefined;
     localRoadDistance := Js.JUndefined |}.

(** [defaultInputRow()]; [globalComponents[0].componentId] throws on an
    empty table. *)
Definition defaultInputRow (cat : Catalogue) : option InputRow :=
  match globalComponents cat with
  | [] => None
  | c :: _ =>
      Some {| componentId := Js.JStr (Component.componentId c);
              greenMarkCategory := Js.JUndefined;
              countryId := Js.JStr "Singapore";
              quantity := Js.JNum (Js.lit 20);
              units := Js.JStr "tonne";
              manualMarineDistance := Js.JUndefined;
              marineVehicleId := Js.JStr "Bulk carrier";
              internationalRoadVehicleId := Js.JStr "Very heavy goods vehicle";
              internationalRoadDistance := Js.JNum (Js.lit 0);
              localRoadVehicleId := Js.JStr "Heavy goods vehicle";
              localRoadDistance := Js.JNum (Js.lit 50) |}
  end.

(** ** The zod schemas *)

Module Zod.

(** Major version of the [zod] package: from version 4 on, [z.number()]
    refuses the two infinities; version 3 takes them. For whether the
    schemas of this program accept a value, nothing else differs. The
    issue of a failing [z.enum] differs in its code: version 3 raises
    [invalid_enum_value] on a string outside the members and
    [invalid_type] on anything else, version 4 raises [invalid_value] on
    both. *)
Inductive version := v3 | v4.

Inductive IssueCode :=
| invalid_type | too_small | invalid_enum_value | invalid_value.

Inductive Key := Prop_key (name : string) | Index_key (i : nat).

#[global] Instance Key_eq_dec : EqDecision Key.
Proof. solve_decision. Defined.

Record Issue := { code : IssueCode; path : list Key }.

Inductive Result (A : Type) :=
| Ok (value : A)
| Err (issues : list Issue).
Arguments Ok {A} value.
Arguments Err {A} issues.

Definition issues_of {A} (r : Result A) : list Issue :=
  match r with Ok _ => [] | Err l => l end.

Definition success {A} (r : Result A) : bool :=
  match r with Ok _ => true | Err _ => false end.

Inductive NumberCheck := Min (value : Js.number).

Inductive Schema :=
| string_
| enum_ (members : list string)
| number_ (coerce : bool) (checks : list NumberCheck)
| optional (inner : Schema).

(** [z.coerce.number()] and [.min(value)] *)
Definition coerce_number : Schema := number_ true [].

Definition min (value : Js.number) (s : Schema) : Schema :=
  match s with
  | number_ c checks => number_ c (checks ++ [Min value])
  | _ => s
  end.

(** A check that fails leaves one issue; [.min] is inclusive, so the
    value is too small when [data < value]. *)
Definition check_issues (p : list Key) (data : Js.number) (c : NumberCheck) : list Issue :=
  match c with
  | Min value => if Js.lt data value then [ {| code := too_small; path := p |} ] else []
  end.

Definition is_number (ver : version) (data : Js.number) : bool :=
  negb (Js.isNaN data) &&
  match ver with v3 => true | v4 => Js.isFinite data end.

Fixpoint parse (ver : version) (s : Schema) (p : list Key) (input : Js.JsVal)
  : Result Js.JsVal :=
  match s with
  | string_ =>
      match input with
      | Js.JStr _ => Ok input
      | _ => Err [ {| code := invalid_type; path := p |} ]
      end
  | enum_ members =>
      match input with
      | Js.JStr v =>
          if bool_decide (v ∈ members) then Ok input
          else Err [ {| code := match ver with
                                | v3 => invalid_enum_value
                                | v4 => invalid_value
                                end;
                        path := p |} ]
      | _ => Err [ {| code := match ver with
                              | v3 => invalid_type
                              | v4 => invalid_value
                              end;
                      path := p |} ]
      end
  | number_ coerce checks =>
      let data := if coerce then Some (Js.Number input)
                  else match input with Js.JNum x => Some x | _ => None end in
      match data with
      | Some x =>
          if is_number ver x then
            match concat (map (check_issues p x) checks) with
            | [] => Ok (Js.JNum x)
            | l => Err l
            end
          else Err [ {| code := invalid_type; path := p |} ]
      | None => Err [ {| code := invalid_type; path := p |} ]
      end
  | optional inner =>
      match input with
      | Js.JUndefined => Ok Js.JUndefined
      | _ => parse ver inner p input
      end
  end.

Definition value_of (r : Result Js.JsVal) : Js.JsVal :=
  match r with Ok v => v | Err _ => Js.JUndefined end.

(** [z.object(shape)] on a row: every key of the shape is parsed, the
    issues of all of them are gathered, and without any issue the result
    is the object of the parsed values. *)
Definition parse_object (ver : version) (shape : list (Field.t * Schema))
    (p : list Key) (r : InputRow) : Result InputRow :=
  let results :=
    map (fun fs : Field.t * Schema =>
           (fs.1, parse ver fs.2 (p ++ [Prop_key (Field.name fs.1)]) (row_get fs.1 r)))
        shape in
  match concat (map (fun fr : Field.t * Result Js.JsVal => issues_of fr.2) results) with
  | [] => Ok (foldl (fun out (fr : Field.t * Result Js.JsVal) =>
                       row_set fr.1 (value_of fr.2) out) empty_row results)
  | l => Err l
  end.

End Zod.

Definition rowschema : list (Field.t * Zod.Schema) :=
  [ (Field.componentId, Zod.string_);
    (Field.greenMarkCategory, Zod.optional (Zod.enum_ ["Concrete"; "Steel"; "Glass"]));
    (Field.countryId, Zod.string_);
    (Field.quantity, Zod.min (Js.lit 0) Zod.coerce_number);
    (Field.units, Zod.enum_ ["tonne"; "kg"]);
    (Field.manualMarineDistance, Zod.optional Zod.coerce_number);
    (Field.marineVehicleId, Zod.string_);
    (Field.internationalRoadVehicleId, Zod.string_);
    (Field.internationalRoadDistance, Zod.min (Js.lit 0) Zod.coerce_number);
    (Field.localRoadVehicleId, Zod.string_);
    (Field.localRoadDistance, Zod.min (Js.lit 0) Zod.coerce_number) ].

(** The schema [rowschema] gives a field. *)
Definition field_schema (f : Field.t) : Zod.Schema :=
  match list_find (fun fs : Field.t * Zod.Schema => fs.1 = f) rowschema with
  | Some (_, (_, s)) => s
  | None => Zod.string_
  end.

(** [rowschema.safeParse(row)] *)
Definition rowschema_safeParse (ver : Zod.version) (r : InputRow) : Zod.Result InputRow :=
  Zod.parse_object ver rowschema [] r.

(** The issues [rowschema] reports on one field of a row. *)
Definition field_issues (ver : Zod.version) (f : Field.t) (r : InputRow) : list Zod.Issue :=
  filter (fun i => Zod.path i = [Zod.Prop_key (Field.name f)])
         (Zod.issues_of (rowschema_safeParse ver r)).

(** ** The form store (react-hook-form) *)

Module Form.

(** The values of the form: what [form.watch()] returns. *)
Record values := {
  rows : list InputRow;
  gfa : Js.JsVal;
  referenceValue : Js.JsVal
}.

(** A registered field name: [gfa], [referenceValue] or
    [rows.${index}.${field}]. *)
Inductive Name :=
| gfa_name
| referenceValue_name
| row_name (index : nat) (f : Field.t).

#[global] Instance Name_eq_dec : EqDecision Name.
Proof. solve_decision. Defined.

(** Writing [rows.${index}.${f}]: an existing row object gets the
    property; past the end the array is extended up to [index] (the
    positions skipped are written as the empty object) and the new row
    holds the one property. *)
Definition set_row (index : nat) (f : Field.t) (v : Js.JsVal)
    (l : list InputRow) : list InputRow :=
  match l !! index with
  | Some r => <[index := row_set f v r]> l
  | None => l ++ replicate (index - length l)%nat empty_row ++ [row_set f v empty_row]
  end.

(** [set(_formValues, name, value)] *)
Definition set (n : Name) (v : Js.JsVal) (fv : values) : values :=
  match n with
  | gfa_name => {| rows := rows fv; gfa := v; referenceValue := referenceValue fv |}
  | referenceValue_name => {| rows := rows fv; gfa := gfa fv; referenceValue := v |}
  | row_name index f =>
      {| rows := set_row index f v (rows fv); gfa := gfa fv;
         referenceValue := referenceValue fv |}
  end.

(** [get(_formValues, name)] *)
Definition get (n : Name) (fv : values) : Js.JsVal :=
  match n with
  | gfa_name => gfa fv
  | referenceValue_name => referenceValue fv
  | row_name index f =>
      match rows fv !! index with
      | Some r => row_get f r
      | None => Js.JUndefined
      end
  end.

(** [form.watch()]: the current values, as they are. The resolver is run
    by [handleSubmit] only (the form is created with the default mode),
    and nothing in the program submits the form, so no value passes
    through the schema on its way here. *)
Definition watch (fv : values) : values := fv.

(** [field.onChange(event)]: the event's value goes into the store. *)
Definition onChange (n : Name) (v : Js.JsVal) (fv : values) : values := set n v fv.

(** [form.setValue(name, value)] *)
Definition setValue (n : Name) (v : Js.JsVal) (fv : values) : values := set n v fv.

(** [append(row)] and [remove(index)] of [useFieldArray] on [rows]. *)
Definition append (r : InputRow) (fv : values) : values :=
  {| rows := rows fv ++ [r]; gfa := gfa fv; referenceValue := referenceValue fv |}.

Definition remove (index : nat) (fv : values) : values :=
  {| rows := delete index (rows fv); gfa := gfa fv;
     referenceValue := referenceValue fv |}.

End Form.

(** [useForm({ defaultValues })]; both [defaultInputRow()] and
    [referenceValues[0]] throw on an empty table. *)
Definition defaultValues (cat : Catalogue) : option Form.values :=
  match defaultInputRow cat, referenceValues cat with
  | Some r, rv :: _ =>
      Some {| Form.rows := [r]; Form.gfa := Js.JNum (Js.lit 1000);
              Form.referenceValue := Js.JNum (ReferenceValue.referenceValue rv) |}
  | _, _ => None
  end.

(** The resolver's schema on the whole form:
    [z.object({ rows: z.array(rowschema), gfa: z.coerce.number(),
    referenceValue: z.coerce.number() })]. *)
Definition formschema_issues (ver : Zod.version) (fv : Form.values) : list Zod.Issue :=
  concat (imap (fun i r =>
                  Zod.issues_of
                    (Zod.parse_object ver rowschema
                       [Zod.Prop_key "rows"; Zod.Index_key i] r))
               (Form.rows fv))
  ++ Zod.issues_of (Zod.parse ver Zod.coerce_number [Zod.Prop_key "gfa"] (Form.gfa fv))
  ++ Zod.issues_of (Zod.parse ver Zod.coerce_number [Zod.Prop_key "referenceValue"]
                      (Form.referenceValue fv)).

(** ** Handlers of the row table *)

(** [onValueChange] of the component chooser of row [index]. *)
Definition componentId_onValueChange (cat : Catalogue) (index : nat) (v : string)
    (fv : Form.values) : Form.values :=
  let fv1 := Form.onChange (Form.row_name index Field.componentId) (Js.JStr v) fv in
  let greenMarkCategory := greenmark_lookup (componentIdToGreenmarkMap cat) v in
  Form.setValue (Form.row_name index Field.greenMarkCategory)
                greenMarkCategory fv1.

(** [{ ...rows[index] }]: a fresh object with the properties of the row;
    spreading [undefined] gives the empty object. *)
Definition spread_row (l : list InputRow) (index : nat) : InputRow :=
  match l !! index with Some r => r | None => empty_row end.

(** The copy button of row [index]: [append({ ...rows[index] })]. *)
Definition copy_onClick (index : nat) (fv : Form.values) : Form.values :=
  Form.append (spread_row (Form.rows (Form.watch fv)) index) fv.

(** The delete button of row [index]. *)
Definition delete_onClick (index : nat) (fv : Form.values) : Form.values :=
  Form.remove index fv.

(** Either "Add Row" button: [append(defaultInputRow())]; when
    [defaultInputRow] throws, nothing is appended. *)
Definition addRow_onClick (cat : Catalogue) (fv : Form.values) : Form.values :=
  match defaultInputRow cat with
  | Some r => Form.append r fv
  | None => fv
  end.

(** ** The calculator's output and its JSON text *)

Module Output.

(** Modelled from the spec: the type of one entry of [Output.rows] is
    declared in [@citysyntax/sbcc-core]; it has the two figures the spec
    lists and [App.tsx] shows. *)
Record row := { a1a3 : Js.number; a4 : Js.number }.

(** Modelled from the spec: the [Output] type is declared in
    [@citysyntax/sbcc-core]; its properties are those the spec lists and
    [App.tsx] reads. *)
Record t := {
  version : string;
  totalEmissions : Js.number;
  embodiedCarbonPerGfa : Js.number;
  embodiedCarbonPerGfaComparedToReference : Js.number;
  greenMarkScore : Js.number;
  rows : list row
}.

End Output.

Module JSON.

#[warnings="-register-all"]
Inductive value :=
| Null
| Bool (b : bool)
| Num (x : Js.number)
| Str (s : string)
| Array (items : list value)
| Object (properties : list (string * value)).

Definition quote : string := String (ascii_of_nat 34) EmptyString.
Definition backslash : string := String (ascii_of_nat 92) EmptyString.
Definition newline : string := String (ascii_of_nat 10) EmptyString.

Definition hex_digit (n : nat) : string :=
  String.substring n 1 "0123456789abcdef".

(** One character of [QuoteJSONString]. *)
Definition quote_char (c : ascii) : string :=
  let n := nat_of_ascii c in
  if bool_decide (n = 8)%nat then backslash +:+ "b"
  else if bool_decide (n = 9)%nat then backslash +:+ "t"
  else if bool_decide (n = 10)%nat then backslash +:+ "n"
  else if bool_decide (n = 12)%nat then backslash +:+ "f"
  else if bool_decide (n = 13)%nat then backslash +:+ "r"
  else if bool_decide (n = 34)%nat then backslash +:+ quote
  else if bool_decide (n = 92)%nat then backslash +:+ backslash
  else if bool_decide (n < 32)%nat
       then backslash +:+ "u00" +:+ hex_digit (n / 16) +:+ hex_digit (n mod 16)
  else String c EmptyString.

Definition QuoteJSONString (s : string) : string :=
  quote +:+ String.concat EmptyString (map quote_char (list_ascii_of_string s)) +:+ quote.

Section Stringify.

(** [Number::toString] (the shortest decimal that reads back as the
    number) is left to the engine. *)
Variable Number_toString : Js.number -> string.

(** The [space] argument, already turned into the gap string. *)
Variable gap : string.

Definition wrap (opening closing stepback indent : string) (partial : list string) : string :=
  match partial with
  | [] => opening +:+ closing
  | _ =>
      if bool_decide (gap = EmptyString) then
        opening +:+ String.concat "," partial +:+ closing
      else
        opening +:+ newline +:+ indent
        +:+ String.concat ("," +:+ newline +:+ indent) partial
        +:+ newline +:+ stepback +:+ closing
  end.

Fixpoint SerializeJSONProperty (indent : string) (v : value) : string :=
  match v with
  | Null => "null"
  | Bool b => if b then "true" else "false"
  | Num x => if Js.isFinite x then Number_toString x else "null"
  | Str s => QuoteJSONString s
  | Array items =>
      wrap "[" "]" indent (indent +:+ gap)
           (map (SerializeJSONProperty (indent +:+ gap)) items)
  | Object properties =>
      wrap "{" "}" indent (indent +:+ gap)
           (map (fun kv : string * value =>
                   let '(k, x) := kv in
                   QuoteJSONString k +:+ ":"
                   +:+ (if bool_decide (gap = EmptyString) then EmptyString else " ")
                   +:+ SerializeJSONProperty (indent +:+ gap) x)
                properties)
  end.

End Stringify.

(** [JSON.stringify(v, null, 2)] *)
Definition stringify2 (Number_toString : Js.number -> string) (v : value) : string :=
  SerializeJSONProperty Number_toString "  " EmptyString v.

(** The property names of an object, in order. *)
Definition keys (v : value) : list string :=
  match v with Object properties => map fst properties | _ => [] end.

End JSON.

(** Modelled from the spec: the output object as a JSON value, its
    properties in the order the spec lists them. *)
Definition Output_row_json (r : Output.row) : JSON.value :=
  JSON.Object [ ("a1a3", JSON.Num (Output.a1a3 r)); ("a4", JSON.Num (Output.a4 r)) ].

(** Modelled from the spec: see [Output_row_json]. *)
Definition Output_json (o : Output.t) : JSON.value :=
  JSON.Object
    [ ("version", JSON.Str (Output.version o));
      ("totalEmissions", JSON.Num (Output.totalEmissions o));
      ("embodiedCarbonPerGfa", JSON.Num (Output.embodiedCarbonPerGfa o));
      ("embodiedCarbonPerGfaComparedToReference",
        JSON.Num (Output.embodiedCarbonPerGfaComparedToReference o));
      ("greenMarkScore", JSON.Num (Output.greenMarkScore o));
      ("rows", JSON.Array (map Output_row_json (Output.rows o))) ].

(** ** The browser, as far as the download button touches it *)

Module Browser.

Record Blob := { parts : list string; type : string }.

(** An object URL, named by its serial number. *)
Definition URL := nat.

Record Element := {
  tagName : string;
  href : option URL;
  download : option string
}.

#[global] Instance Element_eq_dec : EqDecision Element.
Proof. solve_decision. Defined.

Record File := { name : string; content : Blob }.

Record t := {
  object_urls : gmap nat Blob;
  next_url : nat;
  body : list Element;
  downloads : list File
}.

Definition createObjectURL (blob : Blob) (b : t) : URL * t :=
  (next_url b,
   {| object_urls := <[next_url b := blob]> (object_urls b);
      next_url := S (next_url b);
      body := body b; downloads := downloads b |}).

Definition revokeObjectURL (u : URL) (b : t) : t :=
  {| object_urls := delete u (object_urls b); next_url := next_url b;
     body := body b; downloads := downloads b |}.

Definition createElement (tag : string) : Element :=
  {| tagName := tag; href := None; download := None |}.

Definition appendChild (e : Element) (b : t) : t :=
  {| object_urls := object_urls b; next_url := next_url b;
     body := body b ++ [e]; downloads := downloads b |}.

(** Drops the last child equal to [e]: the node the handler removes is
    the one it has just appended. *)
Fixpoint remove_last (e : Element) (l : list Element) : list Element :=
  match l with
  | [] => []
  | x :: r =>
      if bool_decide (e ∈ r) then x :: remove_last e r
      else if bool_decide (x = e) then r else x :: r
  end.

Definition removeChild (e : Element) (b : t) : t :=
  {| object_urls := object_urls b; next_url := next_url b;
     body := remove_last e (body b); downloads := downloads b |}.

(** [a.click()] on an anchor with a [download] attribute saves the
    resource behind [href] under that name. *)
Definition click (e : Element) (b : t) : t :=
  match download e, href e with
  | Some n, Some u =>
      match object_urls b !! u with
      | Some blob =>
          {| object_urls := object_urls b; next_url := next_url b;
             body := body b;
             downloads := downloads b ++ [ {| name := n; content := blob |} ] |}
      | None => b
      end
  | _, _ => b
  end.

End Browser.

(** The download button's [onClick]. *)
Definition download_onClick (Number_toString : Js.number -> string)
    (output : Output.t) (b : Browser.t) : Browser.t :=
  let blob := {| Browser.parts := [JSON.stringify2 Number_toString (Output_json output)];
                 Browser.type := "application/json" |} in
  let '(url, b1) := Browser.createObjectURL blob b in
  let a := Browser.createElement "a" in
  let a := {| Browser.tagName := Browser.tagName a; Browser.href := Some url;
              Browser.download := Browser.download a |} in
  let a := {| Browser.tagName := Browser.tagName a; Browser.href := Browser.href a;
              Browser.download := Some "output.sbcc.json" |} in
  let b2 := Browser.appendChild a b1 in
  let b3 := Browser.click a b2 in
  let b4 := Browser.removeChild a b3 in
  Browser.revokeObjectURL url b4.

(** ** The chooser [SelectInput] *)

Module SelectInput.

Inductive Options :=
| Strings (l : list string)
| Labelled (l : list (string * string)).   (* value, label *)

Record Props := {
  value : option string;
  options : Options;
  placeholder : string
}.

Record SelectItem := {
  item_value : string;
  children : option string;
  disabled : bool
}.

(** What one render hands to [<Select>]. *)
Record Select := {
  select_value : string;
  select_open : bool;
  select_placeholder : string;
  content : list SelectItem
}.

(** The label shown while closed: the value itself for string options,
    else the label of the first option with that value. *)
Definition closed_label (opts : Options) (v : string) : option string :=
  match opts with
  | Strings (_ :: _) => Some v
  | Strings [] => None
  | Labelled l =>
      match list_find (fun o : string * string => o.1 = v) l with
      | Some (_, o) => Some o.2
      | None => None
      end
  end.

Definition open_items (opts : Options) : list SelectItem :=
  match opts with
  | Strings l =>
      map (fun o => {| item_value := o; children := Some o; disabled := false |}) l
  | Labelled l =>
      map (fun o : string * string =>
             {| item_value := o.1; children := Some o.2; disabled := false |}) l
  end.

(** [!open && value && (...)]: an absent or empty value renders nothing. *)
Definition closed_items (p : Props) : list SelectItem :=
  match value p with
  | Some v =>
      if bool_decide (v = EmptyString) then []
      else [ {| item_value := v; children := closed_label (options p) v;
                disabled := true |} ]
  | None => []
  end.

(** The component body, with [open] the state of [useState(false)]. *)
Definition render (open : bool) (p : Props) : Select :=
  {| select_value := match value p with Some v => v | None => EmptyString end;
     select_open := open;
     select_placeholder := placeholder p;
     content := if open then open_items (options p) else closed_items p |}.

End SelectInput.

(** ** The application as a transition system *)

(** [value={value}] of a chooser bound to a form field. *)
Definition bound_value (v : Js.JsVal) : option string :=
  match v with Js.JStr s => Some s | _ => None end.

(** [field.value] of the render prop of a [FormField]: the value the form
    holds for the field, and the value the field held when the
    [FormField] was mounted while the form holds [undefined] for it. *)
Definition field_value (mounted v : Js.JsVal) : Js.JsVal :=
  match v with Js.JUndefined => mounted | _ => v end.

Record State := {
  form : Form.values;
  (** the [open] state of the chooser bound to each field *)
  opened : Form.Name -> bool;
  browser : Browser.t
}.

Inductive Event :=
| Select_onOpenChange (chooser : Form.Name) (o : bool)
| Field_onChange (n : Form.Name) (v : Js.JsVal)
| Component_onValueChange (index : nat) (v : string)
| Copy_onClick (index : nat)
| Delete_onClick (index : nat)
| AddRow_onClick
| Download_onClick.

Section App.

Variable cat : Catalogue.

(** [embodiedCarbonCalculator().calculateGreenMark], from
    [@citysyntax/sbcc-core]. *)
Variable calculateGreenMark : Form.values -> Output.t.

Variable Number_toString : Js.number -> string.

(** [const calculatorParameters = form.watch()] and the output derived
    from it at every render. *)
Definition calculatorParameters (s : State) : Form.values := Form.watch (form s).

Definition output (s : State) : Output.t := calculateGreenMark (calculatorParameters s).

Definition with_form (s : State) (fv : Form.values) : State :=
  {| form := fv; opened := opened s; browser := browser s |}.

Definition step (s : State) (e : Event) : State :=
  match e with
  | Select_onOpenChange chooser o =>
      {| form := form s;
         opened := fun n => if bool_decide (n = chooser) then o else opened s n;
         browser := browser s |}
  | Field_onChange n v => with_form s (Form.onChange n v (form s))
  | Component_onValueChange index v =>
      with_form s (componentId_onValueChange cat index v (form s))
  | Copy_onClick index => with_form s (copy_onClick index (form s))
  | Delete_onClick index => with_form s (delete_onClick index (form s))
  | AddRow_onClick => with_form s (addRow_onClick cat (form s))
  | Download_onClick =>
      {| form := form s; opened := opened s;
         browser := download_onClick Number_toString (output s) (browser s) |}
  end.

Definition run (s : State) (es : list Event) : State := foldl step s es.

(** The [value] prop of the chooser bound to field [n]: the field's value
    for the choosers of the row table, [value.toString()] for the one of
    [referenceValue], whose field holds the number of the defaults or the
    string of an option picked. *)
Definition chooser_value (n : Form.Name) (v : Js.JsVal) : option string :=
  match n with
  | Form.referenceValue_name =>
      match v with
      | Js.JNum x => Some (Number_toString x)
      | Js.JStr x => Some x
      | Js.JBool b => Some (if b then "true" else "false")
      | _ => None
      end
  | _ => bound_value v
  end.

(** The chooser bound to field [n], as rendered in state [s]; [mounted]
    is the value its field held when the [FormField] around it was
    mounted, from which [field_value] makes the [value] handed on. *)
Definition chooser (mounted : Js.JsVal) (s : State) (n : Form.Name)
    (opts : SelectInput.Options) (ph : string) : SelectInput.Select :=
  SelectInput.render (opened s n)
    {| SelectInput.value :=
         chooser_value n (field_value mounted (Form.get n (form s)));
       SelectInput.options := opts;
       SelectInput.placeholder := ph |}.

End App.

(** ** Reference definitions and sample data *)

(** The category the map holds for [v]: that of the entry of [v], which
    may itself be [undefined]; none without an entry. For an identifier
    that has an entry this is what [greenmark_lookup] reads. *)
Definition greenmark_get (m : gmap string (option Category)) (v : string) : option Category :=
  match m !! v with Some c => c | None => None end.

(** The list of first occurrences, written by recursion on the input:
    the head stays and is struck from what follows. *)
Fixpoint first_occurrences (l : list string) : list string :=
  match l with
  | [] => []
  | x :: r => x :: filter (fun y => y ≠ x) (first_occurrences r)
  end.

(** The value of the last pair of [l] whose key is [k]. *)
Fixpoint last_entry (k : string) (l : list (string * option Category))
  : option (option Category) :=
  match l with
  | [] => None
  | e :: r =>
      match last_entry k r with
      | Some v => Some v
      | None => if bool_decide (e.1 = k) then Some e.2 else None
      end
  end.

(** A sequence of open and close transitions of choosers, as events. *)
Definition open_changes (ts : list (Form.Name * bool)) : list Event :=
  map (fun t : Form.Name * bool => Select_onOpenChange t.1 t.2) ts.

(** The sign bit of a number that is not NaN. *)
Definition sign_of (x : Js.number) : option bool :=
  match x with
  | S754_nan => None
  | S754_zero s | S754_infinity s | S754_finite s _ _ => Some s
  end.

(** Whether the text left after trimming starts with a minus sign. *)
Definition leading_minus (s : string) : bool :=
  match Js.trim (list_ascii_of_string s) with
  | c :: _ => bool_decide (c = "-"%char)
  | [] => false
  end.

(** A decimal numeral as text: an optional sign, the integer digits and,
    after a point, the fraction digits. *)
Inductive Sign := Unsigned | Minus | Plus.

Definition sign_text (sg : Sign) : list ascii :=
  match sg with Unsigned => [] | Minus => ["-"%char] | Plus => ["+"%char] end.

Definition fraction_text (fp : option (list ascii)) : list ascii :=
  match fp with Some f => "."%char :: f | None => [] end.

Definition fraction_digits (fp : option (list ascii)) : list ascii :=
  match fp with Some f => f | None => [] end.

Definition decimal_text (sg : Sign) (ip : list ascii) (fp : option (list ascii)) : string :=
  string_of_list_ascii (sign_text sg ++ ip ++ fraction_text fp).

Definition all_digits (ds : list ascii) : Prop :=
  Forall (fun c => Js.is_digit c = true) ds.

(** A character of a plain decimal numeral. *)
Definition plain (c : ascii) : bool :=
  Js.is_digit c || bool_decide (c = "."%char)
  || bool_decide (c = "-"%char) || bool_decide (c = "+"%char).

Definition is_minus (sg : Sign) : bool :=
  match sg with Minus => true | _ => false end.

Definition is_zero (x : Js.number) : bool :=
  match x with S754_zero _ => true | _ => false end.

Definition issue_at (c : Zod.IssueCode) (p : list Zod.Key) : Zod.Issue :=
  {| Zod.code := c; Zod.path := p |}.

(** The path of the issues raised on field [f] of a row. *)
Definition field_path (f : Field.t) : list Zod.Key :=
  [Zod.Prop_key (Field.name f)].

(** The fields whose schema is [z.coerce.number().min(0)]. *)
Definition bounded_fields : list Field.t :=
  [Field.quantity; Field.internationalRoadDistance; Field.localRoadDistance].

Definition sample_catalogue : Catalogue :=
  {| globalComponents :=
       [ {| Component.componentId := "Concrete C30";
            Component.greenMarkCategory := Some Concrete |};
         {| Component.componentId := "Rebar";
            Component.greenMarkCategory := Some Steel |};
         {| Component.componentId := "Timber";
            Component.greenMarkCategory := None |} ];
     countryComponents :=
       [ {| CountryComponent.countryId := "Malaysia";
            CountryComponent.componentId := "Rebar";
            CountryComponent.greenMarkCategory := Some Steel |};
         {| CountryComponent.countryId := "China";
            CountryComponent.componentId := "Float glass";
            CountryComponent.greenMarkCategory := Some Glass |};
         {| CountryComponent.countryId := "Malaysia";
            CountryComponent.componentId := "Concrete C30";
            CountryComponent.greenMarkCategory := None |} ];
     ports := [ {| Port.countryId := "Singapore" |}; {| Port.countryId := "China" |} ];
     referenceValues :=
       [ {| ReferenceValue.buildingType := "Residential";
            ReferenceValue.referenceValue := Js.lit 1000 |} ] |}.

(** The row [defaultInputRow()] returns over the sample tables. *)
Definition sample_row : InputRow :=
  {| componentId := Js.JStr "Concrete C30";
     greenMarkCategory := Js.JUndefined;
     countryId := Js.JStr "Singapore";
     quantity := Js.JNum (Js.lit 20);
     units := Js.JStr "tonne";
     manualMarineDistance := Js.JUndefined;
     marineVehicleId := Js.JStr "Bulk carrier";
     internationalRoadVehicleId := Js.JStr "Very heavy goods vehicle";
     internationalRoadDistance := Js.JNum (Js.lit 0);
     localRoadVehicleId := Js.JStr "Heavy goods vehicle";
     localRoadDistance := Js.JNum (Js.lit 50) |}.

(** The form as [useForm] creates it over the sample tables. *)
Definition sample_values : Form.values :=
  {| Form.rows := [sample_row]; Form.gfa := Js.JNum (Js.lit 1000);
     Form.referenceValue := Js.JNum (Js.lit 1000) |}.

(** An output and a calculator to run the application on the sample
    form: the calculator is external, so any function will do here. *)
Definition sample_output : Output.t :=
  {| Output.version := "0.0.0";
     Output.totalEmissions := Js.lit 0;
     Output.embodiedCarbonPerGfa := Js.lit 0;
     Output.embodiedCarbonPerGfaComparedToReference := Js.lit 0;
     Output.greenMarkScore := Js.lit 0;
     Output.rows := [] |}.

Definition sample_state : State :=
  {| form := sample_values;
     opened := fun _ => false;
     browser := {| Browser.object_urls := ∅; Browser.next_url := 0;
                   Browser.body := []; Browser.downloads := [] |} |}.

(** ** The other listings of the catalogue *)

Module Vehicle.
(** A row of the [vehicles] table. The type of [mode] is declared in
    [@citysyntax/sbcc-core]; the program only asks it [includes]. *)
Record t (Mode : Type) := { vehicleId : string; mode : Mode }.
Arguments vehicleId {Mode} _.
Arguments mode {Mode} _.
End Vehicle.

Section Vehicles.

Variable Mode : Type.

(** [mode.includes(name)] *)
Variable includes : Mode -> string -> bool.

Definition vehicles_of_mode (name : string) (vehicles : list (Vehicle.t Mode))
  : list string :=
  unique (map Vehicle.vehicleId
            (filter (fun v => includes (Vehicle.mode v) name = true) vehicles)).

Definition marineVehicleIds (vehicles : list (Vehicle.t Mode)) : list string :=
  vehicles_of_mode "Maritime" vehicles.

Definition roadVehicles (vehicles : list (Vehicle.t Mode)) : list string :=
  vehicles_of_mode "Road" vehicles.

End Vehicles.

(** [referenceValueOptions]: the value is [referenceValue.toString()], the
    label the template with the building type and the value. *)
Definition referenceValueOption (Number_toString : Js.number -> string)
    (rv : ReferenceValue.t) : string * string :=
  (Number_toString (ReferenceValue.referenceValue rv),
   ReferenceValue.buildingType rv +:+ " ("
   +:+ Number_toString (ReferenceValue.referenceValue rv) +:+ "kgCO₂eq/m² GFA)").

Definition referenceValueOptions (Number_toString : Js.number -> string)
    (cat : Catalogue) : list (string * string) :=
  map (referenceValueOption Number_toString) (referenceValues cat).

(** ** Conditions on the values of a row *)

Definition is_string (v : Js.JsVal) : bool :=
  match v with Js.JStr _ => true | _ => false end.

Definition one_of (members : list string) (v : Js.JsVal) : bool :=
  match v with Js.JStr s => bool_decide (s ∈ members) | _ => false end.

Definition is_undefined (v : Js.JsVal) : bool :=
  match v with Js.JUndefined => true | _ => false end.

(** The value coerces to what this version of zod takes for a number. *)
Definition coerces (ver : Zod.version) (v : Js.JsVal) : bool :=
  Zod.is_number ver (Js.Number v).

Definition coerces_nonneg (ver : Zod.version) (v : Js.JsVal) : bool :=
  coerces ver v && negb (Js.lt (Js.Number v) (Js.lit 0)).

(** The condition on each field, read off [rowschema] line by line. *)
Definition field_ok (ver : Zod.version) (f : Field.t) (v : Js.JsVal) : bool :=
  match f with
  | Field.componentId | Field.countryId | Field.marineVehicleId
  | Field.internationalRoadVehicleId | Field.localRoadVehicleId => is_string v
  | Field.greenMarkCategory =>
      is_undefined v || one_of ["Concrete"; "Steel"; "Glass"] v
  | Field.units => one_of ["tonne"; "kg"] v
  | Field.manualMarineDistance => is_undefined v || coerces ver v
  | Field.quantity | Field.internationalRoadDistance | Field.localRoadDistance =>
      coerces_nonneg ver v
  end.

Definition all_fields : list Field.t :=
  [Field.componentId; Field.greenMarkCategory; Field.countryId; Field.quantity;
   Field.units; Field.manualMarineDistance; Field.marineVehicleId;
   Field.internationalRoadVehicleId; Field.internationalRoadDistance;
   Field.localRoadVehicleId; Field.localRoadDistance].

Definition row_ok (ver : Zod.version) (r : InputRow) : bool :=
  forallb (fun f => field_ok ver f (row_get f r)) all_fields.

(** An issue with [p] put in front of its path. *)
Definition issue_under (p : list Zod.Key) (i : Zod.Issue) : Zod.Issue :=
  {| Zod.code := Zod.code i; Zod.path := p ++ Zod.path i |}.

(** ** Events the rendered page can raise *)

(** The options of the choosers with fixed lists. *)
Definition units_options : list string := ["tonne"; "kg"].
Definition category_options : list string := ["Concrete"; "Steel"; "Glass"].

(** The fields edited through a chooser. *)
Definition chooser_field (f : Field.t) : bool :=
  match f with
  | Field.quantity | Field.manualMarineDistance
  | Field.internationalRoadDistance | Field.localRoadDistance => false
  | _ => true
  end.

(** An option a chooser of field [f] can hand to [onValueChange]: one of
    the fixed lists for [units] and [greenMarkCategory], a string of a
    catalogue listing for the others. *)
Definition chooser_option (f : Field.t) (o : string) : Prop :=
  match f with
  | Field.units => o ∈ units_options
  | Field.greenMarkCategory => o ∈ category_options
  | _ => True
  end.

(** The handlers of the row table exist for the rows rendered, those of
    [rows.map((_, index) => ...)]. *)
Definition rendered (s : State) (e : Event) : Prop :=
  match e with
  | Field_onChange (Form.row_name index _) _
  | Component_onValueChange index _
  | Copy_onClick index
  | Delete_onClick index => (index < length (Form.rows (form s)))%nat
  | _ => True
  end.

(** An event raised by a chooser or a button, not by typing in an
    [<Input>]: a chooser hands on one of its options, the component
    chooser one of [componentIds]. *)
Definition chosen (cat : Catalogue) (e : Event) : Prop :=
  match e with
  | Field_onChange (Form.row_name _ f) v =>
      chooser_field f = true /\ exists o, v = Js.JStr o /\ chooser_option f o
  | Field_onChange Form.gfa_name _ => False
  | Component_onValueChange _ v => v ∈ componentIds cat
  | _ => True
  end.

(** By how much an event changes the number of rows. *)
Definition rows_delta (cat : Catalogue) (e : Event) : Z :=
  match e with
  | Copy_onClick _ => 1
  | AddRow_onClick => match defaultInputRow cat with Some _ => 1 | None => 0 end
  | Delete_onClick _ => -1
  | _ => 0
  end.

Definition sum_Z (l : list Z) : Z := foldr Z.add 0 l.

Definition all_rows_ok (ver : Zod.version) (s : State) : Prop :=
  Forall (fun r => row_ok ver r = true) (Form.rows (form s)).

(** Every event of the sequence meets [P] in the state it is raised in. *)
Fixpoint trace_ok (next : State -> Event -> State) (P : State -> Event -> Prop)
    (s : State) (es : list Event) : Prop :=
  match es with
  | [] => True
  | e :: r => P s e /\ trace_ok next P (next s e) r
  end.

(** A registered name of the form as it stands: a row name needs its row. *)
Definition registered (n : Form.Name) (fv : Form.values) : Prop :=
  match n with
  | Form.row_name index _ => (index < length (Form.rows fv))%nat
  | _ => True
  end.

(** The object URLs handed out so far all lie below the counter. *)
Definition urls_fresh (b : Browser.t) : Prop :=
  forall u, (Browser.next_url b <= u)%nat -> Browser.object_urls b !! u = None.

(** Sample vehicles, with [mode] a list of names. *)
Definition sample_vehicles : list (Vehicle.t (list string)) :=
  [ {| Vehicle.vehicleId := "Bulk carrier"; Vehicle.mode := ["Maritime"] |};
    {| Vehicle.vehicleId := "Heavy goods vehicle"; Vehicle.mode := ["Road"] |};
    {| Vehicle.vehicleId := "Ferry truck"; Vehicle.mode := ["Maritime"; "Road"] |};
    {| Vehicle.vehicleId := "Bulk carrier"; Vehicle.mode := ["Maritime"] |} ].

Definition sample_includes (m : list string) (name : string) : bool :=
  bool_decide (name ∈ m).

(** The values of the options of a chooser, in order. *)
Definition option_values (opts : SelectInput.Options) : list string :=
  match opts with
  | SelectInput.Strings l => l
  | SelectInput.Labelled l => map fst l
  end.

(** A state of the page with the form [fv] and every chooser closed. *)
Definition closed_page (fv : Form.values) (b : Browser.t) : State :=
  {| form := fv; opened := fun _ => false; browser := b |}.

(** The file the download button saves for an output. *)
Definition export_file (Number_toString : Js.number -> string) (out : Output.t)
  : Browser.File :=
  {| Browser.name := "output.sbcc.json";
     Browser.content :=
       {| Browser.parts := [JSON.stringify2 Number_toString (Output_json out)];
          Browser.type := "application/json" |} |}.

(** Tables with two building types of the same reference value. *)
Definition sample_catalogue_twins : Catalogue :=
  {| globalComponents := globalComponents sample_catalogue;
     countryComponents := countryComponents sample_catalogue;
     ports := ports sample_catalogue;
     referenceValues :=
       [ {| ReferenceValue.buildingType := "Residential";
            ReferenceValue.referenceValue := Js.lit 1000 |};
         {| ReferenceValue.buildingType := "Office";
            ReferenceValue.referenceValue := Js.lit 1000 |} ] |}.

(** A sequence of events on the sample form. *)
Definition sample_trace : list Event :=
  [ Component_onValueChange 0 "Rebar";
    Copy_onClick 0;
    Field_onChange (Form.row_name 1 Field.units) (Js.JStr "kg");
    Select_onOpenChange (Form.row_name 1 Field.countryId) true;
    AddRow_onClick;
    Delete_onClick 0;
    Download_onClick ].

(** The files a sequence of events saves: one for each click on the
    download button, of the output of the form as it stands at the click. *)
Fixpoint exports (next : State -> Event -> State) (out : State -> Output.t)
    (Number_toString : Js.number -> string) (s : State) (es : list Event)
  : list Browser.File :=
  match es with
  | [] => []
  | e :: r =>
      match e with
      | Download_onClick => [export_file Number_toString (out s)]
      | _ => []
      end ++ exports next out Number_toString (next s e) r
  end.

(** How many clicks on the download button a sequence of events has. *)
Definition is_download (e : Event) : bool :=
  match e with Download_onClick => true | _ => false end.

Definition clicks (es : list Event) : nat :=
  length (filter (fun e => is_download e = true) es).

(** ** The text of the saved file, line by line *)

(** A number as [JSON.stringify] prints it: NaN and the infinities as
    [null]. *)
Definition Output_number (Number_toString : Js.number -> string) (x : Js.number)
  : string :=
  if Js.isFinite x then Number_toString x else "null".

(** The double quote and the line feed. *)
Definition dquote : string := String (ascii_of_nat 34) EmptyString.
Definition line_feed : string := String (ascii_of_nat 10) EmptyString.

(** A character that stands for itself between the quotes of a JSON
    string: no control character, quote or backslash. *)
Definition plain_char (c : ascii) : bool :=
  let n := nat_of_ascii c in
  (32 <=? n)%nat && negb (n =? 34)%nat && negb (n =? 92)%nat.

Definition plain_text (s : string) : bool :=
  forallb plain_char (list_ascii_of_string s).

(** The line of a property: the indentation, the name between quotes, a
    colon and a space, then the text of the value. *)
Definition property_line (indent name text : string) : string :=
  indent +:+ dquote +:+ name +:+ dquote +:+ ": " +:+ text.

(** The four lines of a row, four spaces in; every row but the last is
    followed by a comma. *)
Definition Output_row_lines (Number_toString : Js.number -> string) (last : bool)
    (r : Output.row) : list string :=
  [ "    {";
    property_line "      " "a1a3" (Output_number Number_toString (Output.a1a3 r)) +:+ ",";
    property_line "      " "a4" (Output_number Number_toString (Output.a4 r));
    if last then "    }" else "    }," ].

Fixpoint Output_rows_lines (Number_toString : Js.number -> string)
    (rows : list Output.row) : list string :=
  match rows with
  | [] => []
  | r :: rest =>
      match rest with
      | [] => Output_row_lines Number_toString true r
      | _ => Output_row_lines Number_toString false r
             ++ Output_rows_lines Number_toString rest
      end
  end.

(** The lines of [JSON.stringify(output, null, 2)]: one property a line,
    two spaces in, the rows between their brackets, an empty list of rows
    as [[]] on the line of [rows]. *)
Definition Output_lines (Number_toString : Js.number -> string) (o : Output.t)
  : list string :=
  [ "{";
    property_line "  " "version" (JSON.QuoteJSONString (Output.version o)) +:+ ",";
    property_line "  " "totalEmissions"
      (Output_number Number_toString (Output.totalEmissions o)) +:+ ",";
    property_line "  " "embodiedCarbonPerGfa"
      (Output_number Number_toString (Output.embodiedCarbonPerGfa o)) +:+ ",";
    property_line "  " "embodiedCarbonPerGfaComparedToReference"
      (Output_number Number_toString
         (Output.embodiedCarbonPerGfaComparedToReference o)) +:+ ",";
    property_line "  " "greenMarkScore"
      (Output_number Number_toString (Output.greenMarkScore o)) +:+ "," ]
  ++ match Output.rows o with
     | [] => [ property_line "  " "rows" "[]" ]
     | rows =>
         [ property_line "  " "rows" "[" ]
         ++ Output_rows_lines Number_toString rows
         ++ [ "  ]" ]
     end
  ++ [ "}" ].

(** Closes a decidable closed goal by evaluating its decision. *)
Ltac by_computation :=
  match goal with
  | |- ?P => apply (bool_decide_unpack P); vm_compute; exact I
  end.

(** * Properties *)

Example defaultInputRow_sample : defaultInputRow sample_catalogue = Some sample_row.
Proof. reflexivity. Qed.

Example defaultValues_sample : defaultValues sample_catalogue = Some sample_values.
Proof. reflexivity. Qed.

(** ** Rows *)

Lemma row_get_set_eq (f : Field.t) (v : Js.JsVal) (r : InputRow) :
  row_get f (row_set f v r) = v.
Proof. by destruct f. Qed.

Lemma row_get_set_ne (f g : Field.t) (v : Js.JsVal) (r : InputRow) :
  f ≠ g -> row_get g (row_set f v r) = row_get g r.
Proof. intros Hne. destruct f, g; try done; by destruct r. Qed.

Lemma row_get_set (f g : Field.t) (v : Js.JsVal) (r : InputRow) :
  row_get g (row_set f v r) = if bool_decide (f = g) then v else row_get g r.
Proof.
  case_bool_decide as H.
  - subst g. apply row_get_set_eq.
  - by apply row_get_set_ne.
Qed.

Lemma row_ext (r1 r2 : InputRow) :
  (forall f, row_get f r1 = row_get f r2) -> r1 = r2.
Proof.
  intros H. destruct r1, r2.
  pose proof (H Field.componentId). pose proof (H Field.greenMarkCategory).
  pose proof (H Field.countryId). pose proof (H Field.quantity).
  pose proof (H Field.units). pose proof (H Field.manualMarineDistance).
  pose proof (H Field.marineVehicleId).
  pose proof (H Field.internationalRoadVehicleId).
  pose proof (H Field.internationalRoadDistance).
  pose proof (H Field.localRoadVehicleId). pose proof (H Field.localRoadDistance).
  simpl in *. congruence.
Qed.

Lemma row_set_set_eq (f : Field.t) (v w : Js.JsVal) (r : InputRow) :
  row_set f v (row_set f w r) = row_set f v r.
Proof.
  apply row_ext. intros g. rewrite !row_get_set. by case_bool_decide.
Qed.

Lemma row_set_comm (f g : Field.t) (v w : Js.JsVal) (r : InputRow) :
  f ≠ g -> row_set f v (row_set g w r) = row_set g w (row_set f v r).
Proof.
  intros Hne. apply row_ext. intros h. rewrite !row_get_set.
  repeat case_bool_decide; congruence.
Qed.

(** ** Catalogue listings *)

Section Unique.

Implicit Types (arr acc l : list string) (x y : string).

Lemma Set_add_elem acc x y : y ∈ Set_add acc x <-> y ∈ acc \/ y = x.
Proof.
  unfold Set_add. case_bool_decide as Hx.
  - split; [by left | intros [H | ->]; done].
  - rewrite elem_of_app, list_elem_of_singleton. tauto.
Qed.

Lemma Set_add_NoDup acc x : NoDup acc -> NoDup (Set_add acc x).
Proof.
  intros Hnd. unfold Set_add. case_bool_decide as Hx; [done |].
  apply NoDup_app. split_and!; [done | | apply NoDup_singleton].
  intros y Hy Hy'. apply list_elem_of_singleton in Hy'. by subst.
Qed.

Lemma foldl_Set_add_elem l acc y :
  y ∈ foldl Set_add acc l <-> y ∈ acc \/ y ∈ l.
Proof.
  revert acc. induction l as [| x r IH]; intros acc; simpl.
  - split; [by left | intros [H | H]; [done | by apply elem_of_nil in H]].
  - rewrite IH, Set_add_elem, elem_of_cons. tauto.
Qed.

Lemma foldl_Set_add_NoDup l acc : NoDup acc -> NoDup (foldl Set_add acc l).
Proof.
  revert acc. induction l as [| x r IH]; intros acc Hnd; simpl; [done |].
  by apply IH, Set_add_NoDup.
Qed.

(** The set grows at its end only. *)
Lemma foldl_Set_add_prefix l acc : exists rest, foldl Set_add acc l = acc ++ rest.
Proof.
  revert acc. induction l as [| x r IH]; intros acc; simpl.
  - exists []. by rewrite app_nil_r.
  - destruct (IH (Set_add acc x)) as [rest ->]. unfold Set_add.
    case_bool_decide.
    + by exists rest.
    + exists (x :: rest). by rewrite <- app_assoc.
Qed.

Lemma foldl_Set_add_spec l acc :
  foldl Set_add acc l = acc ++ filter (fun y => y ∉ acc) (first_occurrences l).
Proof.
  revert acc. induction l as [| x r IH]; intros acc; simpl.
  - by rewrite app_nil_r.
  - rewrite IH. unfold Set_add. rewrite filter_cons.
    case_bool_decide as Hx.
    + rewrite decide_False by (intros H; by apply H).
      f_equal. symmetry. apply list_filter_filter_l. intros y Hy ->. by apply Hy.
    + rewrite decide_True by done.
      rewrite <- app_assoc. simpl. do 2 f_equal.
      rewrite list_filter_filter. apply list_filter_iff.
      intros y. rewrite elem_of_app, list_elem_of_singleton.
      split.
      * intros Hy. split; intros Hy'; apply Hy; [by left | by right].
      * intros [Hy1 Hy2] [Hy | Hy]; [by apply Hy1 | by apply Hy2].
Qed.

Lemma filter_not_in_nil l : filter (fun y => y ∉ @nil string) l = l.
Proof.
  induction l as [| x r IH]; [done |].
  rewrite filter_cons_True by apply not_elem_of_nil. by rewrite IH.
Qed.

Lemma unique_spec arr : unique arr = first_occurrences arr.
Proof.
  unfold unique, Set_new. rewrite foldl_Set_add_spec. simpl.
  apply filter_not_in_nil.
Qed.

Lemma unique_elem arr x : x ∈ unique arr <-> x ∈ arr.
Proof.
  unfold unique, Set_new. rewrite foldl_Set_add_elem.
  split; [intros [H | H]; [by apply elem_of_nil in H | done] | by right].
Qed.

Lemma unique_NoDup arr : NoDup (unique arr).
Proof. apply foldl_Set_add_NoDup, NoDup_nil_2. Qed.

(** A value sits in the listing where it was first met: right after the
    listing of what came before it. *)
Lemma unique_first_occurrence arr l1 x l2 :
  arr = l1 ++ x :: l2 -> x ∉ l1 ->
  exists rest, unique arr = unique l1 ++ x :: rest.
Proof.
  intros -> Hx. unfold unique, Set_new. rewrite foldl_app. simpl.
  assert (Hfresh : x ∉ foldl Set_add [] l1).
  { rewrite foldl_Set_add_elem. intros [H | H]; [by apply elem_of_nil in H | done]. }
  unfold Set_add at 2. rewrite bool_decide_eq_false_2 by done.
  destruct (foldl_Set_add_prefix l2 (foldl Set_add [] l1 ++ [x])) as [rest ->].
  exists rest. by rewrite <- app_assoc.
Qed.

End Unique.

(** C6. The component listing is the deduplicated union of the global and
    the country-specific component ids, and the country listing that of
    the country ids of the country components and of the ports: no
    identifier is repeated, the members are exactly those of the two
    tables, and they stand in the order of their first occurrence. *)
Theorem listings_deduplicated_in_first_occurrence_order (cat : Catalogue) :
  let component_ids :=
    map Component.componentId (globalComponents cat)
    ++ map CountryComponent.componentId (countryComponents cat) in
  let country_ids :=
    map CountryComponent.countryId (countryComponents cat)
    ++ map Port.countryId (ports cat) in
  (NoDup (componentIds cat)
   /\ (forall x, x ∈ componentIds cat <->
         x ∈ map Component.componentId (globalComponents cat)
         \/ x ∈ map CountryComponent.componentId (countryComponents cat))
   /\ componentIds cat = first_occurrences component_ids
   /\ (forall l1 x l2, component_ids = l1 ++ x :: l2 -> x ∉ l1 ->
         exists rest, componentIds cat = unique l1 ++ x :: rest))
  /\
  (NoDup (countryIds cat)
   /\ (forall x, x ∈ countryIds cat <->
         x ∈ map CountryComponent.countryId (countryComponents cat)
         \/ x ∈ map Port.countryId (ports cat))
   /\ countryIds cat = first_occurrences country_ids
   /\ (forall l1 x l2, country_ids = l1 ++ x :: l2 -> x ∉ l1 ->
         exists rest, countryIds cat = unique l1 ++ x :: rest)).
Proof.
  intros component_ids country_ids. unfold componentIds, countryIds.
  split; (split_and!;
    [ apply unique_NoDup
    | intros x; rewrite unique_elem; apply elem_of_app
    | apply unique_spec
    | intros l1 x l2 Heq Hx; by apply (unique_first_occurrence _ l1 x l2) ]).
Qed.

Example componentIds_sample :
  componentIds sample_catalogue = ["Concrete C30"; "Rebar"; "Timber"; "Float glass"].
Proof. reflexivity. Qed.

Example countryIds_sample :
  countryIds sample_catalogue = ["Malaysia"; "China"; "Singapore"].
Proof. reflexivity. Qed.

(** ** The category lookup *)

Lemma greenmark_reduce_lookup (l : list (string * option Category))
    (acc : gmap string (option Category)) (k : string) :
  foldl greenmark_step acc l !! k =
  match last_entry k l with Some v => Some v | None => acc !! k end.
Proof.
  revert acc. induction l as [| e r IH]; intros acc; simpl; [done |].
  rewrite IH. destruct (last_entry k r) as [v |]; [done |].
  unfold greenmark_step. case_bool_decide as He.
  - subst k. by rewrite lookup_insert_eq.
  - by rewrite lookup_insert_ne.
Qed.

Lemma last_entry_app (k : string) (l1 l2 : list (string * option Category)) :
  last_entry k (l1 ++ l2) =
  match last_entry k l2 with Some v => Some v | None => last_entry k l1 end.
Proof.
  induction l1 as [| e r IH]; simpl.
  - by destruct (last_entry k l2).
  - rewrite IH. by destruct (last_entry k l2).
Qed.

Lemma last_entry_Some (k : string) (l : list (string * option Category)) :
  k ∈ map fst l -> exists e, e ∈ l /\ e.1 = k /\ last_entry k l = Some e.2.
Proof.
  induction l as [| e r IH]; simpl; intros Hin.
  - by apply elem_of_nil in Hin.
  - destruct (decide (k ∈ map fst r)) as [Hr | Hr].
    + destruct (IH Hr) as (e' & He' & Hk & ->).
      exists e'. split_and!; [by right | done | done].
    + apply elem_of_cons in Hin as [-> | Hin]; [| done].
      destruct (last_entry e.1 r) as [v |] eqn:Hl.
      * exfalso. apply Hr. clear IH Hr.
        induction r as [| e' r' IH']; simpl in Hl; [done |].
        destruct (last_entry e.1 r') as [v' |].
        -- right. by apply IH'.
        -- case_bool_decide as He'; [| done]. rewrite <- He'. by left.
      * exists e. split_and!; [by left | done |].
        by rewrite bool_decide_eq_true_2.
Qed.

Lemma last_entry_None (k : string) (l : list (string * option Category)) :
  last_entry k l = None <-> k ∉ map fst l.
Proof.
  split.
  - intros Hnone Hin. destruct (last_entry_Some k l Hin) as (e & _ & _ & He).
    by rewrite Hnone in He.
  - induction l as [| e r IH]; [done |]. simpl. intros Hnot.
    rewrite IH by (intros H; apply Hnot; by right).
    rewrite bool_decide_eq_false_2; [done |].
    intros He. apply Hnot. rewrite He. by left.
Qed.

Lemma component_entries_keys (cat : Catalogue) :
  map fst (component_entries cat)
  = map Component.componentId (globalComponents cat)
    ++ map CountryComponent.componentId (countryComponents cat).
Proof.
  unfold component_entries. rewrite map_app, !map_map. done.
Qed.

Lemma greenmark_map_lookup (cat : Catalogue) (id : string) :
  componentIdToGreenmarkMap cat !! id = last_entry id (component_entries cat).
Proof.
  unfold componentIdToGreenmarkMap, greenmark_reduce.
  rewrite greenmark_reduce_lookup, lookup_empty.
  by destruct (last_entry _ _).
Qed.

(** An identifier of the component listing has an entry of its own, made
    from one of the table entries that carry it. *)
Lemma componentIds_entry (cat : Catalogue) (id : string) :
  id ∈ componentIds cat ->
  exists e, e ∈ component_entries cat /\ e.1 = id
            /\ componentIdToGreenmarkMap cat !! id = Some e.2.
Proof.
  unfold componentIds. rewrite unique_elem, <- component_entries_keys. intros Hin.
  destruct (last_entry_Some id _ Hin) as (e & He & Hid & Hl).
  exists e. split_and!; try done. by rewrite greenmark_map_lookup.
Qed.

Lemma componentIds_no_entry (cat : Catalogue) (id : string) :
  id ∉ componentIds cat -> componentIdToGreenmarkMap cat !! id = None.
Proof.
  unfold componentIds. rewrite unique_elem, <- component_entries_keys. intros Hnot.
  rewrite greenmark_map_lookup. by apply last_entry_None.
Qed.

Lemma greenmark_lookup_entry (m : gmap string (option Category)) (v : string)
    (c : option Category) :
  m !! v = Some c ->
  greenmark_lookup m v = Category_value c /\ greenmark_get m v = c.
Proof. intros H. unfold greenmark_lookup, greenmark_get. by rewrite H. Qed.

Lemma greenmark_lookup_no_entry (m : gmap string (option Category)) (v : string) :
  m !! v = None ->
  greenmark_lookup m v
  = if bool_decide (v ∈ Object_prototype_names) then Js.JObject v else Js.JUndefined.
Proof. intros H. unfold greenmark_lookup. by rewrite H. Qed.

Lemma Category_value_undefined (c : option Category) :
  Category_value c = Js.JUndefined <-> c = None.
Proof. split; [by destruct c | by intros ->]. Qed.

(** C4. An identifier that occurs in both component tables resolves to the
    category of a country-specific entry (the last one that carries the
    identifier): the lookup is the one the country table alone gives, so
    the global entry never shows through, and when the country entries of
    the identifier agree on a category, that category is the answer. *)
Theorem country_specific_entry_wins (cat : Catalogue) (id : string) :
  id ∈ map Component.componentId (globalComponents cat) ->
  id ∈ map CountryComponent.componentId (countryComponents cat) ->
  (exists c, c ∈ countryComponents cat
             /\ CountryComponent.componentId c = id
             /\ componentIdToGreenmarkMap cat !! id
                = Some (CountryComponent.greenMarkCategory c)
             /\ greenmark_lookup (componentIdToGreenmarkMap cat) id
                = Category_value (CountryComponent.greenMarkCategory c))
  /\ componentIdToGreenmarkMap cat !! id
     = componentIdToGreenmarkMap
         {| globalComponents := []; countryComponents := countryComponents cat;
            ports := ports cat; referenceValues := referenceValues cat |} !! id
  /\ (forall k, (forall c, c ∈ countryComponents cat ->
                           CountryComponent.componentId c = id ->
                           CountryComponent.greenMarkCategory c = k) ->
                greenmark_get (componentIdToGreenmarkMap cat) id = k
                /\ greenmark_lookup (componentIdToGreenmarkMap cat) id
                   = Category_value k).
Proof.
  intros _ Hc.
  set (centries := map (fun c => (CountryComponent.componentId c,
                                   CountryComponent.greenMarkCategory c))
                       (countryComponents cat)).
  assert (Hin : id ∈ map fst centries).
  { unfold centries. rewrite <- list_fmap_compose.
    by rewrite list_elem_of_fmap in Hc |- *. }
  destruct (last_entry_Some id centries Hin) as (e & He & Hk & Hlast).
  assert (Hlookup : componentIdToGreenmarkMap cat !! id = Some e.2).
  { unfold componentIdToGreenmarkMap, greenmark_reduce, component_entries.
    rewrite greenmark_reduce_lookup, last_entry_app. fold centries.
    by rewrite Hlast. }
  destruct (greenmark_lookup_entry _ _ _ Hlookup) as [Hread Hget].
  apply list_elem_of_fmap in He as (c & -> & Hcin). simpl in *.
  split_and!.
  - exists c. by split_and!.
  - rewrite Hlookup.
    unfold componentIdToGreenmarkMap, greenmark_reduce, component_entries. simpl.
    rewrite greenmark_reduce_lookup. fold centries. by rewrite Hlast.
  - intros k Hall. rewrite Hread, Hget. by rewrite (Hall c Hcin Hk).
Qed.

Lemma country_specific_entry_wins_sample :
  (exists c, c ∈ countryComponents sample_catalogue
             /\ CountryComponent.componentId c = "Concrete C30"
             /\ componentIdToGreenmarkMap sample_catalogue !! "Concrete C30"
                = Some (CountryComponent.greenMarkCategory c)
             /\ greenmark_lookup (componentIdToGreenmarkMap sample_catalogue)
                                 "Concrete C30"
                = Category_value (CountryComponent.greenMarkCategory c))
  /\ componentIdToGreenmarkMap sample_catalogue !! "Concrete C30"
     = componentIdToGreenmarkMap
         {| globalComponents := [];
            countryComponents := countryComponents sample_catalogue;
            ports := ports sample_catalogue;
            referenceValues := referenceValues sample_catalogue |} !! "Concrete C30"
  /\ (forall k, (forall c, c ∈ countryComponents sample_catalogue ->
                           CountryComponent.componentId c = "Concrete C30" ->
                           CountryComponent.greenMarkCategory c = k) ->
                greenmark_get (componentIdToGreenmarkMap sample_catalogue)
                              "Concrete C30" = k
                /\ greenmark_lookup (componentIdToGreenmarkMap sample_catalogue)
                                    "Concrete C30"
                   = Category_value k).
Proof.
  apply (country_specific_entry_wins sample_catalogue "Concrete C30");
    by_computation.
Defined.

Example greenmark_lookup_sample :
  componentIdToGreenmarkMap sample_catalogue !! "Concrete C30" = Some None
  /\ componentIdToGreenmarkMap sample_catalogue !! "Rebar" = Some (Some Steel)
  /\ componentIdToGreenmarkMap sample_catalogue !! "Timber" = Some None
  /\ componentIdToGreenmarkMap sample_catalogue !! "Brick" = None
  /\ greenmark_lookup (componentIdToGreenmarkMap sample_catalogue) "Rebar"
     = Js.JStr "Steel"
  /\ greenmark_lookup (componentIdToGreenmarkMap sample_catalogue) "Timber"
     = Js.JUndefined
  /\ greenmark_lookup (componentIdToGreenmarkMap sample_catalogue) "Brick"
     = Js.JUndefined
  /\ greenmark_lookup (componentIdToGreenmarkMap sample_catalogue) "toString"
     = Js.JObject "toString".
Proof. repeat split; reflexivity. Qed.

(** ** The form store *)

Lemma set_row_in_range (index : nat) (f : Field.t) (v : Js.JsVal)
    (l : list InputRow) (r : InputRow) :
  l !! index = Some r ->
  Form.set_row index f v l = <[index := row_set f v r]> l.
Proof. intros H. unfold Form.set_row. by rewrite H. Qed.

Lemma set_row_lookup (index : nat) (f : Field.t) (v : Js.JsVal)
    (l : list InputRow) (r : InputRow) :
  l !! index = Some r ->
  Form.set_row index f v l !! index = Some (row_set f v r).
Proof.
  intros H. rewrite (set_row_in_range _ _ _ _ r H).
  apply list_lookup_insert_eq. by eapply lookup_lt_Some.
Qed.

(** The two writes of the component handler on an existing row. *)
Lemma componentId_onValueChange_rows (cat : Catalogue) (index : nat) (v : string)
    (fv : Form.values) (r : InputRow) :
  Form.rows fv !! index = Some r ->
  Form.rows (componentId_onValueChange cat index v fv)
  = <[index := row_set Field.greenMarkCategory
                 (greenmark_lookup (componentIdToGreenmarkMap cat) v)
                 (row_set Field.componentId (Js.JStr v) r)]> (Form.rows fv).
Proof.
  intros H. unfold componentId_onValueChange, Form.setValue, Form.onChange. simpl.
  rewrite (set_row_in_range _ _ _ _ _ (set_row_lookup _ _ _ _ _ H)).
  rewrite (set_row_in_range _ _ _ _ r H).
  apply list_insert_insert_eq.
Qed.

Lemma values_ext (a b : Form.values) :
  Form.rows a = Form.rows b -> Form.gfa a = Form.gfa b ->
  Form.referenceValue a = Form.referenceValue b -> a = b.
Proof. destruct a, b; simpl; by intros -> -> ->. Qed.

(** The handler, whatever the category read: the row gets the component
    and the category, nothing else changes, a category written before is
    of no account, and a second run changes nothing. *)
Lemma componentId_onValueChange_frame (cat : Catalogue) (index : nat)
    (v : string) (fv : Form.values) (r : InputRow) :
  Form.rows fv !! index = Some r ->
  let category := greenmark_lookup (componentIdToGreenmarkMap cat) v in
  let fv' := componentId_onValueChange cat index v fv in
  Form.rows fv'
  = <[index := row_set Field.greenMarkCategory category
                 (row_set Field.componentId (Js.JStr v) r)]> (Form.rows fv)
  /\ (exists r', Form.rows fv' !! index = Some r'
              /\ componentId r' = Js.JStr v
              /\ greenMarkCategory r' = category
              /\ (forall f, f ≠ Field.componentId -> f ≠ Field.greenMarkCategory ->
                            row_get f r' = row_get f r))
  /\ (forall j, j ≠ index -> Form.rows fv' !! j = Form.rows fv !! j)
  /\ length (Form.rows fv') = length (Form.rows fv)
  /\ Form.gfa fv' = Form.gfa fv
  /\ Form.referenceValue fv' = Form.referenceValue fv
  /\ (forall w, componentId_onValueChange cat index v
                  (Form.onChange (Form.row_name index Field.greenMarkCategory) w fv)
                = fv')
  /\ componentId_onValueChange cat index v fv' = fv'.
Proof.
  intros H category fv'.
  assert (Hlt : (index < length (Form.rows fv))%nat) by by eapply lookup_lt_Some.
  assert (Hrows := componentId_onValueChange_rows cat index v fv r H).
  fold category in Hrows. fold fv' in Hrows.
  split_and!.
  - done.
  - eexists. split; [| split; [| split]].
    + rewrite Hrows. by apply list_lookup_insert_eq.
    + done.
    + done.
    + intros f Hc Hg. by rewrite !row_get_set_ne.
  - intros j Hj. rewrite Hrows. by apply list_lookup_insert_ne.
  - by rewrite Hrows, length_insert.
  - done.
  - done.
  - intros w. apply values_ext; [| done | done].
    rewrite Hrows.
    rewrite (componentId_onValueChange_rows cat index v _ (row_set Field.greenMarkCategory w r)).
    + simpl. rewrite (set_row_in_range _ _ _ _ r H), list_insert_insert_eq.
      by f_equal.
    + simpl. by apply set_row_lookup.
  - apply values_ext; [| done | done].
    rewrite (componentId_onValueChange_rows cat index v fv'
               (row_set Field.greenMarkCategory category
                  (row_set Field.componentId (Js.JStr v) r))).
    + rewrite Hrows, list_insert_insert_eq. by f_equal.
    + rewrite Hrows. by apply list_lookup_insert_eq.
Qed.

(** C3. Choosing a component of the listing for an existing row writes the
    component and sets the row's category to the one the catalogue map
    gives for it, the category of one of the table entries of that
    component, whatever the category was before, a manual override
    included; no other field, row or form value changes, and choosing the
    same component again changes nothing. *)
Theorem componentId_change_resets_category (cat : Catalogue) (index : nat)
    (v : string) (fv : Form.values) (r : InputRow) :
  Form.rows fv !! index = Some r ->
  v ∈ componentIds cat ->
  let category := Category_value (greenmark_get (componentIdToGreenmarkMap cat) v) in
  let fv' := componentId_onValueChange cat index v fv in
  (exists e, e ∈ component_entries cat /\ e.1 = v
             /\ componentIdToGreenmarkMap cat !! v = Some e.2
             /\ category = Category_value e.2)
  /\ Form.rows fv'
     = <[index := row_set Field.greenMarkCategory category
                    (row_set Field.componentId (Js.JStr v) r)]> (Form.rows fv)
  /\ (exists r', Form.rows fv' !! index = Some r'
              /\ componentId r' = Js.JStr v
              /\ greenMarkCategory r' = category
              /\ (forall f, f ≠ Field.componentId -> f ≠ Field.greenMarkCategory ->
                            row_get f r' = row_get f r))
  /\ (forall j, j ≠ index -> Form.rows fv' !! j = Form.rows fv !! j)
  /\ length (Form.rows fv') = length (Form.rows fv)
  /\ Form.gfa fv' = Form.gfa fv
  /\ Form.referenceValue fv' = Form.referenceValue fv
  /\ (forall w, componentId_onValueChange cat index v
                  (Form.onChange (Form.row_name index Field.greenMarkCategory) w fv)
                = fv')
  /\ componentId_onValueChange cat index v fv' = fv'.
Proof.
  intros H Hv category fv'.
  destruct (componentIds_entry cat v Hv) as (e & He & Hid & Hmap).
  destruct (greenmark_lookup_entry _ _ _ Hmap) as [Hread Hget].
  assert (Hcat : greenmark_lookup (componentIdToGreenmarkMap cat) v = category).
  { unfold category. by rewrite Hread, Hget. }
  pose proof (componentId_onValueChange_frame cat index v fv r H) as Hframe.
  cbv zeta in Hframe. rewrite Hcat in Hframe. fold fv' in Hframe.
  split; [| exact Hframe].
  exists e. split_and!; try done. unfold category. by rewrite Hget.
Qed.

Lemma componentId_change_resets_category_sample :
  let category := Js.JStr "Steel" in
  let fv' := componentId_onValueChange sample_catalogue 0 "Rebar" sample_values in
  (exists e, e ∈ component_entries sample_catalogue /\ e.1 = "Rebar"
             /\ componentIdToGreenmarkMap sample_catalogue !! "Rebar" = Some e.2
             /\ category = Category_value e.2)
  /\ Form.rows fv'
     = <[0%nat := row_set Field.greenMarkCategory category
                    (row_set Field.componentId (Js.JStr "Rebar") sample_row)]>
         (Form.rows sample_values)
  /\ (exists r', Form.rows fv' !! 0%nat = Some r'
              /\ componentId r' = Js.JStr "Rebar"
              /\ greenMarkCategory r' = category
              /\ (forall f, f ≠ Field.componentId -> f ≠ Field.greenMarkCategory ->
                            row_get f r' = row_get f sample_row))
  /\ (forall j, j ≠ 0%nat -> Form.rows fv' !! j = Form.rows sample_values !! j)
  /\ length (Form.rows fv') = length (Form.rows sample_values)
  /\ Form.gfa fv' = Form.gfa sample_values
  /\ Form.referenceValue fv' = Form.referenceValue sample_values
  /\ (forall w, componentId_onValueChange sample_catalogue 0 "Rebar"
                  (Form.onChange (Form.row_name 0 Field.greenMarkCategory) w sample_values)
                = fv')
  /\ componentId_onValueChange sample_catalogue 0 "Rebar" fv' = fv'.
Proof.
  apply (componentId_change_resets_category sample_catalogue 0 "Rebar"
           sample_values sample_row).
  - reflexivity.
  - by_computation.
Defined.

(** C9 (amended). When the new component has an entry without a category
    in the catalogue map, or has no entry and is not a name every object
    inherits from [Object.prototype], the handler writes the component
    and leaves the row's category absent: whatever was chosen or
    overridden before is erased, and nothing else changes. *)
Theorem componentId_change_without_category_erases (cat : Catalogue) (index : nat)
    (v : string) (fv : Form.values) (r : InputRow) :
  Form.rows fv !! index = Some r ->
  componentIdToGreenmarkMap cat !! v = Some None
  \/ (componentIdToGreenmarkMap cat !! v = None /\ v ∉ Object_prototype_names) ->
  let fv' := componentId_onValueChange cat index v fv in
  Form.rows fv'
  = <[index := row_set Field.greenMarkCategory Js.JUndefined
                 (row_set Field.componentId (Js.JStr v) r)]> (Form.rows fv)
  /\ (exists r', Form.rows fv' !! index = Some r'
              /\ componentId r' = Js.JStr v
              /\ greenMarkCategory r' = Js.JUndefined
              /\ (forall f, f ≠ Field.componentId -> f ≠ Field.greenMarkCategory ->
                            row_get f r' = row_get f r))
  /\ (forall j, j ≠ index -> Form.rows fv' !! j = Form.rows fv !! j)
  /\ length (Form.rows fv') = length (Form.rows fv)
  /\ Form.gfa fv' = Form.gfa fv
  /\ Form.referenceValue fv' = Form.referenceValue fv
  /\ (forall w, componentId_onValueChange cat index v
                  (Form.onChange (Form.row_name index Field.greenMarkCategory) w fv)
                = fv')
  /\ componentId_onValueChange cat index v fv' = fv'.
Proof.
  intros H Hmap fv'.
  assert (Hcat : greenmark_lookup (componentIdToGreenmarkMap cat) v = Js.JUndefined).
  { destruct Hmap as [Hm | [Hm Hn]].
    - by destruct (greenmark_lookup_entry _ _ _ Hm) as [-> _].
    - rewrite (greenmark_lookup_no_entry _ _ Hm). by rewrite bool_decide_eq_false_2. }
  pose proof (componentId_onValueChange_frame cat index v fv r H) as Hframe.
  cbv zeta in Hframe. rewrite Hcat in Hframe. exact Hframe.
Qed.

Lemma componentId_change_without_category_erases_sample :
  let fv := Form.onChange (Form.row_name 0 Field.greenMarkCategory)
              (Js.JStr "Steel") sample_values in
  let r := row_set Field.greenMarkCategory (Js.JStr "Steel") sample_row in
  let fv' := componentId_onValueChange sample_catalogue 0 "Timber" fv in
  Form.rows fv'
  = <[0%nat := row_set Field.greenMarkCategory Js.JUndefined
                 (row_set Field.componentId (Js.JStr "Timber") r)]> (Form.rows fv)
  /\ (exists r', Form.rows fv' !! 0%nat = Some r'
              /\ componentId r' = Js.JStr "Timber"
              /\ greenMarkCategory r' = Js.JUndefined
              /\ (forall f, f ≠ Field.componentId -> f ≠ Field.greenMarkCategory ->
                            row_get f r' = row_get f r))
  /\ (forall j, j ≠ 0%nat -> Form.rows fv' !! j = Form.rows fv !! j)
  /\ length (Form.rows fv') = length (Form.rows fv)
  /\ Form.gfa fv' = Form.gfa fv
  /\ Form.referenceValue fv' = Form.referenceValue fv
  /\ (forall w, componentId_onValueChange sample_catalogue 0 "Timber"
                  (Form.onChange (Form.row_name 0 Field.greenMarkCategory) w fv)
                = fv')
  /\ componentId_onValueChange sample_catalogue 0 "Timber" fv' = fv'.
Proof.
  apply (componentId_change_without_category_erases sample_catalogue 0 "Timber"
           (Form.onChange (Form.row_name 0 Field.greenMarkCategory)
              (Js.JStr "Steel") sample_values)
           (row_set Field.greenMarkCategory (Js.JStr "Steel") sample_row)).
  - reflexivity.
  - left. reflexivity.
Defined.

(** The claim of C9 fails for an identifier without an entry that names a
    member of [Object.prototype]: the map of the sample catalogue has no
    entry for [constructor], yet the handler leaves the row with the
    inherited member for its category, not with an absent one, and the
    row no longer passes [rowschema]. *)
Lemma inherited_name_is_not_erased :
  let fv' := componentId_onValueChange sample_catalogue 0 "constructor" sample_values in
  componentIdToGreenmarkMap sample_catalogue !! "constructor" = None
  /\ ("constructor" ∉ componentIds sample_catalogue)
  /\ Form.get (Form.row_name 0 Field.greenMarkCategory) fv' = Js.JObject "constructor"
  /\ Form.get (Form.row_name 0 Field.greenMarkCategory) fv' ≠ Js.JUndefined
  /\ (exists r', Form.rows fv' = [r']
              /\ greenMarkCategory r' ≠ Js.JUndefined
              /\ Zod.success (rowschema_safeParse Zod.v3 r') = false
              /\ Zod.success (rowschema_safeParse Zod.v4 r') = false).
Proof.
  split_and!.
  - reflexivity.
  - by_computation.
  - reflexivity.
  - discriminate.
  - eexists. split_and!; [reflexivity | discriminate | reflexivity | reflexivity].
Qed.

(** C5. The copy button of an existing row appends a row equal to it: the
    new last row is that row, there is exactly one row more, and the rows
    that were there keep their places and values. The new row is a copy
    by value: a later edit of the original leaves it as it is. *)
Theorem duplicate_appends_equal_row (index : nat) (fv : Form.values) (r : InputRow) :
  Form.rows fv !! index = Some r ->
  let fv' := copy_onClick index fv in
  Form.rows fv' = Form.rows fv ++ [r]
  /\ last (Form.rows fv') = Some r
  /\ length (Form.rows fv') = S (length (Form.rows fv))
  /\ (forall j, (j < length (Form.rows fv))%nat ->
                Form.rows fv' !! j = Form.rows fv !! j)
  /\ Form.gfa fv' = Form.gfa fv
  /\ Form.referenceValue fv' = Form.referenceValue fv
  /\ (forall f v,
        last (Form.rows (Form.onChange (Form.row_name index f) v fv')) = Some r).
Proof.
  intros H fv'.
  assert (Hlt : (index < length (Form.rows fv))%nat) by by eapply lookup_lt_Some.
  assert (Hrows : Form.rows fv' = Form.rows fv ++ [r]).
  { unfold fv', copy_onClick, spread_row, Form.watch. simpl. by rewrite H. }
  split_and!; try done.
  - rewrite Hrows. apply last_snoc.
  - rewrite Hrows, length_app. simpl. lia.
  - intros j Hj. rewrite Hrows. by apply lookup_app_l.
  - intros f v. unfold Form.onChange, Form.set. cbn [Form.rows].
    fold fv'. rewrite Hrows.
    rewrite (set_row_in_range _ _ _ _ r) by by rewrite lookup_app_l.
    rewrite insert_app_l by done. apply last_snoc.
Qed.

Lemma duplicate_appends_equal_row_sample :
  let fv' := copy_onClick 0 sample_values in
  Form.rows fv' = Form.rows sample_values ++ [sample_row]
  /\ last (Form.rows fv') = Some sample_row
  /\ length (Form.rows fv') = S (length (Form.rows sample_values))
  /\ (forall j, (j < length (Form.rows sample_values))%nat ->
                Form.rows fv' !! j = Form.rows sample_values !! j)
  /\ Form.gfa fv' = Form.gfa sample_values
  /\ Form.referenceValue fv' = Form.referenceValue sample_values
  /\ (forall f v,
        last (Form.rows (Form.onChange (Form.row_name 0 f) v fv')) = Some sample_row).
Proof.
  apply (duplicate_appends_equal_row 0 sample_values sample_row).
  reflexivity.
Defined.

(** ** The chooser *)

Section Chooser.

Variable cat : Catalogue.
Variable calculateGreenMark : Form.values -> Output.t.
Variable Number_toString : Js.number -> string.


Lemma run_open_changes_frame (ts : list (Form.Name * bool)) (s : State) :
  let s' := run cat calculateGreenMark Number_toString s (open_changes ts) in
  form s' = form s /\ browser s' = browser s.
Proof.
  revert s. induction ts as [| t ts IH]; intros s; [done |].
  destruct (IH (step cat calculateGreenMark Number_toString s
                  (Select_onOpenChange t.1 t.2))) as [Hf Hb].
  unfold run, open_changes in *. cbn [map foldl]. cbn zeta in *.
  by rewrite Hf, Hb.
Qed.

(** C8. Whatever sequence of open and close transitions the choosers go
    through, the form values stay as they were, so every chooser is
    handed the same [value] (the field's value, or the one it had when
    mounted while the form holds none); what changes is the content
    rendered from that [value]: the whole option list while open, at most
    the one selected item while closed. Closing a chooser and opening it
    again gives the rendering of opening it directly. *)
Theorem open_close_keeps_bound_value (ts : list (Form.Name * bool)) (s : State) :
  let s' := run cat calculateGreenMark Number_toString s (open_changes ts) in
  form s' = form s
  /\ calculatorParameters s' = calculatorParameters s
  /\ (forall n, Form.get n (form s') = Form.get n (form s))
  /\ (forall n (p : SelectInput.Props),
        SelectInput.select_value (SelectInput.render (opened s' n) p)
        = default EmptyString (SelectInput.value p)
        /\ SelectInput.content (SelectInput.render (opened s' n) p)
           = (if opened s' n then SelectInput.open_items (SelectInput.options p)
              else SelectInput.closed_items p)
        /\ (opened s' n = false ->
            (length (SelectInput.content (SelectInput.render (opened s' n) p)) <= 1)%nat))
  /\ (forall mounted n opts ph,
        SelectInput.select_value (chooser Number_toString mounted s' n opts ph)
        = SelectInput.select_value (chooser Number_toString mounted s n opts ph)
        /\ SelectInput.content (chooser Number_toString mounted s' n opts ph)
           = if opened s' n then SelectInput.open_items opts
             else SelectInput.closed_items
                    {| SelectInput.value :=
                         chooser_value Number_toString n
                           (field_value mounted (Form.get n (form s)));
                       SelectInput.options := opts;
                       SelectInput.placeholder := ph |})
  /\ (forall mounted n opts ph,
        let closed :=
          step cat calculateGreenMark Number_toString s'
               (Select_onOpenChange n false) in
        let reopened :=
          step cat calculateGreenMark Number_toString closed
               (Select_onOpenChange n true) in
        let opened_directly :=
          step cat calculateGreenMark Number_toString s'
               (Select_onOpenChange n true) in
        form reopened = form s
        /\ (length (SelectInput.content
                      (chooser Number_toString mounted closed n opts ph)) <= 1)%nat
        /\ chooser Number_toString mounted reopened n opts ph
           = chooser Number_toString mounted opened_directly n opts ph
        /\ SelectInput.content (chooser Number_toString mounted reopened n opts ph)
           = SelectInput.open_items opts).
Proof.
  intros s'. destruct (run_open_changes_frame ts s) as [Hf _]. fold s' in Hf.
  split_and!.
  - done.
  - unfold calculatorParameters. by rewrite Hf.
  - intros n. by rewrite Hf.
  - intros n p. unfold SelectInput.render. simpl. split_and!.
    + by destruct (SelectInput.value p).
    + done.
    + intros ->. unfold SelectInput.closed_items.
      destruct (SelectInput.value p); simpl; [case_bool_decide; simpl; lia | lia].
  - intros mounted n opts ph. unfold chooser, SelectInput.render. simpl. by rewrite Hf.
  - intros mounted n opts ph closed reopened opened_directly. split_and!.
    + done.
    + unfold chooser, closed, SelectInput.render. simpl.
      rewrite bool_decide_eq_true_2 by done.
      unfold SelectInput.closed_items. simpl.
      destruct (chooser_value _ _ _); simpl; [case_bool_decide; simpl; lia | lia].
    + unfold chooser, reopened, closed, opened_directly. simpl.
      by rewrite !bool_decide_eq_true_2.
    + unfold chooser, reopened, SelectInput.render. simpl.
      by rewrite bool_decide_eq_true_2.
Qed.

Example open_close_sample :
  let s' := run sample_catalogue (fun _ => sample_output) (fun _ => EmptyString)
              sample_state
              (open_changes [ (Form.row_name 0 Field.countryId, true);
                              (Form.row_name 0 Field.units, true);
                              (Form.row_name 0 Field.countryId, false) ]) in
  form s' = sample_values
  /\ opened s' (Form.row_name 0 Field.countryId) = false
  /\ opened s' (Form.row_name 0 Field.units) = true
  /\ SelectInput.content
       (chooser (fun _ => EmptyString) (Js.JStr "Singapore") s'
          (Form.row_name 0 Field.countryId)
          (SelectInput.Strings (countryIds sample_catalogue)) "Select an option")
     = [ {| SelectInput.item_value := "Singapore";
            SelectInput.children := Some "Singapore";
            SelectInput.disabled := true |} ]
  /\ SelectInput.content
       (chooser (fun _ => EmptyString) (Js.JStr "tonne") s'
          (Form.row_name 0 Field.units)
          (SelectInput.Strings ["tonne"; "kg"]) "Select an option")
     = [ {| SelectInput.item_value := "tonne"; SelectInput.children := Some "tonne";
            SelectInput.disabled := false |};
         {| SelectInput.item_value := "kg"; SelectInput.children := Some "kg";
            SelectInput.disabled := false |} ].
Proof. repeat split. Qed.

(** A category the form no longer holds is still shown. A row copied from
    one of category [Steel] is mounted holding [Steel]; when its
    component is then changed to one without a category, the form holds
    no category for it, and its closed category chooser goes on showing
    [Steel]. *)
Example erased_category_still_shown :
  let category := Form.row_name 1 Field.greenMarkCategory in
  let fv0 := componentId_onValueChange sample_catalogue 0 "Rebar" sample_values in
  let fv1 := copy_onClick 0 fv0 in
  let mounted := Form.get category fv1 in
  let fv2 := componentId_onValueChange sample_catalogue 1 "Timber" fv1 in
  let s := {| form := fv2; opened := fun _ => false;
              browser := browser sample_state |} in
  mounted = Js.JStr "Steel"
  /\ Form.get category fv2 = Js.JUndefined
  /\ SelectInput.content
       (chooser (fun _ => EmptyString) mounted s category
          (SelectInput.Strings ["Concrete"; "Steel"; "Glass"]) "No Category")
     = [ {| SelectInput.item_value := "Steel"; SelectInput.children := Some "Steel";
            SelectInput.disabled := true |} ].
Proof. repeat split; reflexivity. Qed.

Lemma remove_last_snoc (e : Browser.Element) (l : list Browser.Element) :
  Browser.remove_last e (l ++ [e]) = l.
Proof.
  induction l as [| x r IH]; simpl.
  - by repeat case_bool_decide.
  - rewrite bool_decide_eq_true_2; [by rewrite IH |].
    apply elem_of_app. right. by apply list_elem_of_singleton.
Qed.

Lemma download_onClick_result (out : Output.t) (b : Browser.t) :
  let blob := {| Browser.parts := [JSON.stringify2 Number_toString (Output_json out)];
                 Browser.type := "application/json" |} in
  download_onClick Number_toString out b
  = {| Browser.object_urls :=
         delete (Browser.next_url b)
                (<[Browser.next_url b := blob]> (Browser.object_urls b));
       Browser.next_url := S (Browser.next_url b);
       Browser.body := Browser.body b;
       Browser.downloads :=
         Browser.downloads b
         ++ [ {| Browser.name := "output.sbcc.json"; Browser.content := blob |} ] |}.
Proof.
  unfold download_onClick, Browser.createObjectURL, Browser.click,
    Browser.appendChild, Browser.removeChild, Browser.revokeObjectURL.
  simpl. rewrite lookup_insert_eq. simpl. by rewrite remove_last_snoc.
Qed.

Lemma string_app_assoc (a b c : string) : (a +:+ b) +:+ c = a +:+ b +:+ c.
Proof.
  induction a as [| x a IH]; [done |].
  change (String x ((a +:+ b) +:+ c) = String x (a +:+ b +:+ c)). by rewrite IH.
Qed.

Lemma string_app_nil_r (a : string) : a +:+ EmptyString = a.
Proof.
  induction a as [| x a IH]; [done |].
  change (String x (a +:+ EmptyString) = String x a). by rewrite IH.
Qed.

Lemma concat_cons (sep x : string) (l : list string) :
  l ≠ [] -> String.concat sep (x :: l) = x +:+ sep +:+ String.concat sep l.
Proof. by destruct l. Qed.

Lemma concat_app (sep : string) (l1 l2 : list string) :
  l1 ≠ [] -> l2 ≠ [] ->
  String.concat sep (l1 ++ l2)
  = String.concat sep l1 +:+ sep +:+ String.concat sep l2.
Proof.
  intros H1 H2. induction l1 as [| x l IH]; [done |].
  destruct l as [| y l].
  - simpl. by destruct l2.
  - change ((x :: y :: l) ++ l2) with (x :: ((y :: l) ++ l2)).
    rewrite concat_cons by done. rewrite IH by done.
    rewrite (concat_cons sep x (y :: l)) by done.
    by rewrite !string_app_assoc.
Qed.

Lemma wrap_indented (opening closing stepback indent : string)
    (partial : list string) :
  partial ≠ [] ->
  JSON.wrap "  " opening closing stepback indent partial
  = opening +:+ JSON.newline +:+ indent
    +:+ String.concat ("," +:+ JSON.newline +:+ indent) partial
    +:+ JSON.newline +:+ stepback +:+ closing.
Proof. by destruct partial. Qed.

Lemma quote_char_plain (c : ascii) :
  plain_char c = true -> JSON.quote_char c = String c EmptyString.
Proof.
  unfold plain_char, JSON.quote_char. cbv zeta. intros H.
  apply andb_prop in H as [H H92]. apply andb_prop in H as [H32 H34].
  apply Nat.leb_le in H32. apply negb_true_iff, Nat.eqb_neq in H34, H92.
  rewrite !bool_decide_eq_false_2 by lia. done.
Qed.

Lemma concat_quote_char_plain (l : list ascii) :
  forallb plain_char l = true ->
  String.concat EmptyString (map JSON.quote_char l) = string_of_list_ascii l.
Proof.
  induction l as [| c l IH]; [done |]. intros H.
  apply andb_prop in H as [Hc Hl]. specialize (IH Hl).
  cbn [map string_of_list_ascii]. rewrite (quote_char_plain c Hc), <- IH.
  by destruct l.
Qed.

(** A string of plain characters is quoted by putting it between quotes. *)
Lemma QuoteJSONString_plain (s : string) :
  plain_text s = true -> JSON.QuoteJSONString s = dquote +:+ s +:+ dquote.
Proof.
  intros H. unfold JSON.QuoteJSONString.
  rewrite (concat_quote_char_plain _ H), string_of_list_ascii_of_string. done.
Qed.

(** The text of one row of the output, at its place in the array. *)
Lemma Output_row_text (last : bool) (r : Output.row) :
  "    " +:+ JSON.SerializeJSONProperty Number_toString "  " "    " (Output_row_json r)
         +:+ (if last then EmptyString else ",")
  = String.concat line_feed (Output_row_lines Number_toString last r).
Proof.
  unfold Output_row_json, Output_row_lines, property_line, Output_number.
  cbn [JSON.SerializeJSONProperty map]. rewrite wrap_indented by done.
  rewrite bool_decide_eq_false_2 by done.
  rewrite !QuoteJSONString_plain by done.
  cbn [String.concat]. rewrite !string_app_assoc.
  destruct last; reflexivity.
Qed.

Lemma Output_rows_lines_nonempty (rows : list Output.row) :
  rows ≠ [] -> Output_rows_lines Number_toString rows ≠ [].
Proof. destruct rows as [| r [| r' l]]; done. Qed.

Lemma Output_rows_text (rows : list Output.row) :
  rows ≠ [] ->
  "    " +:+ String.concat ("," +:+ JSON.newline +:+ "    ")
             (map (JSON.SerializeJSONProperty Number_toString "  " "    ")
                  (map Output_row_json rows))
  = String.concat line_feed (Output_rows_lines Number_toString rows).
Proof.
  induction rows as [| r rest IH]; [done |]. intros _.
  destruct rest as [| r' rest].
  - cbn [map String.concat Output_rows_lines].
    rewrite <- (Output_row_text true r). by rewrite string_app_nil_r.
  - change (Output_rows_lines Number_toString (r :: r' :: rest))
      with (Output_row_lines Number_toString false r
            ++ Output_rows_lines Number_toString (r' :: rest)).
    rewrite concat_app; [| done | by apply Output_rows_lines_nonempty].
    rewrite <- IH by done. rewrite <- (Output_row_text false r).
    cbn [map]. rewrite concat_cons by done.
    rewrite !string_app_assoc. reflexivity.
Qed.

(** The saved text, line by line. *)
Lemma Output_text (out : Output.t) :
  JSON.stringify2 Number_toString (Output_json out)
  = String.concat line_feed (Output_lines Number_toString out).
Proof.
  unfold JSON.stringify2, Output_json, Output_lines, property_line, Output_number.
  cbn [JSON.SerializeJSONProperty map]. rewrite wrap_indented by done.
  rewrite !bool_decide_eq_false_2 by done.
  rewrite !(QuoteJSONString_plain "version"), !(QuoteJSONString_plain "totalEmissions"),
    !(QuoteJSONString_plain "embodiedCarbonPerGfa"),
    !(QuoteJSONString_plain "embodiedCarbonPerGfaComparedToReference"),
    !(QuoteJSONString_plain "greenMarkScore"), !(QuoteJSONString_plain "rows") by done.
  destruct (Output.rows out) as [| r rest] eqn:Hrows.
  - cbn [map JSON.wrap String.concat app]. rewrite !string_app_assoc.
    reflexivity.
  - rewrite wrap_indented by done.
    pose proof (Output_rows_lines_nonempty (r :: rest)) as Hne.
    rewrite (concat_app line_feed (_ :: _ :: _ :: _ :: _ :: [_])) by done.
    rewrite (concat_app line_feed ([_] ++ _ ++ _) [_]) by done.
    rewrite (concat_app line_feed [_] (_ ++ _))
      by (first [done | by destruct (Output_rows_lines Number_toString (r :: rest))]).
    rewrite (concat_app line_feed (Output_rows_lines _ _) [_])
      by (first [done | by apply Hne]).
    rewrite <- (Output_rows_text (r :: rest)) by done.
    cbn [String.concat]. rewrite !string_app_assoc.
    reflexivity.
Qed.

(** C7. The download button saves exactly one file, named
    [output.sbcc.json], of type [application/json], whose text is
    [JSON.stringify(output, null, 2)] for the output derived from the
    current form values. That text is, line by line, an object of the six
    properties of the output and no other, in the order [version],
    [totalEmissions], [embodiedCarbonPerGfa],
    [embodiedCarbonPerGfaComparedToReference], [greenMarkScore], [rows],
    each name between quotes, each number as the engine prints it ([null]
    when it is not finite), a version of plain characters between quotes,
    each row an object of [a1a3] and [a4] on four lines; it starts with a
    brace and is never empty. The form values, the output and the
    document body are as before. *)
Theorem export_serializes_output (s : State) :
  let s' := step cat calculateGreenMark Number_toString s Download_onClick in
  let out := output calculateGreenMark s in
  let text := JSON.stringify2 Number_toString (Output_json out) in
  Browser.downloads (browser s')
  = Browser.downloads (browser s)
    ++ [ {| Browser.name := "output.sbcc.json";
            Browser.content :=
              {| Browser.parts := [text];
                 Browser.type := "application/json" |} |} ]
  /\ text = String.concat line_feed (Output_lines Number_toString out)
  /\ (plain_text (Output.version out) = true ->
      JSON.QuoteJSONString (Output.version out)
      = dquote +:+ Output.version out +:+ dquote)
  /\ length (Output_lines Number_toString out)
     = (match Output.rows out with
        | [] => 8
        | rows => 9 + 4 * length rows
        end)%nat
  /\ (exists rest, text = String "{" rest)
  /\ JSON.keys (Output_json out)
     = ["version"; "totalEmissions"; "embodiedCarbonPerGfa";
        "embodiedCarbonPerGfaComparedToReference"; "greenMarkScore"; "rows"]
  /\ (exists rows_json, In ("rows", JSON.Array rows_json)
                           (match Output_json out with
                            | JSON.Object ps => ps | _ => [] end)
        /\ length rows_json = length (Output.rows out)
        /\ Forall (fun r => JSON.keys r = ["a1a3"; "a4"]) rows_json)
  /\ form s' = form s
  /\ output calculateGreenMark s' = out
  /\ Browser.body (browser s') = Browser.body (browser s).
Proof.
  intros s' out text. split_and!.
  - unfold s', step. cbn [browser]. by rewrite download_onClick_result.
  - apply Output_text.
  - apply QuoteJSONString_plain.
  - unfold Output_lines. rewrite !length_app.
    assert (Hlen : forall rows, rows ≠ [] ->
              length (Output_rows_lines Number_toString rows) = (4 * length rows)%nat).
    { induction rows as [| r rest IH]; [done |]. intros _.
      destruct rest as [| r' rest]; [done |].
      change (Output_rows_lines Number_toString (r :: r' :: rest))
        with (Output_row_lines Number_toString false r
              ++ Output_rows_lines Number_toString (r' :: rest)).
      rewrite length_app, IH by done. simpl. lia. }
    destruct (Output.rows out) as [| r rest]; [done |].
    rewrite !length_app, Hlen by done. simpl. lia.
  - unfold text. rewrite Output_text. unfold Output_lines. by eexists.
  - done.
  - eexists. split_and!.
    + simpl. do 5 right. left. reflexivity.
    + by rewrite length_map.
    + apply Forall_forall. intros r Hr. apply list_elem_of_fmap in Hr as (o & -> & _).
      done.
  - done.
  - done.
  - unfold s', step. cbn [browser]. by rewrite download_onClick_result.
Qed.

End Chooser.

(** The text saved for an output with one row, every number printed as
    [7]. *)
Example export_text_sample :
  let out :=
    {| Output.version := "1.0.2";
       Output.totalEmissions := Js.lit 7;
       Output.embodiedCarbonPerGfa := Js.lit 7;
       Output.embodiedCarbonPerGfaComparedToReference := Js.NaN;
       Output.greenMarkScore := Js.lit 7;
       Output.rows := [ {| Output.a1a3 := Js.lit 7; Output.a4 := Js.lit 7 |} ] |} in
  let q := JSON.QuoteJSONString in
  JSON.stringify2 (fun _ => "7") (Output_json out)
  = String.concat JSON.newline
      [ "{";
        "  " +:+ q "version" +:+ ": " +:+ q "1.0.2" +:+ ",";
        "  " +:+ q "totalEmissions" +:+ ": 7,";
        "  " +:+ q "embodiedCarbonPerGfa" +:+ ": 7,";
        "  " +:+ q "embodiedCarbonPerGfaComparedToReference" +:+ ": null,";
        "  " +:+ q "greenMarkScore" +:+ ": 7,";
        "  " +:+ q "rows" +:+ ": [";
        "    {";
        "      " +:+ q "a1a3" +:+ ": 7,";
        "      " +:+ q "a4" +:+ ": 7";
        "    }";
        "  ]";
        "}" ].
Proof. vm_compute. reflexivity. Qed.

(** ** The row schema *)

Section Schema.

Variable ver : Zod.version.

(** What [z.coerce.number().min(0)] answers, case by case. *)
Lemma parse_coerce_number_min0 (p : list Zod.Key) (v : Js.JsVal) :
  Zod.parse ver (Zod.min (Js.lit 0) Zod.coerce_number) p v
  = if Zod.is_number ver (Js.Number v)
    then if Js.lt (Js.Number v) (Js.lit 0)
         then Zod.Err [issue_at Zod.too_small p]
         else Zod.Ok (Js.JNum (Js.Number v))
    else Zod.Err [issue_at Zod.invalid_type p].
Proof.
  simpl. destruct (Zod.is_number ver (Js.Number v)); [| done].
  by destruct (Js.lt _ _).
Qed.

(** What [z.coerce.number().optional()] answers. *)
Lemma parse_coerce_number_optional (p : list Zod.Key) (v : Js.JsVal) :
  Zod.parse ver (Zod.optional Zod.coerce_number) p v
  = match v with
    | Js.JUndefined => Zod.Ok Js.JUndefined
    | _ => if Zod.is_number ver (Js.Number v)
           then Zod.Ok (Js.JNum (Js.Number v))
           else Zod.Err [issue_at Zod.invalid_type p]
    end.
Proof.
  destruct v; simpl; try done;
    match goal with |- context [Zod.is_number ver ?x] =>
      by destruct (Zod.is_number ver x) end.
Qed.

(** Every issue a schema raises carries the path it was parsed at. *)
Lemma parse_issues_path (s : Zod.Schema) (p : list Zod.Key) (v : Js.JsVal) :
  Forall (fun i => Zod.path i = p) (Zod.issues_of (Zod.parse ver s p v)).
Proof.
  induction s as [| members | coerce checks | inner IH] in v |- *; simpl.
  - destruct v; simpl; by repeat constructor.
  - destruct v; simpl; try by repeat constructor.
    case_bool_decide; simpl; by repeat constructor.
  - assert (Hchecks : forall x,
      Forall (fun i => Zod.path i = p) (concat (map (Zod.check_issues p x) checks))).
    { intros x. apply Forall_concat, Forall_forall. intros l Hl.
      apply list_elem_of_fmap in Hl as (c & -> & _). destruct c as [b]. simpl.
      destruct (Js.lt x b); by repeat constructor. }
    destruct coerce.
    + destruct (Zod.is_number ver (Js.Number v)); simpl; [| by repeat constructor].
      specialize (Hchecks (Js.Number v)).
      by destruct (concat _).
    + destruct v; simpl; try by repeat constructor.
      destruct (Zod.is_number ver x); simpl; [| by repeat constructor].
      specialize (Hchecks x). by destruct (concat _).
  - destruct v; simpl; try apply IH. constructor.
Qed.

Lemma filter_issues_path (s : Zod.Schema) (p q : list Zod.Key) (v : Js.JsVal) :
  filter (fun i => Zod.path i = q) (Zod.issues_of (Zod.parse ver s p v))
  = if bool_decide (p = q) then Zod.issues_of (Zod.parse ver s p v) else [].
Proof.
  pose proof (parse_issues_path s p v) as H.
  induction H as [| i l Hi Hl IH]; [by case_bool_decide |].
  rewrite filter_cons, IH. subst p. case_bool_decide as Hq.
  - by rewrite decide_True.
  - by rewrite decide_False.
Qed.

Lemma issues_of_match {A} (l : list Zod.Issue) (x : A) :
  Zod.issues_of (match l with [] => Zod.Ok x | i :: l' => Zod.Err (i :: l') end) = l.
Proof. by destruct l. Qed.

(** The issues of a row, field by field: those on field [f] are the
    issues of that field's own schema on that field's value. *)
Lemma field_issues_own (f : Field.t) (r : InputRow) :
  field_issues ver f r
  = Zod.issues_of (Zod.parse ver (field_schema f)
                     [Zod.Prop_key (Field.name f)] (row_get f r)).
Proof.
  unfold field_issues, rowschema_safeParse, Zod.parse_object.
  rewrite issues_of_match. unfold rowschema.
  cbn [map concat fst snd app].
  rewrite !filter_app, !filter_issues_path, filter_nil.
  destruct f; vm_compute bool_decide; cbn [app];
    rewrite ?app_nil_r; reflexivity.
Qed.

End Schema.

(** ** Numbers: the sign survives rounding *)

Lemma lt_zero (x : Js.number) :
  Js.lt x (Js.lit 0)
  = match x with
    | S754_infinity true | S754_finite true _ _ => true
    | _ => false
    end.
Proof. by destruct x as [[] | [] | | [] m e]. Qed.

Lemma lt_zero_sign (x : Js.number) (neg : bool) :
  sign_of x = Some neg ->
  Js.lt x (Js.lit 0) = neg && negb (match x with S754_zero _ => true | _ => false end).
Proof. rewrite lt_zero. destruct x as [[] | [] | | [] m e]; simpl; by intros [= <-]. Qed.

Lemma shr_1_nonneg (mrs : shr_record) : 0 <= shr_m mrs -> 0 <= shr_m (shr_1 mrs).
Proof.
  destruct mrs as [m r s]. simpl. intros Hm.
  destruct m as [| p | p]; [done | | lia]. by destruct p.
Qed.

Lemma iter_pos_shr_1_nonneg (n : positive) (mrs : shr_record) :
  0 <= shr_m mrs -> 0 <= shr_m (SpecFloat.iter_pos shr_1 n mrs).
Proof.
  revert mrs. induction n as [n IH | n IH |]; intros mrs Hm; simpl.
  - by apply IH, IH, shr_1_nonneg.
  - by apply IH, IH.
  - by apply shr_1_nonneg.
Qed.

Lemma shr_fexp_nonneg (m e : Z) (l : location) :
  0 <= m -> 0 <= shr_m (shr_fexp Js.prec Js.emax m e l).1.
Proof.
  intros Hm. unfold shr_fexp, shr.
  assert (H0 : 0 <= shr_m (shr_record_of_loc m l)) by (by destruct l as [| []]).
  destruct (fexp Js.prec Js.emax (Zdigits2 m + e) - e) as [| n | n]; simpl; try done.
  by apply iter_pos_shr_1_nonneg.
Qed.

Lemma round_nearest_even_nonneg (m : Z) (l : location) :
  0 <= m -> 0 <= round_nearest_even m l.
Proof.
  intros Hm. destruct l as [| []]; simpl; try lia. destruct (Z.even m); lia.
Qed.

Lemma binary_round_aux_sign (sx : bool) (mx ex : Z) (lx : location) :
  0 <= mx -> sign_of (binary_round_aux Js.prec Js.emax sx mx ex lx) = Some sx.
Proof.
  intros Hm. unfold binary_round_aux.
  pose proof (shr_fexp_nonneg mx ex lx Hm) as H1.
  destruct (shr_fexp Js.prec Js.emax mx ex lx) as [mrs' e']. simpl in H1.
  pose proof (shr_fexp_nonneg _ e' loc_Exact
                (round_nearest_even_nonneg _ (loc_of_shr_record mrs') H1)) as H2.
  destruct (shr_fexp Js.prec Js.emax _ e' loc_Exact) as [mrs'' e'']. simpl in H2.
  destruct (shr_m mrs'') as [| m | m]; [done | | lia].
  by destruct (e'' <=? Js.emax - Js.prec).
Qed.

Lemma binary_round_sign (sx : bool) (mx : positive) (ex : Z) :
  sign_of (binary_round Js.prec Js.emax sx mx ex) = Some sx.
Proof.
  unfold binary_round. destruct (shl_align _ _ _) as [mz ez].
  by apply binary_round_aux_sign.
Qed.

Lemma SFdiv_finite_sign (sx sy : bool) (mx my : positive) (ex ey : Z) :
  sign_of (SFdiv Js.prec Js.emax (S754_finite sx mx ex) (S754_finite sy my ey))
  = Some (xorb sx sy).
Proof.
  unfold SFdiv, SFdiv_core_binary.
  set (s := ex - ey - _).
  set (m' := match s with Z.pos _ => Z.shiftl (Z.pos mx) s | 0 => Z.pos mx | Z.neg _ => 0 end).
  assert (Hm' : 0 <= m').
  { unfold m'. destruct s; [lia | | lia]. apply Z.shiftl_nonneg. lia. }
  pose proof (Z_div_mod m' (Z.pos my) eq_refl) as Hdiv.
  destruct (Z.div_eucl m' (Z.pos my)) as [q r].
  apply binary_round_aux_sign. destruct Hdiv as [Heq Hr]. nia.
Qed.

Lemma round_decimal_sign (neg : bool) (m e : Z) :
  sign_of (Js.round_decimal neg m e) = Some neg.
Proof.
  unfold Js.round_decimal. destruct m as [| p | p]; [done | | done].
  destruct (0 <=? e); [apply binary_round_sign |].
  rewrite SFdiv_finite_sign. by destruct neg.
Qed.

Lemma lit_sign (z : Z) : sign_of (Js.lit z) = Some (z <? 0).
Proof.
  unfold Js.lit, binary_normalize. destruct z as [| p | p]; [done | |];
    apply binary_round_sign.
Qed.

(** ** Numbers: what [Number] makes of a string *)

Example StringToNumber_samples :
  Js.StringToNumber "0.1" = S754_finite false 7205759403792794 (-56)
  /\ Js.StringToNumber "4.35" = S754_finite false 4897664594765414 (-50)
  /\ Js.StringToNumber "  12.5e1 " = Js.lit 125
  /\ Js.StringToNumber "+7" = Js.lit 7
  /\ Js.StringToNumber "5." = Js.lit 5
  /\ Js.StringToNumber "0x1F" = Js.lit 31
  /\ Js.StringToNumber "9007199254740993" = Js.lit 9007199254740992
  /\ Js.StringToNumber "1e400" = Js.Infinity false
  /\ Js.StringToNumber "-Infinity" = Js.Infinity true
  /\ Js.StringToNumber "2.4703282292062328e-324" = S754_finite false 1 (-1074)
  /\ Js.StringToNumber "2.4703282292062327e-324" = S754_zero false
  /\ Js.StringToNumber "-1e-400" = S754_zero true
  /\ Js.StringToNumber "-0" = S754_zero true
  /\ Js.StringToNumber EmptyString = S754_zero false
  /\ Js.StringToNumber "." = Js.NaN
  /\ Js.StringToNumber "1e" = Js.NaN
  /\ Js.StringToNumber "-0x10" = Js.NaN
  /\ Js.StringToNumber "1,5" = Js.NaN
  /\ Js.StringToNumber "abc" = Js.NaN.
Proof. repeat split; vm_compute; reflexivity. Qed.

Lemma hex_val_nonneg (c : ascii) (d : Z) : Js.hex_val c = Some d -> 0 <= d.
Proof.
  unfold Js.hex_val. cbv zeta.
  repeat (destruct (_ && _) eqn:Hc;
          [apply andb_true_iff in Hc as [?%Z.leb_le ?%Z.leb_le];
           intros [= <-]; lia | clear Hc]).
  done.
Qed.

Lemma radix_digits_nonneg (radix : Z) (s : list ascii) (acc n : Z) :
  0 <= radix -> 0 <= acc -> Js.radix_digits radix s acc = Some n -> 0 <= n.
Proof.
  intros Hr. revert acc. induction s as [| c r IH]; intros acc Hacc; simpl.
  - by intros [= <-].
  - destruct (Js.hex_val c) as [d |] eqn:Hd; [| done].
    apply hex_val_nonneg in Hd. destruct (d <? radix); [| done].
    apply IH. nia.
Qed.

Lemma parse_non_decimal_Some (c : ascii) (t : list ascii) (n : Z) :
  Js.parse_non_decimal (c :: t) = Some n -> c = "0"%char /\ 0 <= n.
Proof.
  unfold Js.parse_non_decimal.
  destruct t as [| p [| d ds]]; [done | done |].
  case_bool_decide as Hc; cbn [negb]; [| done]. intros H. split; [done |].
  repeat (destruct (_ || _);
          [by eapply (radix_digits_nonneg _ _ 0 n) in H |]).
  done.
Qed.

(** The result of [Number] on a string is NaN or carries the sign the
    text starts with, also when the value rounds to zero or overflows. *)
Lemma StringToNumber_sign (s : string) :
  Js.StringToNumber s = Js.NaN
  \/ sign_of (Js.StringToNumber s) = Some (leading_minus s).
Proof.
  unfold Js.StringToNumber, leading_minus.
  destruct (Js.trim (list_ascii_of_string s)) as [| c t]; [by right |].
  destruct (Js.parse_non_decimal (c :: t)) as [n |] eqn:Hnd.
  - apply parse_non_decimal_Some in Hnd as [-> Hn]. right.
    change (binary_normalize Js.prec Js.emax n 0 false) with (Js.lit n).
    rewrite lit_sign. by rewrite (proj2 (Z.ltb_ge n 0) Hn).
  - clear Hnd.
    assert (Hrest : forall neg u,
      (if Js.ascii_list_eqb u (list_ascii_of_string "Infinity") then Js.Infinity neg
       else match Js.parse_unsigned_decimal u with
            | Some (m, e) => Js.round_decimal neg m e
            | None => Js.NaN
            end) = Js.NaN
      \/ sign_of (if Js.ascii_list_eqb u (list_ascii_of_string "Infinity")
                  then Js.Infinity neg
                  else match Js.parse_unsigned_decimal u with
                       | Some (m, e) => Js.round_decimal neg m e
                       | None => Js.NaN
                       end) = Some neg).
    { intros neg u. destruct (Js.ascii_list_eqb u _); [by right |].
      destruct (Js.parse_unsigned_decimal u) as [[m e] |]; [| by left].
      right. apply round_decimal_sign. }
    destruct c as [[] [] [] [] [] [] [] []]; apply Hrest.
Qed.

Lemma strip_one_plain (c : ascii) (r : list ascii) :
  plain c = true ->
  Js.strip_one Js.white_space (c :: r) = None
  /\ Js.strip_one (map (@rev ascii) Js.white_space) (c :: r) = None.
Proof.
  intros H.
  destruct c as [[] [] [] [] [] [] [] []]; vm_compute in H; try discriminate H;
    split; vm_compute; reflexivity.
Qed.

Lemma Forall_plain_rev_head (s : list ascii) :
  s ≠ [] -> Forall (fun c => plain c = true) s ->
  exists c r, rev s = c :: r /\ plain c = true.
Proof.
  intros Hne Hall. destruct (rev s) as [| c r] eqn:Hrev.
  - exfalso. apply Hne. apply (f_equal (@rev ascii)) in Hrev.
    by rewrite rev_involutive in Hrev.
  - exists c, r. split; [done |].
    rewrite Forall_forall in Hall. apply Hall.
    apply list_elem_of_In, in_rev. rewrite Hrev. by left.
Qed.

Lemma trim_plain (s : list ascii) :
  s ≠ [] -> Forall (fun c => plain c = true) s -> Js.trim s = s.
Proof.
  intros Hne Hall. unfold Js.trim.
  destruct s as [| c r]; [done |].
  assert (Hc : plain c = true) by by inversion Hall.
  destruct (strip_one_plain c r Hc) as [H1 _].
  cbn [length Js.strip_leading]. rewrite H1.
  destruct (Forall_plain_rev_head (c :: r) Hne Hall) as (c' & r' & Hrev & Hc').
  rewrite Hrev. destruct (strip_one_plain c' r' Hc') as [_ H2].
  cbn [length Js.strip_leading]. rewrite H2, <- Hrev. apply rev_involutive.
Qed.

Lemma digit_plain (c : ascii) : Js.is_digit c = true -> plain c = true.
Proof. intros H. unfold plain. by rewrite H. Qed.

Lemma digit_not_letter (c : ascii) :
  plain c = true ->
  c ≠ "x"%char /\ c ≠ "X"%char /\ c ≠ "o"%char /\ c ≠ "O"%char
  /\ c ≠ "b"%char /\ c ≠ "B"%char /\ c ≠ "I"%char.
Proof. intros H. by repeat split; intros ->. Qed.

Lemma parse_non_decimal_plain (s : list ascii) :
  Forall (fun c => plain c = true) s -> Js.parse_non_decimal s = None.
Proof.
  intros Hall. unfold Js.parse_non_decimal.
  destruct s as [| z [| p [| d ds]]]; [done | done | done |].
  destruct (negb _); [done |].
  assert (Hp : plain p = true) by (by inversion Hall as [| ? ? _ Hr]; inversion Hr).
  destruct (digit_not_letter p Hp) as (? & ? & ? & ? & ? & ? & _).
  by rewrite !bool_decide_eq_false_2.
Qed.

Lemma span_digits_app (ds rest : list ascii) :
  all_digits ds ->
  match rest with c :: _ => Js.is_digit c = false | [] => True end ->
  Js.span_digits (ds ++ rest) = (ds, rest).
Proof.
  intros Hds Hrest. induction Hds as [| c ds Hc _ IH]; simpl.
  - destruct rest as [| c r]; [done |]. simpl. by rewrite Hrest.
  - by rewrite Hc, IH.
Qed.

Lemma span_digits_all (ds : list ascii) :
  all_digits ds -> Js.span_digits ds = (ds, []).
Proof.
  intros Hds. induction Hds as [| c ds Hc _ IH]; simpl; [done |].
  by rewrite Hc, IH.
Qed.

Lemma parse_unsigned_decimal_text (ip : list ascii) (fp : option (list ascii)) :
  all_digits ip -> all_digits (fraction_digits fp) ->
  ip ++ fraction_digits fp ≠ [] ->
  Js.parse_unsigned_decimal (ip ++ fraction_text fp)
  = Some (Js.digits_to_Z (ip ++ fraction_digits fp),
          - Z.of_nat (length (fraction_digits fp))).
Proof.
  intros Hip Hfp Hne. unfold Js.parse_unsigned_decimal.
  rewrite (span_digits_app ip (fraction_text fp) Hip) by by destruct fp.
  destruct fp as [f |]; simpl in *.
  - rewrite (span_digits_all f Hfp).
    destruct (ip ++ f) eqn:Heq; [done |]. do 2 f_equal.
  - by destruct (ip ++ []) eqn:Heq.
Qed.

Lemma after_sign (neg : bool) (u : list ascii) (m e : Z) :
  Js.parse_unsigned_decimal u = Some (m, e) ->
  (if Js.ascii_list_eqb u (list_ascii_of_string "Infinity") then Js.Infinity neg
   else match Js.parse_unsigned_decimal u with
        | Some (m, e) => Js.round_decimal neg m e
        | None => Js.NaN
        end) = Js.round_decimal neg m e.
Proof.
  intros H. unfold Js.ascii_list_eqb. case_bool_decide as Hu.
  - subst u. vm_compute in H. discriminate H.
  - by rewrite H.
Qed.

Lemma unsigned_head (ip : list ascii) (fp : option (list ascii)) (c : ascii)
    (t : list ascii) :
  all_digits ip -> ip ++ fraction_text fp = c :: t ->
  Js.is_digit c || bool_decide (c = "."%char) = true.
Proof.
  intros Hip Heq. destruct ip as [| d ip'].
  - destruct fp as [f |]; simpl in Heq; [| done].
    injection Heq as <- _. done.
  - injection Heq as <- _. inversion Hip as [| ? ? Hd _]. by rewrite Hd.
Qed.

Lemma decimal_text_plain (sg : Sign) (ip : list ascii) (fp : option (list ascii)) :
  all_digits ip -> all_digits (fraction_digits fp) ->
  Forall (fun c => plain c = true) (sign_text sg ++ ip ++ fraction_text fp).
Proof.
  intros Hip Hfp. apply Forall_app. split; [by destruct sg; repeat constructor |].
  apply Forall_app. split.
  - eapply Forall_impl; [exact Hip |]. intros c. apply digit_plain.
  - destruct fp as [f |]; simpl; [| constructor].
    constructor; [done |].
    eapply Forall_impl; [exact Hfp |]. intros c. apply digit_plain.
Qed.

(** The number a plain decimal numeral denotes: its digits as an integer,
    scaled by the length of the fraction and rounded, with the sign of
    the text. *)
Lemma StringToNumber_decimal_text (sg : Sign) (ip : list ascii)
    (fp : option (list ascii)) :
  all_digits ip -> all_digits (fraction_digits fp) ->
  ip ++ fraction_digits fp ≠ [] ->
  Js.StringToNumber (decimal_text sg ip fp)
  = Js.round_decimal (match sg with Minus => true | _ => false end)
      (Js.digits_to_Z (ip ++ fraction_digits fp))
      (- Z.of_nat (length (fraction_digits fp))).
Proof.
  intros Hip Hfp Hne.
  pose proof (parse_unsigned_decimal_text ip fp Hip Hfp Hne) as Hparse.
  pose proof (decimal_text_plain sg ip fp Hip Hfp) as Hplain.
  assert (Hu : ip ++ fraction_text fp ≠ []).
  { intros Heq. apply Hne. apply app_eq_nil in Heq as [-> Hf].
    by destruct fp. }
  unfold Js.StringToNumber, decimal_text.
  rewrite list_ascii_of_string_of_list_ascii.
  rewrite trim_plain; [| by destruct sg, (ip ++ fraction_text fp) | done].
  destruct sg; cbn [sign_text app] in *.
  - destruct (ip ++ fraction_text fp) as [| c t] eqn:Heq; [done |].
    rewrite parse_non_decimal_plain by done.
    pose proof (unsigned_head ip fp c t Hip Heq) as Hc.
    destruct c as [[] [] [] [] [] [] [] []]; vm_compute in Hc; try discriminate Hc;
      cbv beta iota; by apply after_sign.
  - rewrite parse_non_decimal_plain by done. cbv beta iota. by apply after_sign.
  - rewrite parse_non_decimal_plain by done. cbv beta iota. by apply after_sign.
Qed.

Lemma digits_to_Z_nonneg (ds : list ascii) :
  all_digits ds -> 0 <= Js.digits_to_Z ds.
Proof.
  intros Hds. unfold Js.digits_to_Z.
  assert (Hgen : forall acc, 0 <= acc ->
            0 <= fold_left (fun a c => 10 * a + Js.digit_val c) ds acc).
  { induction Hds as [| c ds Hc _ IH]; intros acc Hacc; simpl; [done |].
    apply IH. unfold Js.is_digit, Js.digit_val in *.
    apply andb_true_iff in Hc as [?%Z.leb_le ?%Z.leb_le]. lia. }
  by apply Hgen.
Qed.

Lemma decimal_text_sign (sg : Sign) (ip : list ascii) (fp : option (list ascii)) :
  all_digits ip -> all_digits (fraction_digits fp) ->
  ip ++ fraction_digits fp ≠ [] ->
  sign_of (Js.Number (Js.JStr (decimal_text sg ip fp))) = Some (is_minus sg).
Proof.
  intros Hip Hfp Hne. simpl.
  rewrite (StringToNumber_decimal_text sg ip fp Hip Hfp Hne).
  apply round_decimal_sign.
Qed.

(** A string of decimal digits is the integer it writes. *)
Lemma digits_number (ds : list ascii) :
  all_digits ds -> ds ≠ [] ->
  Js.Number (Js.JStr (string_of_list_ascii ds)) = Js.lit (Js.digits_to_Z ds).
Proof.
  intros Hds Hne.
  pose proof (StringToNumber_decimal_text Unsigned ds None Hds (Forall_nil_2 _)) as H.
  unfold decimal_text in H. simpl in H. rewrite !app_nil_r in H.
  simpl. rewrite (H Hne).
  pose proof (digits_to_Z_nonneg ds Hds) as Hz.
  unfold Js.round_decimal, Js.lit, binary_normalize.
  destruct (Js.digits_to_Z ds) as [| p | p]; [done | | lia].
  simpl. by rewrite Pos.mul_1_r.
Qed.

(** ** Validation of the numeric fields *)

Section NumericFields.

Variable ver : Zod.version.

Lemma bounded_field_schema (f : Field.t) :
  f ∈ bounded_fields -> field_schema f = Zod.min (Js.lit 0) Zod.coerce_number.
Proof.
  unfold bounded_fields. rewrite !elem_of_cons.
  intros [-> | [-> | [-> | H]]]; [done | done | done |].
  by apply elem_of_nil in H.
Qed.

Lemma bounded_field_issues (f : Field.t) (r : InputRow) :
  f ∈ bounded_fields ->
  field_issues ver f r
  = let n := Js.Number (row_get f r) in
    if Zod.is_number ver n
    then if Js.lt n (Js.lit 0) then [issue_at Zod.too_small (field_path f)] else []
    else [issue_at Zod.invalid_type (field_path f)].
Proof.
  intros Hf. rewrite field_issues_own, (bounded_field_schema f Hf).
  rewrite parse_coerce_number_min0. cbv zeta.
  destruct (Zod.is_number ver _); [| done]. by destruct (Js.lt _ _).
Qed.

Lemma parse_no_issue (s : Zod.Schema) (p : list Zod.Key) (v : Js.JsVal) :
  Zod.issues_of (Zod.parse ver s p v) = [] ->
  Zod.parse ver s p v = Zod.Ok (Zod.value_of (Zod.parse ver s p v)).
Proof.
  induction s as [| members | coerce checks | inner IH] in v |- *; simpl.
  - by destruct v.
  - destruct v; try done. by case_bool_decide.
  - destruct coerce.
    + destruct (Zod.is_number ver _); [| done]. by destruct (concat _).
    + destruct v; try done.
      destruct (Zod.is_number ver _); [| done]. by destruct (concat _).
  - destruct v; try done; apply IH.
Qed.

(** A row the schema accepts: every field of the result is what that
    field's schema made of the field's value. *)
Lemma rowschema_safeParse_Ok (r r' : InputRow) (f : Field.t) :
  rowschema_safeParse ver r = Zod.Ok r' ->
  Zod.parse ver (field_schema f) (field_path f) (row_get f r) = Zod.Ok (row_get f r').
Proof.
  intros H.
  assert (Hnone : field_issues ver f r = []).
  { unfold field_issues. by rewrite H. }
  rewrite field_issues_own in Hnone. apply parse_no_issue in Hnone.
  unfold field_path. rewrite Hnone. f_equal.
  unfold rowschema_safeParse, Zod.parse_object in H.
  destruct (concat _) in H; [| done]. injection H as <-.
  by destruct f.
Qed.

End NumericFields.

(** A plain decimal numeral without a minus sign passes on a bounded
    field (zod 3 takes it even when it overflows to infinity). *)
Lemma unsigned_numeral_accepted (f : Field.t) (r : InputRow) (sg : Sign)
    (ip : list ascii) (fp : option (list ascii)) :
  f ∈ bounded_fields -> is_minus sg = false ->
  all_digits ip -> all_digits (fraction_digits fp) ->
  ip ++ fraction_digits fp ≠ [] ->
  row_get f r = Js.JStr (decimal_text sg ip fp) ->
  field_issues Zod.v3 f r = [].
Proof.
  intros Hf Hsg Hip Hfp Hne Hv.
  rewrite (bounded_field_issues Zod.v3 f r Hf). cbv zeta. rewrite Hv.
  pose proof (decimal_text_sign sg ip fp Hip Hfp Hne) as Hs. rewrite Hsg in Hs.
  rewrite (lt_zero_sign _ _ Hs). unfold Zod.is_number.
  by destruct (Js.Number _).
Qed.

(** A numeral with a minus sign is refused as too small, unless its value
    rounds to zero. *)
Lemma negative_numeral_rejected (f : Field.t) (r : InputRow)
    (ip : list ascii) (fp : option (list ascii)) :
  f ∈ bounded_fields ->
  all_digits ip -> all_digits (fraction_digits fp) ->
  ip ++ fraction_digits fp ≠ [] ->
  row_get f r = Js.JStr (decimal_text Minus ip fp) ->
  is_zero (Js.Number (row_get f r)) = false ->
  field_issues Zod.v3 f r = [issue_at Zod.too_small (field_path f)].
Proof.
  intros Hf Hip Hfp Hne Hv Hz.
  rewrite (bounded_field_issues Zod.v3 f r Hf). cbv zeta.
  rewrite Hv in Hz |- *.
  pose proof (decimal_text_sign Minus ip fp Hip Hfp Hne) as Hs.
  rewrite (lt_zero_sign _ _ Hs). unfold Zod.is_number.
  destruct (Js.Number _); simpl in *; done.
Qed.

Lemma is_number_versions (n : Js.number) :
  Zod.is_number Zod.v3 n = negb (Js.isNaN n)
  /\ Zod.is_number Zod.v4 n = Js.isFinite n.
Proof. by destruct n. Qed.

Lemma manualMarineDistance_issues (ver : Zod.version) (r : InputRow) :
  field_issues ver Field.manualMarineDistance r
  = match manualMarineDistance r with
    | Js.JUndefined => []
    | v => if Zod.is_number ver (Js.Number v) then []
           else [issue_at Zod.invalid_type (field_path Field.manualMarineDistance)]
    end.
Proof.
  rewrite field_issues_own.
  change (field_schema Field.manualMarineDistance)
    with (Zod.optional Zod.coerce_number).
  rewrite parse_coerce_number_optional.
  change (row_get Field.manualMarineDistance r) with (manualMarineDistance r).
  destruct (manualMarineDistance r); try done;
    match goal with |- context [Zod.is_number ver ?x] =>
      by destruct (Zod.is_number ver x) end.
Qed.

Lemma manualMarineDistance_parsed (ver : Zod.version) (r r' : InputRow) :
  rowschema_safeParse ver r = Zod.Ok r' ->
  manualMarineDistance r'
  = match manualMarineDistance r with
    | Js.JUndefined => Js.JUndefined
    | v => Js.JNum (Js.Number v)
    end.
Proof.
  intros Hok.
  pose proof (rowschema_safeParse_Ok ver r r' Field.manualMarineDistance Hok) as Hp.
  change (field_schema Field.manualMarineDistance)
    with (Zod.optional Zod.coerce_number) in Hp.
  rewrite parse_coerce_number_optional in Hp.
  change (row_get Field.manualMarineDistance r) with (manualMarineDistance r) in Hp.
  change (row_get Field.manualMarineDistance r') with (manualMarineDistance r') in Hp.
  destruct (manualMarineDistance r);
    first
      [ by injection Hp as <-
      | match type of Hp with context [Zod.is_number ver ?x] =>
          destruct (Zod.is_number ver x); [by injection Hp as <- | done] end ].
Qed.

(** C2 (amended). For [quantity], [internationalRoadDistance] and
    [localRoadDistance] the schema coerces the input with [Number] and
    raises on the field exactly: [invalid_type] when the result is not a
    number (NaN, and from zod 4 on an infinity), [too_small] when it is
    below 0, and nothing otherwise, the parsed value then being the
    coerced number. So a number that is not negative and a plain decimal
    numeral without a minus sign are accepted when zod takes their value
    for a number (zod 3 always does, zod 4 when it is finite) and raise
    [invalid_type] when not; a negative number and a numeral with a minus
    sign raise [too_small], unless the numeral rounds to zero. For
    [manualMarineDistance] an absent value raises nothing and comes back
    absent; any other value that does not coerce below 0 is accepted as
    the number it coerces to when zod takes that for a number, plain
    decimal numerals without a minus sign among them, and raises
    [invalid_type] when not. *)
Theorem numeric_fields_validation (ver : Zod.version) (r : InputRow) :
  Forall (fun f =>
      let n := Js.Number (row_get f r) in
      field_issues ver f r
      = (if Zod.is_number ver n
         then if Js.lt n (Js.lit 0)
              then [issue_at Zod.too_small (field_path f)] else []
         else [issue_at Zod.invalid_type (field_path f)])
      /\ (forall r', rowschema_safeParse ver r = Zod.Ok r' ->
                     row_get f r' = Js.JNum n))
    bounded_fields
  /\ (forall n, Zod.is_number Zod.v3 n = negb (Js.isNaN n)
                /\ Zod.is_number Zod.v4 n = Js.isFinite n)
  /\ (forall f x, f ∈ bounded_fields -> row_get f r = Js.JNum x ->
        Js.isNaN x = false -> Js.lt x (Js.lit 0) = false ->
        field_issues ver f r
        = if Zod.is_number ver x then []
          else [issue_at Zod.invalid_type (field_path f)])
  /\ (forall f x, f ∈ bounded_fields -> row_get f r = Js.JNum x ->
        Js.lt x (Js.lit 0) = true ->
        field_issues ver f r
        = if Zod.is_number ver x then [issue_at Zod.too_small (field_path f)]
          else [issue_at Zod.invalid_type (field_path f)])
  /\ (forall z, Js.isNaN (Js.lit z) = false
                /\ (0 <= z -> Js.lt (Js.lit z) (Js.lit 0) = false))
  /\ (forall f, f ∈ bounded_fields -> row_get f r = Js.JStr EmptyString ->
        field_issues ver f r = []
        /\ (forall r', rowschema_safeParse ver r = Zod.Ok r' ->
                       row_get f r' = Js.JNum (Js.lit 0)))
  /\ (forall f sg ip fp, f ∈ bounded_fields ->
        all_digits ip -> all_digits (fraction_digits fp) ->
        ip ++ fraction_digits fp ≠ [] ->
        row_get f r = Js.JStr (decimal_text sg ip fp) ->
        let n := Js.Number (row_get f r) in
        Js.isNaN n = false
        /\ field_issues ver f r
           = if Zod.is_number ver n
             then if is_minus sg && negb (is_zero n)
                  then [issue_at Zod.too_small (field_path f)] else []
             else [issue_at Zod.invalid_type (field_path f)])
  /\ (manualMarineDistance r = Js.JUndefined ->
      field_issues ver Field.manualMarineDistance r = []
      /\ (forall r', rowschema_safeParse ver r = Zod.Ok r' ->
                     manualMarineDistance r' = Js.JUndefined))
  /\ (let n := Js.Number (manualMarineDistance r) in
      manualMarineDistance r ≠ Js.JUndefined ->
      Js.lt n (Js.lit 0) = false ->
      field_issues ver Field.manualMarineDistance r
      = (if Zod.is_number ver n then []
         else [issue_at Zod.invalid_type (field_path Field.manualMarineDistance)])
      /\ (forall r', rowschema_safeParse ver r = Zod.Ok r' ->
                     manualMarineDistance r' = Js.JNum n))
  /\ (forall sg ip fp, is_minus sg = false ->
        all_digits ip -> all_digits (fraction_digits fp) ->
        ip ++ fraction_digits fp ≠ [] ->
        manualMarineDistance r = Js.JStr (decimal_text sg ip fp) ->
        let n := Js.Number (manualMarineDistance r) in
        Js.isNaN n = false
        /\ Js.lt n (Js.lit 0) = false
        /\ field_issues ver Field.manualMarineDistance r
           = if Zod.is_number ver n then []
             else [issue_at Zod.invalid_type (field_path Field.manualMarineDistance)]).
Proof.
  split_and!.
  - apply Forall_forall. intros f Hf. split.
    + by apply bounded_field_issues.
    + intros r' Hok.
      pose proof (rowschema_safeParse_Ok ver r r' f Hok) as Hp.
      rewrite (bounded_field_schema f Hf), parse_coerce_number_min0 in Hp.
      destruct (Zod.is_number ver _); [| done].
      destruct (Js.lt _ _); [done |]. by injection Hp as <-.
  - apply is_number_versions.
  - intros f x Hf Hx _ Hlt. rewrite (bounded_field_issues ver f r Hf). cbv zeta.
    rewrite Hx. cbn [Js.Number]. by rewrite Hlt.
  - intros f x Hf Hx Hlt. rewrite (bounded_field_issues ver f r Hf). cbv zeta.
    rewrite Hx. cbn [Js.Number]. by rewrite Hlt.
  - intros z. pose proof (lit_sign z) as Hs. split.
    + by destruct (Js.lit z).
    + intros Hz. rewrite (lt_zero_sign _ _ Hs).
      by rewrite (proj2 (Z.ltb_ge z 0) Hz).
  - intros f Hf Hv. split.
    + rewrite (bounded_field_issues ver f r Hf). cbv zeta. rewrite Hv.
      by destruct ver.
    + intros r' Hok.
      pose proof (rowschema_safeParse_Ok ver r r' f Hok) as Hp.
      rewrite (bounded_field_schema f Hf), parse_coerce_number_min0, Hv in Hp.
      destruct ver; by injection Hp as <-.
  - intros f sg ip fp Hf Hip Hfp Hne Hv n. unfold n. rewrite Hv.
    pose proof (decimal_text_sign sg ip fp Hip Hfp Hne) as Hs.
    rewrite (bounded_field_issues ver f r Hf). cbv zeta. rewrite Hv.
    rewrite (lt_zero_sign _ _ Hs).
    set (m := Js.Number (Js.JStr (decimal_text sg ip fp))) in *.
    split; [by destruct m | done].
  - intros Hu. split.
    + by rewrite manualMarineDistance_issues, Hu.
    + intros r' Hok. by rewrite (manualMarineDistance_parsed ver r r' Hok), Hu.
  - intros n Hu Hlt. split.
    + rewrite manualMarineDistance_issues. fold n.
      by destruct (manualMarineDistance r).
    + intros r' Hok. rewrite (manualMarineDistance_parsed ver r r' Hok). fold n.
      by destruct (manualMarineDistance r).
  - intros sg ip fp Hsg Hip Hfp Hne Hv n. unfold n. rewrite Hv.
    pose proof (decimal_text_sign sg ip fp Hip Hfp Hne) as Hs. rewrite Hsg in Hs.
    rewrite manualMarineDistance_issues, Hv, (lt_zero_sign _ _ Hs).
    set (m := Js.Number (Js.JStr (decimal_text sg ip fp))) in *.
    split_and!; [by destruct m | done | done].
Qed.

(** What the schema makes of some values of a bounded field. *)
Example bounded_field_samples (ver : Zod.version) :
  let check v := Zod.parse ver (field_schema Field.quantity)
                   (field_path Field.quantity) v in
  check (Js.JNum (Js.lit 20)) = Zod.Ok (Js.JNum (Js.lit 20))
  /\ check (Js.JStr "20") = Zod.Ok (Js.JNum (Js.lit 20))
  /\ check (Js.JStr "12.5") = Zod.Ok (Js.JNum (S754_finite false 7036874417766400 (-49)))
  /\ check (Js.JStr EmptyString) = Zod.Ok (Js.JNum (Js.lit 0))
  /\ check (Js.JStr "   ") = Zod.Ok (Js.JNum (Js.lit 0))
  /\ check Js.JNull = Zod.Ok (Js.JNum (Js.lit 0))
  /\ check (Js.JStr "-5")
     = Zod.Err [issue_at Zod.too_small (field_path Field.quantity)]
  /\ check (Js.JNum (Js.lit (-1)))
     = Zod.Err [issue_at Zod.too_small (field_path Field.quantity)]
  /\ check (Js.JStr "-0.25")
     = Zod.Err [issue_at Zod.too_small (field_path Field.quantity)]
  /\ check (Js.JStr "abc")
     = Zod.Err [issue_at Zod.invalid_type (field_path Field.quantity)]
  /\ check (Js.JStr "12px")
     = Zod.Err [issue_at Zod.invalid_type (field_path Field.quantity)]
  /\ check Js.JUndefined
     = Zod.Err [issue_at Zod.invalid_type (field_path Field.quantity)].
Proof. destruct ver; repeat split; vm_compute; reflexivity. Qed.

(** A numeral of 310 digits overflows to [Infinity]: zod 3 takes it,
    zod 4 raises [invalid_type]. A decimal numeral passes on
    [manualMarineDistance] under both. *)
Example numeric_overflow_samples :
  let huge := Js.JStr (String.concat EmptyString (replicate 310 "9")) in
  let check ver v := Zod.parse ver (field_schema Field.quantity)
                       (field_path Field.quantity) v in
  let check_marine ver v := Zod.parse ver (field_schema Field.manualMarineDistance)
                              (field_path Field.manualMarineDistance) v in
  Js.Number huge = Js.Infinity false
  /\ check Zod.v3 huge = Zod.Ok (Js.JNum (Js.Infinity false))
  /\ check Zod.v4 huge
     = Zod.Err [issue_at Zod.invalid_type (field_path Field.quantity)]
  /\ check Zod.v4 (Js.JNum (Js.Infinity false))
     = Zod.Err [issue_at Zod.invalid_type (field_path Field.quantity)]
  /\ check_marine Zod.v3 (Js.JStr "12.5")
     = Zod.Ok (Js.JNum (S754_finite false 7036874417766400 (-49)))
  /\ check_marine Zod.v4 (Js.JStr "12.5")
     = Zod.Ok (Js.JNum (S754_finite false 7036874417766400 (-49)))
  /\ check_marine Zod.v4 (Js.JStr "abc")
     = Zod.Err [issue_at Zod.invalid_type (field_path Field.manualMarineDistance)].
Proof. repeat split; vm_compute; reflexivity. Qed.

(** The claim of C2 fails twice: the empty string, which is no numeral,
    passes on [quantity] as 0, and [manualMarineDistance], whose schema
    has no lower bound, takes the negative [-5]; the row is accepted. *)
Lemma numeric_fields_validation_counterexample :
  let cleared := row_set Field.quantity (Js.JStr EmptyString) sample_row in
  let negative := row_set Field.manualMarineDistance (Js.JStr "-5") sample_row in
  (field_issues Zod.v3 Field.quantity cleared = []
   /\ field_issues Zod.v4 Field.quantity cleared = []
   /\ rowschema_safeParse Zod.v3 cleared
      = Zod.Ok (row_set Field.quantity (Js.JNum (Js.lit 0)) sample_row))
  /\
  (field_issues Zod.v3 Field.manualMarineDistance negative = []
   /\ field_issues Zod.v4 Field.manualMarineDistance negative = []
   /\ rowschema_safeParse Zod.v3 negative
      = Zod.Ok (row_set Field.manualMarineDistance (Js.JNum (Js.lit (-5))) sample_row)
   /\ Js.lt (Js.lit (-5)) (Js.lit 0) = true).
Proof. repeat split; vm_compute; reflexivity. Qed.

(** ** Field edits and the calculator's parameters *)

Section Edits.

Variable cat : Catalogue.
Variable calculateGreenMark : Form.values -> Output.t.
Variable Number_toString : Js.number -> string.

Lemma row_set_same (f : Field.t) (v : Js.JsVal) (r : InputRow) :
  row_set f v r = r <-> row_get f r = v.
Proof.
  split.
  - intros H. by rewrite <- H, row_get_set_eq.
  - intros <-. apply row_ext. intros g. rewrite row_get_set.
    case_bool_decide; by subst.
Qed.

(** C1 (amended). An edit of a field of an existing row writes the value
    as entered into the form values that [watch] returns and the output
    is computed from, for every value: nothing is validated on the way
    and nothing is held back. The calculator's parameters stay as they
    were only when the value is the one the field already held. *)
Theorem field_edit_reaches_calculator (s : State) (index : nat) (f : Field.t)
    (v : Js.JsVal) (r : InputRow) :
  Form.rows (form s) !! index = Some r ->
  let s' := step cat calculateGreenMark Number_toString s (Field_onChange (Form.row_name index f) v) in
  calculatorParameters s'
  = {| Form.rows := <[index := row_set f v r]> (Form.rows (form s));
       Form.gfa := Form.gfa (form s);
       Form.referenceValue := Form.referenceValue (form s) |}
  /\ Form.get (Form.row_name index f) (calculatorParameters s') = v
  /\ output calculateGreenMark s' = calculateGreenMark (calculatorParameters s')
  /\ (calculatorParameters s' = calculatorParameters s <-> row_get f r = v).
Proof.
  intros H s'.
  assert (Hlt : (index < length (Form.rows (form s)))%nat) by by eapply lookup_lt_Some.
  assert (Hp : calculatorParameters s'
               = {| Form.rows := <[index := row_set f v r]> (Form.rows (form s));
                    Form.gfa := Form.gfa (form s);
                    Form.referenceValue := Form.referenceValue (form s) |}).
  { unfold s', calculatorParameters, Form.watch. simpl.
    by rewrite (set_row_in_range _ _ _ _ r H). }
  split_and!.
  - done.
  - rewrite Hp. simpl. rewrite list_lookup_insert_eq by done. apply row_get_set_eq.
  - done.
  - rewrite Hp. unfold calculatorParameters, Form.watch. split.
    + intros Heq. apply (f_equal Form.rows) in Heq. simpl in Heq.
      apply (f_equal (fun l => l !! index)) in Heq.
      rewrite list_lookup_insert_eq, H in Heq by done.
      injection Heq as Heq. by apply row_set_same.
    + intros Hv. apply row_set_same in Hv. rewrite Hv.
      rewrite list_insert_id by done. by destruct (form s).
Qed.

End Edits.

Lemma field_edit_reaches_calculator_sample :
  let s' := step sample_catalogue (fun _ => sample_output) (fun _ => EmptyString)
              sample_state
              (Field_onChange (Form.row_name 0 Field.quantity) (Js.JStr "-5")) in
  calculatorParameters s'
  = {| Form.rows := <[0%nat := row_set Field.quantity (Js.JStr "-5") sample_row]>
                      (Form.rows (form sample_state));
       Form.gfa := Form.gfa (form sample_state);
       Form.referenceValue := Form.referenceValue (form sample_state) |}
  /\ Form.get (Form.row_name 0 Field.quantity) (calculatorParameters s') = Js.JStr "-5"
  /\ output (fun _ => sample_output) s' = sample_output
  /\ (calculatorParameters s' = calculatorParameters sample_state
      <-> row_get Field.quantity sample_row = Js.JStr "-5").
Proof.
  apply (field_edit_reaches_calculator sample_catalogue (fun _ => sample_output)
           (fun _ => EmptyString) sample_state 0 Field.quantity (Js.JStr "-5")
           sample_row).
  reflexivity.
Defined.

(** The claim of C1 fails on the default form: typing [-5] into the
    quantity of the first row gives a row the schema rejects, and the
    parameters the output is computed from hold that very value. *)
Lemma invalid_edit_reaches_calculator :
  let s' := step sample_catalogue (fun _ => sample_output) (fun _ => EmptyString)
              sample_state
              (Field_onChange (Form.row_name 0 Field.quantity) (Js.JStr "-5")) in
  (forall r, Form.rows (calculatorParameters s') !! 0%nat = Some r ->
             quantity r = Js.JStr "-5"
             /\ Zod.success (rowschema_safeParse Zod.v3 r) = false
             /\ Zod.success (rowschema_safeParse Zod.v4 r) = false
             /\ field_issues Zod.v3 Field.quantity r
                = [issue_at Zod.too_small (field_path Field.quantity)])
  /\ Form.rows (calculatorParameters s') !! 0%nat
     = Some (row_set Field.quantity (Js.JStr "-5") sample_row)
  /\ calculatorParameters s' ≠ calculatorParameters sample_state.
Proof.
  split_and!.
  - intros r [= <-]. repeat split; vm_compute; reflexivity.
  - reflexivity.
  - intros Heq. apply (f_equal (fun fv => Form.get (Form.row_name 0 Field.quantity) fv)) in Heq.
    vm_compute in Heq. discriminate Heq.
Qed.

(** C10 (amended). The schema of [quantity], [internationalRoadDistance]
    and [localRoadDistance] accepts the empty string and coerces it to 0
    without an issue on the field; clearing such an input of an existing
    row leaves the empty string itself in the form values the calculator
    reads, the 0 being the validator's result only. *)
Theorem cleared_field_validates_as_zero (ver : Zod.version) (fv : Form.values)
    (index : nat) (r : InputRow) :
  Form.rows fv !! index = Some r ->
  Forall (fun f =>
      let fv' := Form.onChange (Form.row_name index f) (Js.JStr EmptyString) fv in
      Form.get (Form.row_name index f) (Form.watch fv') = Js.JStr EmptyString
      /\ Form.rows (Form.watch fv') !! index = Some (row_set f (Js.JStr EmptyString) r)
      /\ field_issues ver f (row_set f (Js.JStr EmptyString) r) = []
      /\ Zod.parse ver (field_schema f) (field_path f) (Js.JStr EmptyString)
         = Zod.Ok (Js.JNum (Js.lit 0))
      /\ (forall r', rowschema_safeParse ver (row_set f (Js.JStr EmptyString) r) = Zod.Ok r' ->
                     row_get f r' = Js.JNum (Js.lit 0)))
    bounded_fields.
Proof.
  intros H. apply Forall_forall. intros f Hf fv'.
  assert (Hlt : (index < length (Form.rows fv))%nat) by by eapply lookup_lt_Some.
  assert (Hrow : Form.rows (Form.watch fv') !! index = Some (row_set f (Js.JStr EmptyString) r)).
  { unfold fv', Form.watch, Form.onChange. simpl. by apply set_row_lookup. }
  assert (Hparse : Zod.parse ver (field_schema f) (field_path f) (Js.JStr EmptyString)
                   = Zod.Ok (Js.JNum (Js.lit 0))).
  { rewrite (bounded_field_schema f Hf). by destruct ver. }
  split_and!.
  - unfold Form.get. by rewrite Hrow, row_get_set_eq.
  - done.
  - rewrite field_issues_own, row_get_set_eq. unfold field_path in Hparse.
    by rewrite Hparse.
  - done.
  - intros r' Hok. pose proof (rowschema_safeParse_Ok ver _ r' f Hok) as Hp.
    rewrite row_get_set_eq, Hparse in Hp. by injection Hp as <-.
Qed.

Lemma cleared_field_validates_as_zero_sample :
  Forall (fun f =>
      let fv' := Form.onChange (Form.row_name 0 f) (Js.JStr EmptyString) sample_values in
      Form.get (Form.row_name 0 f) (Form.watch fv') = Js.JStr EmptyString
      /\ Form.rows (Form.watch fv') !! 0%nat = Some (row_set f (Js.JStr EmptyString) sample_row)
      /\ field_issues Zod.v3 f (row_set f (Js.JStr EmptyString) sample_row) = []
      /\ Zod.parse Zod.v3 (field_schema f) (field_path f) (Js.JStr EmptyString)
         = Zod.Ok (Js.JNum (Js.lit 0))
      /\ (forall r', rowschema_safeParse Zod.v3 (row_set f (Js.JStr EmptyString) sample_row)
                     = Zod.Ok r' ->
                     row_get f r' = Js.JNum (Js.lit 0)))
    bounded_fields.
Proof.
  apply (cleared_field_validates_as_zero Zod.v3 sample_values 0 sample_row).
  reflexivity.
Defined.

(** The claim of C10 fails where it speaks of the committed value:
    clearing the quantity of the first row of the default form leaves the
    empty string in the calculator's parameters, not the number 0. *)
Lemma cleared_field_holds_empty_string :
  let s' := step sample_catalogue (fun _ => sample_output) (fun _ => EmptyString)
              sample_state
              (Field_onChange (Form.row_name 0 Field.quantity) (Js.JStr EmptyString)) in
  Form.get (Form.row_name 0 Field.quantity) (calculatorParameters s') = Js.JStr EmptyString
  /\ Form.get (Form.row_name 0 Field.quantity) (calculatorParameters s')
     ≠ Js.JNum (Js.lit 0)
  /\ Zod.parse Zod.v3 (field_schema Field.quantity) (field_path Field.quantity)
       (Form.get (Form.row_name 0 Field.quantity) (calculatorParameters s'))
     = Zod.Ok (Js.JNum (Js.lit 0)).
Proof. split_and!; [reflexivity | discriminate | vm_compute; reflexivity]. Qed.

(** * Further properties of the program *)

(** ** Vehicle listings *)

Section VehicleListings.

Variable Mode : Type.
Variable includes : Mode -> string -> bool.

Lemma vehicles_of_mode_elem (name : string) (vehicles : list (Vehicle.t Mode))
    (x : string) :
  x ∈ vehicles_of_mode Mode includes name vehicles
  <-> exists v, v ∈ vehicles /\ Vehicle.vehicleId v = x
                /\ includes (Vehicle.mode v) name = true.
Proof.
  unfold vehicles_of_mode. rewrite unique_elem, list_elem_of_fmap. split.
  - intros (v & -> & Hv). apply list_elem_of_filter in Hv as [Hm Hin]. by exists v.
  - intros (v & Hin & <- & Hm). exists v. split; [done |].
    by apply list_elem_of_filter.
Qed.

(** X1. The marine and the road vehicle listings hold exactly the ids of
    the vehicles whose mode includes "Maritime", respectively "Road",
    each id once and in the order of its first such vehicle; a vehicle of
    both modes is offered in both listings, and a table without a vehicle
    of a mode gives an empty listing. *)
Theorem vehicle_listings_by_mode (vehicles : list (Vehicle.t Mode)) :
  (NoDup (marineVehicleIds Mode includes vehicles)
   /\ NoDup (roadVehicles Mode includes vehicles))
  /\ (forall x, x ∈ marineVehicleIds Mode includes vehicles
        <-> exists v, v ∈ vehicles /\ Vehicle.vehicleId v = x
                      /\ includes (Vehicle.mode v) "Maritime" = true)
  /\ (forall x, x ∈ roadVehicles Mode includes vehicles
        <-> exists v, v ∈ vehicles /\ Vehicle.vehicleId v = x
                      /\ includes (Vehicle.mode v) "Road" = true)
  /\ marineVehicleIds Mode includes vehicles
     = first_occurrences
         (map Vehicle.vehicleId
            (filter (fun v => includes (Vehicle.mode v) "Maritime" = true) vehicles))
  /\ roadVehicles Mode includes vehicles
     = first_occurrences
         (map Vehicle.vehicleId
            (filter (fun v => includes (Vehicle.mode v) "Road" = true) vehicles))
  /\ (forall v, v ∈ vehicles ->
        includes (Vehicle.mode v) "Maritime" = true ->
        includes (Vehicle.mode v) "Road" = true ->
        Vehicle.vehicleId v ∈ marineVehicleIds Mode includes vehicles
        /\ Vehicle.vehicleId v ∈ roadVehicles Mode includes vehicles)
  /\ ((forall v, v ∈ vehicles -> includes (Vehicle.mode v) "Maritime" = false) ->
      marineVehicleIds Mode includes vehicles = []).
Proof.
  unfold marineVehicleIds, roadVehicles. split_and!.
  - apply unique_NoDup.
  - apply unique_NoDup.
  - intros x. apply vehicles_of_mode_elem.
  - intros x. apply vehicles_of_mode_elem.
  - apply unique_spec.
  - apply unique_spec.
  - intros v Hin Hm Hr. split; apply vehicles_of_mode_elem; by exists v.
  - intros Hnone.
    destruct (vehicles_of_mode Mode includes "Maritime" vehicles) as [| x l] eqn:Heq;
      [done |].
    assert (Hx : x ∈ vehicles_of_mode Mode includes "Maritime" vehicles)
      by (rewrite Heq; by left).
    apply vehicles_of_mode_elem in Hx as (v & Hin & _ & Hm).
    by rewrite (Hnone v Hin) in Hm.
Qed.

End VehicleListings.

Example vehicle_listings_sample :
  marineVehicleIds (list string) sample_includes sample_vehicles
  = ["Bulk carrier"; "Ferry truck"]
  /\ roadVehicles (list string) sample_includes sample_vehicles
     = ["Heavy goods vehicle"; "Ferry truck"].
Proof. split; reflexivity. Qed.

(** ** The keys of the category map *)

(** X2. The category map has an entry for exactly the identifiers the
    component chooser offers: every offered identifier reads as the
    category of one of its table entries. An identifier outside the
    listing has no entry: it reads as [undefined], unless it names a
    member every object inherits from [Object.prototype], which is then
    what the read returns. *)
Theorem category_map_covers_component_listing (cat : Catalogue) (id : string) :
  (is_Some (componentIdToGreenmarkMap cat !! id) <-> id ∈ componentIds cat)
  /\ (id ∈ componentIds cat ->
      exists e, e ∈ component_entries cat /\ e.1 = id
                /\ componentIdToGreenmarkMap cat !! id = Some e.2
                /\ greenmark_get (componentIdToGreenmarkMap cat) id = e.2
                /\ greenmark_lookup (componentIdToGreenmarkMap cat) id
                   = Category_value e.2)
  /\ (id ∉ componentIds cat ->
      componentIdToGreenmarkMap cat !! id = None
      /\ greenmark_lookup (componentIdToGreenmarkMap cat) id
         = (if bool_decide (id ∈ Object_prototype_names) then Js.JObject id
            else Js.JUndefined)
      /\ (greenmark_lookup (componentIdToGreenmarkMap cat) id = Js.JUndefined
          <-> id ∉ Object_prototype_names)).
Proof.
  split_and!.
  - split.
    + intros [c Hc]. destruct (decide (id ∈ componentIds cat)) as [| Hnot]; [done |].
      by rewrite (componentIds_no_entry cat id Hnot) in Hc.
    + intros Hin. destruct (componentIds_entry cat id Hin) as (e & _ & _ & ->).
      by eexists.
  - intros Hin. destruct (componentIds_entry cat id Hin) as (e & He & Hid & Hmap).
    destruct (greenmark_lookup_entry _ _ _ Hmap) as [Hread Hget].
    exists e. by split_and!.
  - intros Hnot. pose proof (componentIds_no_entry cat id Hnot) as Hmap.
    rewrite (greenmark_lookup_no_entry _ _ Hmap). split_and!; try done.
    by case_bool_decide.
Qed.

(** X3. An identifier that only the global table carries resolves to the
    category of a global entry (the last one with the identifier); when
    its global entries agree on a category, that is the answer. *)
Theorem global_entry_without_country_entry (cat : Catalogue) (id : string) :
  id ∈ map Component.componentId (globalComponents cat) ->
  id ∉ map CountryComponent.componentId (countryComponents cat) ->
  (exists c, c ∈ globalComponents cat
             /\ Component.componentId c = id
             /\ componentIdToGreenmarkMap cat !! id
                = Some (Component.greenMarkCategory c)
             /\ greenmark_lookup (componentIdToGreenmarkMap cat) id
                = Category_value (Component.greenMarkCategory c))
  /\ (forall k, (forall c, c ∈ globalComponents cat ->
                           Component.componentId c = id ->
                           Component.greenMarkCategory c = k) ->
                greenmark_get (componentIdToGreenmarkMap cat) id = k
                /\ greenmark_lookup (componentIdToGreenmarkMap cat) id
                   = Category_value k).
Proof.
  intros Hg Hc.
  set (gentries := map (fun c => (Component.componentId c,
                                   Component.greenMarkCategory c))
                       (globalComponents cat)).
  set (centries := map (fun c => (CountryComponent.componentId c,
                                   CountryComponent.greenMarkCategory c))
                       (countryComponents cat)).
  assert (Hcn : last_entry id centries = None).
  { apply last_entry_None. unfold centries. by rewrite map_map. }
  assert (Hgin : id ∈ map fst gentries).
  { unfold gentries. by rewrite map_map. }
  destruct (last_entry_Some id gentries Hgin) as (e & He & Hid & Hl).
  assert (Hlookup : componentIdToGreenmarkMap cat !! id = Some e.2).
  { rewrite greenmark_map_lookup. unfold component_entries.
    fold gentries centries. by rewrite last_entry_app, Hcn. }
  destruct (greenmark_lookup_entry _ _ _ Hlookup) as [Hread Hget].
  apply list_elem_of_fmap in He as (c & -> & Hcin). simpl in *.
  split.
  - by exists c.
  - intros k Hall. rewrite Hread, Hget. by rewrite (Hall c Hcin Hid).
Qed.

Lemma global_entry_without_country_entry_sample :
  (exists c, c ∈ globalComponents sample_catalogue
             /\ Component.componentId c = "Timber"
             /\ componentIdToGreenmarkMap sample_catalogue !! "Timber"
                = Some (Component.greenMarkCategory c)
             /\ greenmark_lookup (componentIdToGreenmarkMap sample_catalogue) "Timber"
                = Category_value (Component.greenMarkCategory c))
  /\ (forall k, (forall c, c ∈ globalComponents sample_catalogue ->
                           Component.componentId c = "Timber" ->
                           Component.greenMarkCategory c = k) ->
                greenmark_get (componentIdToGreenmarkMap sample_catalogue) "Timber" = k
                /\ greenmark_lookup (componentIdToGreenmarkMap sample_catalogue) "Timber"
                   = Category_value k).
Proof.
  apply (global_entry_without_country_entry sample_catalogue "Timber");
    by_computation.
Defined.

(** ** Which rows the schema accepts *)

Section RowValidity.

Variable ver : Zod.version.

Lemma success_no_issue (s : Zod.Schema) (p : list Zod.Key) (v : Js.JsVal) :
  Zod.success (Zod.parse ver s p v) = true
  <-> Zod.issues_of (Zod.parse ver s p v) = [].
Proof.
  split.
  - by destruct (Zod.parse ver s p v).
  - intros H. by rewrite (parse_no_issue ver s p v H).
Qed.

Lemma success_field (f : Field.t) (p : list Zod.Key) (v : Js.JsVal) :
  Zod.success (Zod.parse ver (field_schema f) p v) = field_ok ver f v.
Proof.
  destruct f;
    first
      [ change (field_schema _) with Zod.string_; by destruct v
      | change (field_schema _) with (Zod.min (Js.lit 0) Zod.coerce_number);
        rewrite parse_coerce_number_min0; unfold field_ok, coerces_nonneg, coerces;
        destruct (Zod.is_number ver _); [| done]; by destruct (Js.lt _ _)
      | change (field_schema _) with (Zod.optional Zod.coerce_number);
        rewrite parse_coerce_number_optional; unfold field_ok, coerces;
        destruct v; try done; simpl;
        match goal with |- context [Zod.is_number ver ?x] =>
          by destruct (Zod.is_number ver x) end
      | destruct v; try done; simpl; by case_bool_decide ].
Qed.

Lemma field_issues_ok (f : Field.t) (r : InputRow) :
  field_issues ver f r = [] <-> field_ok ver f (row_get f r) = true.
Proof.
  rewrite field_issues_own, <- success_no_issue. by rewrite success_field.
Qed.

Lemma safeParse_issues (r : InputRow) :
  Zod.issues_of (rowschema_safeParse ver r)
  = concat (map (fun f => field_issues ver f r) all_fields).
Proof.
  unfold all_fields. cbn [map]. rewrite !field_issues_own.
  unfold rowschema_safeParse, Zod.parse_object. rewrite issues_of_match.
  reflexivity.
Qed.

Lemma safeParse_success_issues (r : InputRow) :
  Zod.success (rowschema_safeParse ver r) = true
  <-> Zod.issues_of (rowschema_safeParse ver r) = [].
Proof.
  unfold rowschema_safeParse, Zod.parse_object.
  by destruct (concat _).
Qed.

Lemma safeParse_success (r : InputRow) :
  Zod.success (rowschema_safeParse ver r) = row_ok ver r.
Proof.
  apply eq_true_iff_eq. rewrite safeParse_success_issues, safeParse_issues.
  unfold row_ok. rewrite forallb_forall.
  split.
  - intros Hnil f Hf. apply field_issues_ok.
    destruct (field_issues ver f r) as [| i l] eqn:Hi; [done |].
    exfalso. assert (Hin : i ∈ concat (map (fun f => field_issues ver f r) all_fields)).
    { apply list_elem_of_In, in_concat. exists (field_issues ver f r). split.
      - apply in_map_iff. by exists f.
      - rewrite Hi. by left. }
    rewrite Hnil in Hin. by apply elem_of_nil in Hin.
  - intros Hall. apply concat_nil_Forall, Forall_forall. intros l Hl.
    apply list_elem_of_fmap in Hl as (f & -> & Hf).
    apply field_issues_ok, Hall. by apply list_elem_of_In.
Qed.

(** A field that fails its condition has one issue, at its own path. *)
Lemma parse_one_issue (s : Zod.Schema) (p : list Zod.Key) (v : Js.JsVal) :
  match s with
  | Zod.number_ _ (_ :: _ :: _) | Zod.optional (Zod.number_ _ (_ :: _ :: _))
  | Zod.optional (Zod.optional _) => False
  | _ => True
  end ->
  Zod.issues_of (Zod.parse ver s p v) = []
  \/ exists c, Zod.issues_of (Zod.parse ver s p v) = [issue_at c p].
Proof.
  assert (Hnum : forall coerce checks w,
    match checks with _ :: _ :: _ => False | _ => True end ->
    Zod.issues_of (Zod.parse ver (Zod.number_ coerce checks) p w) = []
    \/ exists c, Zod.issues_of (Zod.parse ver (Zod.number_ coerce checks) p w)
                 = [issue_at c p]).
  { intros coerce checks w Hc. simpl.
    assert (Hx : forall x,
      Zod.issues_of
        (if Zod.is_number ver x
         then match concat (map (Zod.check_issues p x) checks) with
              | [] => Zod.Ok (Js.JNum x)
              | i :: l => Zod.Err (i :: l)
              end
         else Zod.Err [ {| Zod.code := Zod.invalid_type; Zod.path := p |} ]) = []
      \/ exists c,
          Zod.issues_of
            (if Zod.is_number ver x
             then match concat (map (Zod.check_issues p x) checks) with
                  | [] => Zod.Ok (Js.JNum x)
                  | i :: l => Zod.Err (i :: l)
                  end
             else Zod.Err [ {| Zod.code := Zod.invalid_type; Zod.path := p |} ])
          = [issue_at c p]).
    { intros x. destruct (Zod.is_number ver x); [| right; by eexists].
      rewrite issues_of_match.
      destruct checks as [| [b] [| ? ?]]; [by left | | done]. simpl.
      destruct (Js.lt x b); [right; by eexists | by left]. }
    destruct coerce; [apply Hx |].
    destruct w; try (right; by eexists). apply Hx. }
  destruct s as [| members | coerce checks | inner]; intros Hs.
  - destruct v; simpl; first [by left | right; by eexists].
  - destruct v; simpl; try (right; by eexists).
    case_bool_decide; [by left | right; by eexists].
  - apply Hnum. by destruct checks as [| ? [| ? ?]].
  - destruct inner as [| members | coerce checks |]; [| | | done].
    + destruct v; simpl; first [by left | right; by eexists].
    + destruct v; simpl; try (by left); try (right; by eexists).
      case_bool_decide; [by left | right; by eexists].
    + destruct v; try (by left);
        apply (Hnum coerce checks); by destruct checks as [| ? [| ? ?]].
Qed.

(** X4. [rowschema] accepts a row exactly when every field meets its own
    condition: the five identifiers are strings, [units] and an existing
    [greenMarkCategory] are among their enumerated names, the three
    bounded numbers coerce to a number not below 0 and an existing
    [manualMarineDistance] coerces to a number. The issues on a field are
    those of the field's own schema on the field's value, whatever the
    other fields hold: none when the field meets its condition, one at
    the field's path when it does not. The issues of a row are those of
    its fields, in the order of the schema. *)
Theorem row_accepted_iff_fields_ok (r : InputRow) :
  Zod.success (rowschema_safeParse ver r) = row_ok ver r
  /\ (forall f, field_issues ver f r = [] <-> field_ok ver f (row_get f r) = true)
  /\ (forall f, field_ok ver f (row_get f r) = false ->
        exists c, field_issues ver f r = [issue_at c (field_path f)])
  /\ (forall f,
        field_issues ver f r
        = Zod.issues_of (Zod.parse ver (field_schema f) (field_path f) (row_get f r)))
  /\ (forall f g v, f ≠ g ->
        field_issues ver g (row_set f v r) = field_issues ver g r)
  /\ (forall f r', row_get f r' = row_get f r ->
        field_issues ver f r' = field_issues ver f r)
  /\ Zod.issues_of (rowschema_safeParse ver r)
     = concat (map (fun f => field_issues ver f r) all_fields).
Proof.
  split_and!.
  - apply safeParse_success.
  - intros f. apply field_issues_ok.
  - intros f Hf. rewrite field_issues_own.
    destruct (parse_one_issue (field_schema f) (field_path f) (row_get f r))
      as [Hnil | Hone]; [by destruct f | | done].
    exfalso. rewrite <- field_issues_own in Hnil.
    apply field_issues_ok in Hnil. by rewrite Hnil in Hf.
  - intros f. apply field_issues_own.
  - intros f g v Hne. rewrite !field_issues_own. by rewrite row_get_set_ne.
  - intros f r' Hsame. rewrite !field_issues_own. by rewrite Hsame.
  - apply safeParse_issues.
Qed.

Lemma parse_idempotent (s : Zod.Schema) (p : list Zod.Key) (v v' : Js.JsVal) :
  Zod.parse ver s p v = Zod.Ok v' -> Zod.parse ver s p v' = Zod.Ok v'.
Proof.
  induction s as [| members | coerce checks | inner IH] in v, v' |- *; simpl.
  - destruct v; try done. by intros [= <-].
  - destruct v; try done. case_bool_decide as Hm; [| done].
    intros [= <-]. by rewrite bool_decide_eq_true_2.
  - assert (Hnum : forall x,
      (if Zod.is_number ver x
       then match concat (map (Zod.check_issues p x) checks) with
            | [] => Zod.Ok (Js.JNum x)
            | i :: l => Zod.Err (i :: l)
            end
       else Zod.Err [ {| Zod.code := Zod.invalid_type; Zod.path := p |} ])
      = Zod.Ok v' ->
      v' = Js.JNum x /\ Zod.is_number ver x = true
      /\ concat (map (Zod.check_issues p x) checks) = []).
    { intros x. destruct (Zod.is_number ver x); [| done].
      destruct (concat _); [| done]. by intros [= <-]. }
    destruct coerce.
    + intros H. apply Hnum in H as (-> & Hn & Hc). simpl. by rewrite Hn, Hc.
    + destruct v; try done. intros H. apply Hnum in H as (-> & Hn & Hc).
      by rewrite Hn, Hc.
  - destruct v; try (by intros [= <-]); intros H;
      pose proof (IH _ _ H) as H'; by destruct v'.
Qed.

(** A schema without a number in it hands back the value it was given. *)
Lemma parse_keeps_value (s : Zod.Schema) (p : list Zod.Key) (v v' : Js.JsVal) :
  match s with
  | Zod.string_ | Zod.enum_ _ | Zod.optional (Zod.enum_ _) => True
  | _ => False
  end ->
  Zod.parse ver s p v = Zod.Ok v' -> v = v'.
Proof.
  destruct s as [| members | coerce checks | inner]; simpl; try done.
  - intros _. destruct v; try done. by intros [= <-].
  - intros _. destruct v; try done. case_bool_decide; [| done]. by intros [= <-].
  - destruct inner as [| members | |]; try done. intros _.
    destruct v; try done; simpl; try (by intros [= <-]).
    case_bool_decide; [| done]. by intros [= <-].
Qed.

Lemma safeParse_from_fields (r r' : InputRow) :
  (forall f, Zod.parse ver (field_schema f) (field_path f) (row_get f r)
             = Zod.Ok (row_get f r')) ->
  rowschema_safeParse ver r = Zod.Ok r'.
Proof.
  intros H.
  assert (Hs : Zod.success (rowschema_safeParse ver r) = true).
  { rewrite safeParse_success. unfold row_ok. apply forallb_forall. intros f _.
    rewrite <- (success_field f (field_path f)). by rewrite H. }
  destruct (rowschema_safeParse ver r) as [r'' |] eqn:Hr; [| done].
  f_equal. apply row_ext. intros f.
  pose proof (rowschema_safeParse_Ok ver r r'' f Hr) as Hf.
  rewrite H in Hf. by injection Hf.
Qed.

(** X5. What [rowschema] returns for a row it accepts is a fixed point:
    parsing the result again returns it unchanged. The fields edited
    through choosers come back as they went in, and
    [manualMarineDistance] comes back absent when it was absent, else as
    the number it coerces to. *)
Theorem accepted_row_is_fixed_point (r r' : InputRow) :
  rowschema_safeParse ver r = Zod.Ok r' ->
  rowschema_safeParse ver r' = Zod.Ok r'
  /\ (forall f, chooser_field f = true -> row_get f r' = row_get f r)
  /\ manualMarineDistance r'
     = (if is_undefined (manualMarineDistance r) then Js.JUndefined
        else Js.JNum (Js.Number (manualMarineDistance r)))
  /\ row_ok ver r' = true.
Proof.
  intros H.
  assert (Hfix : rowschema_safeParse ver r' = Zod.Ok r').
  { apply safeParse_from_fields. intros f.
    apply (parse_idempotent _ _ (row_get f r)).
    by apply rowschema_safeParse_Ok. }
  split_and!.
  - done.
  - intros f Hf. pose proof (rowschema_safeParse_Ok ver r r' f H) as Hp.
    symmetry. eapply parse_keeps_value; [| exact Hp].
    by destruct f.
  - pose proof (rowschema_safeParse_Ok ver r r' Field.manualMarineDistance H) as Hp.
    change (field_schema _) with (Zod.optional Zod.coerce_number) in Hp.
    rewrite parse_coerce_number_optional in Hp. simpl in Hp.
    destruct (manualMarineDistance r); simpl in *;
      first
        [ done
        | by injection Hp as <-
        | match type of Hp with context [Zod.is_number ver ?x] =>
            destruct (Zod.is_number ver x); [by injection Hp as <- | done] end ].
  - rewrite <- safeParse_success. by rewrite Hfix.
Qed.

(** X6. Whatever the first global component is called, the row
    [defaultInputRow()] returns passes [rowschema] under both versions of
    zod and comes back unchanged, and the "Add Row" buttons append exactly
    that row. *)
Theorem default_row_is_accepted (cat : Catalogue) (r : InputRow)
    (fv : Form.values) :
  defaultInputRow cat = Some r ->
  rowschema_safeParse ver r = Zod.Ok r
  /\ Form.rows (addRow_onClick cat fv) = Form.rows fv ++ [r]
  /\ greenMarkCategory r = Js.JUndefined
  /\ manualMarineDistance r = Js.JUndefined.
Proof.
  unfold defaultInputRow, addRow_onClick, defaultInputRow.
  destruct (globalComponents cat) as [| c l]; [done |]. intros [= <-].
  split_and!; try done. by destruct ver.
Qed.

End RowValidity.

Lemma accepted_row_is_fixed_point_sample :
  let r := row_set Field.quantity (Js.JStr "12.5") sample_row in
  let r' := row_set Field.quantity
              (Js.JNum (S754_finite false 7036874417766400 (-49))) sample_row in
  rowschema_safeParse Zod.v3 r' = Zod.Ok r'
  /\ (forall f, chooser_field f = true -> row_get f r' = row_get f r)
  /\ manualMarineDistance r'
     = (if is_undefined (manualMarineDistance r) then Js.JUndefined
        else Js.JNum (Js.Number (manualMarineDistance r)))
  /\ row_ok Zod.v3 r' = true.
Proof.
  apply (accepted_row_is_fixed_point Zod.v3
           (row_set Field.quantity (Js.JStr "12.5") sample_row)).
  vm_compute. reflexivity.
Defined.

Lemma default_row_is_accepted_sample :
  rowschema_safeParse Zod.v4 sample_row = Zod.Ok sample_row
  /\ Form.rows (addRow_onClick sample_catalogue sample_values)
     = Form.rows sample_values ++ [sample_row]
  /\ greenMarkCategory sample_row = Js.JUndefined
  /\ manualMarineDistance sample_row = Js.JUndefined.
Proof.
  apply (default_row_is_accepted Zod.v4 sample_catalogue sample_row sample_values).
  reflexivity.
Defined.

(** ** The form store: reads after writes *)

Lemma registered_lookup (index : nat) (f : Field.t) (fv : Form.values) :
  registered (Form.row_name index f) fv ->
  exists r, Form.rows fv !! index = Some r.
Proof. intros H. by apply lookup_lt_is_Some_2. Qed.

Lemma form_set_rows (index : nat) (f : Field.t) (v : Js.JsVal) (fv : Form.values)
    (r : InputRow) :
  Form.rows fv !! index = Some r ->
  Form.set (Form.row_name index f) v fv
  = {| Form.rows := <[index := row_set f v r]> (Form.rows fv);
       Form.gfa := Form.gfa fv; Form.referenceValue := Form.referenceValue fv |}.
Proof. intros H. simpl. by rewrite (set_row_in_range _ _ _ _ r H). Qed.

Lemma form_get_set_eq (n : Form.Name) (v : Js.JsVal) (fv : Form.values) :
  registered n fv -> Form.get n (Form.set n v fv) = v.
Proof.
  destruct n as [| | index f]; [done | done |]. intros Hr.
  destruct (registered_lookup index f fv Hr) as [r Hl].
  rewrite (form_set_rows _ _ _ _ r Hl). simpl.
  rewrite list_lookup_insert_eq by done. apply row_get_set_eq.
Qed.

Lemma form_get_set_ne (n n' : Form.Name) (v : Js.JsVal) (fv : Form.values) :
  registered n fv -> n ≠ n' -> Form.get n' (Form.set n v fv) = Form.get n' fv.
Proof.
  intros Hr Hne. destruct n as [| | index f].
  - by destruct n'.
  - by destruct n'.
  - destruct (registered_lookup index f fv Hr) as [r Hl].
    rewrite (form_set_rows _ _ _ _ r Hl).
    destruct n' as [| | j g]; [done | done |]. simpl.
    destruct (decide (index = j)) as [<- | Hj].
    + rewrite list_lookup_insert_eq by done. rewrite Hl.
      apply row_get_set_ne. congruence.
    + by rewrite list_lookup_insert_ne.
Qed.

Lemma form_set_registered (n n' : Form.Name) (v : Js.JsVal) (fv : Form.values) :
  registered n fv -> registered n' fv -> registered n' (Form.set n v fv).
Proof.
  intros Hr Hr'. destruct n as [| | index f]; [by destruct n' | by destruct n' |].
  destruct (registered_lookup index f fv Hr) as [r Hl].
  rewrite (form_set_rows _ _ _ _ r Hl).
  destruct n'; simpl in *; try done. by rewrite length_insert.
Qed.

Lemma form_ext (a b : Form.values) :
  length (Form.rows a) = length (Form.rows b) ->
  (forall n, registered n a -> Form.get n a = Form.get n b) -> a = b.
Proof.
  intros Hlen Hget. apply values_ext.
  - apply list_eq_same_length with (length (Form.rows a)); [done | done |].
    intros i x y Hi Hx Hy. apply row_ext. intros f.
    pose proof (Hget (Form.row_name i f) Hi) as H. simpl in H.
    by rewrite Hx, Hy in H.
  - by apply (Hget Form.gfa_name).
  - by apply (Hget Form.referenceValue_name).
Qed.

Lemma form_set_length (n : Form.Name) (v : Js.JsVal) (fv : Form.values) :
  registered n fv -> length (Form.rows (Form.set n v fv)) = length (Form.rows fv).
Proof.
  intros Hr. destruct n as [| | index f]; [done | done |].
  destruct (registered_lookup index f fv Hr) as [r Hl].
  rewrite (form_set_rows _ _ _ _ r Hl). simpl. apply length_insert.
Qed.

(** X7. Writes to the registered fields of the form behave like writes
    to a store: a field reads back the value written to it, every other
    field reads as before, the number of rows stays, a second write to a
    field replaces the first, writes to different fields commute, and
    writing back the value a field holds changes nothing. *)
Theorem form_store_laws (n n' : Form.Name) (v w : Js.JsVal) (fv : Form.values) :
  registered n fv -> registered n' fv ->
  Form.get n (Form.watch (Form.onChange n v fv)) = v
  /\ (n ≠ n' -> Form.get n' (Form.watch (Form.onChange n v fv)) = Form.get n' fv)
  /\ length (Form.rows (Form.onChange n v fv)) = length (Form.rows fv)
  /\ Form.onChange n v (Form.onChange n w fv) = Form.onChange n v fv
  /\ (n ≠ n' ->
      Form.onChange n v (Form.setValue n' w fv)
      = Form.setValue n' w (Form.onChange n v fv))
  /\ Form.onChange n (Form.get n fv) fv = fv.
Proof.
  intros Hr Hr'. unfold Form.onChange, Form.setValue, Form.watch.
  assert (Hread : forall m a u x,
    registered m a -> registered u a ->
    Form.get u (Form.set m x a) = if decide (m = u) then x else Form.get u a).
  { intros m a u x Hm Hu. destruct (decide (m = u)) as [<- | Hmu].
    - by apply form_get_set_eq.
    - by apply form_get_set_ne. }
  split_and!.
  - by apply form_get_set_eq.
  - intros Hne. by apply form_get_set_ne.
  - by apply form_set_length.
  - apply form_ext.
    + by rewrite !form_set_length by (first [done | by apply form_set_registered]).
    + intros m Hm.
      assert (Hm' : registered m fv).
      { destruct m; simpl in *; try done.
        by rewrite !form_set_length in Hm by (first [done | by apply form_set_registered]). }
      rewrite !Hread by (first [done | by apply form_set_registered]).
      by destruct (decide (n = m)).
  - intros Hne. apply form_ext.
    + by rewrite !form_set_length by (first [done | by apply form_set_registered]).
    + intros m Hm.
      assert (Hm' : registered m fv).
      { destruct m; simpl in *; try done.
        by rewrite !form_set_length in Hm by (first [done | by apply form_set_registered]). }
      rewrite !Hread by (first [done | by apply form_set_registered]).
      destruct (decide (n = m)), (decide (n' = m)); congruence.
  - apply form_ext.
    + by rewrite form_set_length.
    + intros m Hm.
      assert (Hm' : registered m fv).
      { destruct m; simpl in *; try done. by rewrite form_set_length in Hm. }
      rewrite Hread by done. destruct (decide (n = m)); by subst.
Qed.

Lemma form_store_laws_sample :
  let n := Form.row_name 0 Field.quantity in
  let n' := Form.row_name 0 Field.units in
  let v := Js.JStr "7" in
  let w := Js.JStr "kg" in
  Form.get n (Form.watch (Form.onChange n v sample_values)) = v
  /\ (n ≠ n' -> Form.get n' (Form.watch (Form.onChange n v sample_values))
                = Form.get n' sample_values)
  /\ length (Form.rows (Form.onChange n v sample_values))
     = length (Form.rows sample_values)
  /\ Form.onChange n v (Form.onChange n w sample_values)
     = Form.onChange n v sample_values
  /\ (n ≠ n' ->
      Form.onChange n v (Form.setValue n' w sample_values)
      = Form.setValue n' w (Form.onChange n v sample_values))
  /\ Form.onChange n (Form.get n sample_values) sample_values = sample_values.
Proof.
  apply (form_store_laws (Form.row_name 0 Field.quantity)
           (Form.row_name 0 Field.units) (Js.JStr "7") (Js.JStr "kg") sample_values);
    simpl; lia.
Defined.

(** ** Rows added and removed *)

(** X8. The delete button of row [index] takes out that row and no other:
    the rows before it keep their index, the rows after it move up by
    one, and the two form values beside the rows stay. On an index past
    the end nothing changes. *)
Theorem delete_removes_one_row (index : nat) (fv : Form.values) :
  let fv' := delete_onClick index fv in
  Form.gfa fv' = Form.gfa fv
  /\ Form.referenceValue fv' = Form.referenceValue fv
  /\ Form.rows fv' = take index (Form.rows fv) ++ drop (S index) (Form.rows fv)
  /\ (forall j, (j < index)%nat -> Form.rows fv' !! j = Form.rows fv !! j)
  /\ (forall j, (index <= j)%nat -> Form.rows fv' !! j = Form.rows fv !! S j)
  /\ ((index < length (Form.rows fv))%nat ->
      S (length (Form.rows fv')) = length (Form.rows fv))
  /\ ((length (Form.rows fv) <= index)%nat -> fv' = fv).
Proof.
  intros fv'. unfold fv', delete_onClick, Form.remove. simpl. split_and!.
  - done.
  - done.
  - apply delete_take_drop.
  - intros j Hj. by apply list_lookup_delete_lt.
  - intros j Hj. by apply list_lookup_delete_ge.
  - intros Hlt. rewrite length_delete by by apply lookup_lt_is_Some_2. lia.
  - intros Hge. rewrite delete_take_drop.
    rewrite take_ge by done. rewrite drop_ge by lia. rewrite app_nil_r.
    by destruct fv.
Qed.

(** X9. Deleting the row a copy or an "Add Row" has just appended gives
    back the form as it was, and so does deleting a row right after
    copying it when it was the last one. *)
Theorem append_then_delete_restores (cat : Catalogue) (index : nat)
    (fv : Form.values) :
  delete_onClick (length (Form.rows fv)) (copy_onClick index fv) = fv
  /\ delete_onClick (length (Form.rows fv)) (addRow_onClick cat fv) = fv
  /\ (forall r, delete_onClick (length (Form.rows fv)) (Form.append r fv) = fv)
  /\ (S index = length (Form.rows fv) ->
      delete_onClick index (copy_onClick index fv)
      = fv).
Proof.
  assert (Happ : forall r, delete_onClick (length (Form.rows fv)) (Form.append r fv) = fv).
  { intros r. unfold delete_onClick, Form.remove, Form.append. simpl.
    rewrite (delete_middle (Form.rows fv) [] r), app_nil_r. by destruct fv. }
  split_and!.
  - apply Happ.
  - unfold addRow_onClick. destruct (defaultInputRow cat); [apply Happ |].
    unfold delete_onClick, Form.remove. rewrite delete_take_drop.
    rewrite take_ge by done. rewrite drop_ge by lia. rewrite app_nil_r.
    by destruct fv.
  - apply Happ.
  - intros Hlast. unfold delete_onClick, Form.remove, copy_onClick, Form.append,
      spread_row, Form.watch. simpl.
    destruct (lookup_lt_is_Some_2 (Form.rows fv) index) as [r Hr]; [lia |].
    rewrite Hr.
    assert (Hsplit : Form.rows fv = take index (Form.rows fv) ++ [r]).
    { rewrite <- (take_drop index (Form.rows fv)) at 1. f_equal.
      rewrite (drop_S _ r index Hr). rewrite drop_ge by lia. done. }
    apply values_ext; [| done | done]. simpl.
    rewrite delete_take_drop, take_app_le by lia.
    rewrite Hlast, drop_app_length. by rewrite <- Hsplit.
Qed.

(** ** Invariants of the page *)

Section Traces.

Variable cat : Catalogue.
Variable calculateGreenMark : Form.values -> Output.t.
Variable Number_toString : Js.number -> string.

Lemma step_row_count (s : State) (e : Event) :
  rendered s e ->
  Z.of_nat (length (Form.rows (form (step cat calculateGreenMark Number_toString s e))))
  = Z.of_nat (length (Form.rows (form s))) + rows_delta cat e.
Proof.
  intros Hr. destruct e as [ch o | n v | index v | index | index | |];
    unfold step, with_form; cbn [form rows_delta].
  - lia.
  - unfold Form.onChange. rewrite form_set_length; [lia |]. by destruct n.
  - destruct (lookup_lt_is_Some_2 _ _ Hr) as [r Hl].
    rewrite (componentId_onValueChange_rows cat index v (form s) r Hl), length_insert.
    lia.
  - unfold copy_onClick, Form.append. cbn [Form.rows].
    rewrite length_app. simpl. lia.
  - unfold delete_onClick, Form.remove. cbn [Form.rows].
    rewrite length_delete by by apply lookup_lt_is_Some_2.
    simpl in Hr. lia.
  - unfold addRow_onClick. destruct (defaultInputRow cat); [| lia].
    unfold Form.append. cbn [Form.rows]. rewrite length_app. simpl. lia.
  - lia.
Qed.

(** X10. Along any sequence of events raised by the rendered page, the
    number of rows is the number at the start plus one for each copy and
    each "Add Row" and minus one for each delete: edits, choosers and
    the download leave it alone. *)
Theorem row_count_along_trace (es : list Event) (s : State) :
  trace_ok (step cat calculateGreenMark Number_toString) rendered s es ->
  Z.of_nat (length (Form.rows (form (run cat calculateGreenMark Number_toString s es))))
  = Z.of_nat (length (Form.rows (form s))) + sum_Z (map (rows_delta cat) es).
Proof.
  revert s. induction es as [| e es IH]; intros s.
  - intros _. unfold run, sum_Z. simpl. lia.
  - intros [He Hes]. unfold run in *. cbn [foldl map].
    rewrite (IH _ Hes), (step_row_count s e He).
    unfold sum_Z. cbn [foldr]. lia.
Qed.

Lemma row_ok_set (ver : Zod.version) (f : Field.t) (v : Js.JsVal) (r : InputRow) :
  row_ok ver r = true -> field_ok ver f v = true ->
  row_ok ver (row_set f v r) = true.
Proof.
  unfold row_ok. rewrite !forallb_forall. intros Hr Hv g Hg.
  rewrite row_get_set. case_bool_decide; [by subst | by apply Hr].
Qed.

Lemma chosen_value_ok (ver : Zod.version) (f : Field.t) (o : string) :
  chooser_field f = true -> chooser_option f o ->
  field_ok ver f (Js.JStr o) = true.
Proof.
  destruct f; try done; simpl; intros _ Ho; by apply bool_decide_eq_true_2.
Qed.

Lemma step_rows_ok (ver : Zod.version) (s : State) (e : Event) :
  all_rows_ok ver s -> rendered s e -> chosen cat e ->
  all_rows_ok ver (step cat calculateGreenMark Number_toString s e).
Proof.
  unfold all_rows_ok. intros Hok Hr Hc.
  destruct e as [ch o | n v | index v | index | index | |];
    unfold step, with_form; cbn [form]; try done.
  - destruct n as [| | index f]; [done | done |].
    destruct Hc as (Hf & o & -> & Ho).
    destruct (lookup_lt_is_Some_2 _ _ Hr) as [r Hl].
    unfold Form.onChange. rewrite (form_set_rows _ _ _ _ r Hl). cbn [Form.rows].
    apply Forall_insert; [done |]. apply row_ok_set.
    + by apply (Forall_lookup_1 _ _ _ _ Hok Hl).
    + by apply chosen_value_ok.
  - destruct (lookup_lt_is_Some_2 _ _ Hr) as [r Hl].
    rewrite (componentId_onValueChange_rows cat index v (form s) r Hl).
    apply Forall_insert; [done |]. apply row_ok_set; [apply row_ok_set |].
    + by apply (Forall_lookup_1 _ _ _ _ Hok Hl).
    + done.
    + destruct (componentIds_entry cat v Hc) as (e & _ & _ & Hmap).
      destruct (greenmark_lookup_entry _ _ _ Hmap) as [-> _].
      by destruct e.2 as [[] |].
  - destruct (lookup_lt_is_Some_2 _ _ Hr) as [r Hl].
    unfold copy_onClick, Form.append, spread_row, Form.watch. cbn [Form.rows].
    rewrite Hl.
    apply Forall_app. split; [done |]. constructor; [| constructor].
    by apply (Forall_lookup_1 _ _ _ _ Hok Hl).
  - unfold delete_onClick, Form.remove. cbn [Form.rows]. by apply Forall_delete.
  - unfold addRow_onClick, defaultInputRow.
    destruct (globalComponents cat) as [| c l]; [done |].
    unfold Form.append. cbn [Form.rows].
    apply Forall_app. split; [done |]. constructor; [| constructor].
    by destruct ver.
Qed.

(** X11. Choosers and buttons cannot make a row invalid: if every row
    passes [rowschema], it still does after any sequence of rendered
    events that are chooser selections (the component chooser, which
    hands on an identifier of [componentIds], with its cascade included,
    the catalogue's categories being the three the category map is typed
    with), copies, deletes, "Add Row", open and close transitions and
    downloads. A row that stops passing has had a value typed into one of
    its number inputs. *)
Theorem choosers_keep_rows_valid (ver : Zod.version) (es : list Event) (s : State) :
  all_rows_ok ver s ->
  trace_ok (step cat calculateGreenMark Number_toString)
           (fun s e => rendered s e /\ chosen cat e) s es ->
  Forall (fun r => Zod.success (rowschema_safeParse ver r) = true)
         (Form.rows (form (run cat calculateGreenMark Number_toString s es))).
Proof.
  intros Hok Htr.
  assert (Hall : all_rows_ok ver (run cat calculateGreenMark Number_toString s es)).
  { revert s Hok Htr. induction es as [| e es IH]; intros s Hok Htr; [done |].
    destruct Htr as [[Hr Hc] Hes]. apply (IH _ (step_rows_ok ver s e Hok Hr Hc) Hes). }
  eapply Forall_impl; [exact Hall |]. intros r Hr. by rewrite safeParse_success.
Qed.

End Traces.

Lemma row_count_along_trace_sample :
  Z.of_nat (length (Form.rows (form (run sample_catalogue (fun _ => sample_output)
                                         (fun _ => EmptyString)
                                         sample_state sample_trace))))
  = Z.of_nat (length (Form.rows (form sample_state)))
    + sum_Z (map (rows_delta sample_catalogue) sample_trace).
Proof.
  apply (row_count_along_trace sample_catalogue (fun _ => sample_output)
           (fun _ => EmptyString) sample_trace sample_state).
  simpl. repeat split; lia.
Defined.

Lemma choosers_keep_rows_valid_sample :
  Forall (fun r => Zod.success (rowschema_safeParse Zod.v3 r) = true)
         (Form.rows (form (run sample_catalogue (fun _ => sample_output)
                               (fun _ => EmptyString) sample_state sample_trace))).
Proof.
  apply (choosers_keep_rows_valid sample_catalogue (fun _ => sample_output)
           (fun _ => EmptyString) Zod.v3 sample_trace sample_state).
  - repeat constructor.
  - simpl. repeat split;
      first [ lia | by_computation
            | exists "kg"; split; [reflexivity | by_computation] ].
Defined.

Example sample_trace_rows :
  map (fun r => (componentId r, greenMarkCategory r, units r))
      (Form.rows (form (run sample_catalogue (fun _ => sample_output)
                            (fun _ => EmptyString) sample_state sample_trace)))
  = [ (Js.JStr "Rebar", Js.JStr "Steel", Js.JStr "kg");
      (Js.JStr "Concrete C30", Js.JUndefined, Js.JStr "tonne") ].
Proof. reflexivity. Qed.

(** ** What a chooser renders *)

Lemma open_items_values (opts : SelectInput.Options) :
  map SelectInput.item_value (SelectInput.open_items opts) = option_values opts.
Proof.
  destruct opts as [l | l]; simpl; rewrite map_map; simpl; [apply map_id | done].
Qed.

Lemma open_items_labelled_find (l : list (string * string)) (v : string) :
  list_find (fun it => SelectInput.item_value it = v)
    (SelectInput.open_items (SelectInput.Labelled l))
  = prod_map id (fun o : string * string =>
                   {| SelectInput.item_value := o.1;
                      SelectInput.children := Some o.2;
                      SelectInput.disabled := false |})
      <$> list_find (fun o : string * string => o.1 = v) l.
Proof.
  exact (list_find_fmap
           (fun o : string * string =>
              {| SelectInput.item_value := o.1; SelectInput.children := Some o.2;
                 SelectInput.disabled := false |})
           (fun it => SelectInput.item_value it = v) l).
Qed.

Lemma closed_label_first_open (opts : SelectInput.Options) (v : string) :
  v ∈ option_values opts ->
  exists i it,
    list_find (fun it => SelectInput.item_value it = v) (SelectInput.open_items opts)
    = Some (i, it)
    /\ SelectInput.closed_label opts v = SelectInput.children it.
Proof.
  intros Hin.
  assert (Hfind : is_Some (list_find (fun it => SelectInput.item_value it = v)
                             (SelectInput.open_items opts))).
  { rewrite <- open_items_values in Hin.
    apply list_elem_of_fmap in Hin as (it & Hv & Hit).
    by apply (list_find_elem_of _ _ it). }
  destruct Hfind as [[i it] Hf]. exists i, it. split; [done |].
  destruct opts as [l | l].
  - simpl in *. apply list_find_Some in Hf as (Hl & Hv & _).
    apply list_elem_of_lookup_2, list_elem_of_fmap in Hl as (o & -> & Hol).
    simpl in *. subst o. destruct l; [by apply elem_of_nil in Hin | done].
  - rewrite open_items_labelled_find in Hf. simpl.
    destruct (list_find _ l) as [[j o] |]; [| done].
    simpl in Hf. by injection Hf as <- <-.
Qed.

(** X12. What [SelectInput] renders. Open, it lists one enabled item per
    option, in order, each with a label. Closed, it lists nothing when
    the value is absent or empty, and otherwise the single disabled item
    of the value; for a value among the options that item carries the
    label the first option of that value has in the open list, for a
    value outside labelled options it has no label, and over a non-empty
    list of string options it shows the value itself. *)
Theorem chooser_rendering (p : SelectInput.Props) :
  let shown := SelectInput.content (SelectInput.render true p) in
  let hidden := SelectInput.content (SelectInput.render false p) in
  map SelectInput.item_value shown = option_values (SelectInput.options p)
  /\ Forall (fun it => SelectInput.disabled it = false
                       /\ is_Some (SelectInput.children it)) shown
  /\ (hidden = [] <->
      SelectInput.value p = None \/ SelectInput.value p = Some EmptyString)
  /\ (forall v, SelectInput.value p = Some v -> v ≠ EmptyString ->
        hidden = [ {| SelectInput.item_value := v;
                      SelectInput.children :=
                        SelectInput.closed_label (SelectInput.options p) v;
                      SelectInput.disabled := true |} ])
  /\ (forall v, v ∈ option_values (SelectInput.options p) ->
        exists i it,
          list_find (fun it => SelectInput.item_value it = v) shown = Some (i, it)
          /\ SelectInput.closed_label (SelectInput.options p) v
             = SelectInput.children it)
  /\ (forall v l, SelectInput.options p = SelectInput.Labelled l ->
        v ∉ map fst l ->
        SelectInput.closed_label (SelectInput.options p) v = None)
  /\ (forall v c l, SelectInput.options p = SelectInput.Strings (c :: l) ->
        SelectInput.closed_label (SelectInput.options p) v = Some v).
Proof.
  intros shown hidden. unfold shown, hidden, SelectInput.render. simpl.
  split_and!.
  - apply open_items_values.
  - destruct (SelectInput.options p) as [l | l]; simpl;
      apply Forall_forall; intros it Hit;
      apply list_elem_of_fmap in Hit as (o & -> & _); by split.
  - unfold SelectInput.closed_items.
    destruct (SelectInput.value p) as [v |]; [| split; [by left | done]].
    case_bool_decide as Hv.
    + subst v. split; [by right | done].
    + split; [done |]. intros [H | [= H]]; done.
  - intros v Hv Hne. unfold SelectInput.closed_items. rewrite Hv.
    by rewrite bool_decide_eq_false_2.
  - intros v Hin. by apply closed_label_first_open.
  - intros v l -> Hnot. simpl.
    destruct (list_find _ l) as [[j o] |] eqn:Hf; [| done].
    apply list_find_Some in Hf as (Hl & Ho & _). exfalso. apply Hnot.
    apply list_elem_of_fmap. exists o. split; [done |].
    by apply list_elem_of_lookup_2 in Hl.
  - by intros v c l ->.
Qed.

(** ** The reference value chooser *)

Section ReferenceChooser.

Variable Number_toString : Js.number -> string.

(** X13. The reference value chooser offers one option per row of the
    table, in order, valued by the printed number. When an option is
    picked the form holds that text, and the closed chooser shows the
    label of the first row of the table that prints the same, whatever
    the field held when it was mounted: of two building types with one
    reference value, the label of the first is shown whichever was
    picked. *)
Theorem reference_chooser_shows_first_match (cat : Catalogue) (s : State)
    (mounted : Js.JsVal) (i : nat) (rv : ReferenceValue.t) (ph : string) :
  referenceValues cat !! i = Some rv ->
  Number_toString (ReferenceValue.referenceValue rv) ≠ EmptyString ->
  opened s Form.referenceValue_name = false ->
  let picked := Number_toString (ReferenceValue.referenceValue rv) in
  let s' := with_form s (Form.onChange Form.referenceValue_name (Js.JStr picked)
                           (form s)) in
  option_values (SelectInput.Labelled (referenceValueOptions Number_toString cat))
  = map (fun r => Number_toString (ReferenceValue.referenceValue r))
        (referenceValues cat)
  /\ Form.referenceValue (calculatorParameters s') = Js.JStr picked
  /\ exists j first,
       (j <= i)%nat
       /\ referenceValues cat !! j = Some first
       /\ Number_toString (ReferenceValue.referenceValue first) = picked
       /\ (forall k r, (k < j)%nat -> referenceValues cat !! k = Some r ->
             Number_toString (ReferenceValue.referenceValue r) ≠ picked)
       /\ SelectInput.content
            (chooser Number_toString mounted s' Form.referenceValue_name
               (SelectInput.Labelled (referenceValueOptions Number_toString cat)) ph)
          = [ {| SelectInput.item_value := picked;
                 SelectInput.children :=
                   Some (referenceValueOption Number_toString first).2;
                 SelectInput.disabled := true |} ].
Proof.
  intros Hi Hne Hclosed picked s'. split_and!.
  - unfold referenceValueOptions. simpl. by rewrite map_map.
  - done.
  - set (opts := referenceValueOptions Number_toString cat).
    assert (Hopt : opts !! i = Some (referenceValueOption Number_toString rv)).
    { unfold opts, referenceValueOptions. by rewrite list_lookup_fmap, Hi. }
    destruct (list_find_elem_of (fun o : string * string => o.1 = picked) opts
                (referenceValueOption Number_toString rv))
      as [[j o] Hf]; [by eapply list_elem_of_lookup_2 | done |].
    pose proof Hf as Hf'. apply list_find_Some in Hf' as (Hj & Ho & Hbefore).
    unfold opts, referenceValueOptions in Hj. rewrite list_lookup_fmap in Hj.
    destruct (referenceValues cat !! j) as [first |] eqn:Hfirst; [| done].
    injection Hj as <-.
    exists j, first. split_and!.
    + destruct (decide (j <= i)%nat) as [| Hgt]; [done |].
      exfalso. apply (Hbefore i (referenceValueOption Number_toString rv));
        [done | lia | done].
    + done.
    + done.
    + intros k r Hk Hr Hsame.
      apply (Hbefore k (referenceValueOption Number_toString r)); [| done | done].
      unfold opts, referenceValueOptions. by rewrite list_lookup_fmap, Hr.
    + unfold chooser, SelectInput.render. simpl. rewrite Hclosed.
      unfold SelectInput.closed_items. simpl.
      rewrite bool_decide_eq_false_2 by done.
      fold opts. by rewrite Hf.
Qed.

End ReferenceChooser.

Lemma reference_chooser_shows_first_match_sample :
  let fmt := fun _ : Js.number => "1000" in
  let picked := "1000" in
  let s' := with_form sample_state
              (Form.onChange Form.referenceValue_name (Js.JStr picked)
                 (form sample_state)) in
  option_values (SelectInput.Labelled (referenceValueOptions fmt sample_catalogue_twins))
  = map (fun r => fmt (ReferenceValue.referenceValue r))
        (referenceValues sample_catalogue_twins)
  /\ Form.referenceValue (calculatorParameters s') = Js.JStr picked
  /\ exists j first,
       (j <= 1)%nat
       /\ referenceValues sample_catalogue_twins !! j = Some first
       /\ fmt (ReferenceValue.referenceValue first) = picked
       /\ (forall k r, (k < j)%nat ->
             referenceValues sample_catalogue_twins !! k = Some r ->
             fmt (ReferenceValue.referenceValue r) ≠ picked)
       /\ SelectInput.content
            (chooser fmt (Js.JNum (Js.lit 1000)) s' Form.referenceValue_name
               (SelectInput.Labelled (referenceValueOptions fmt sample_catalogue_twins))
               "Select an option")
          = [ {| SelectInput.item_value := picked;
                 SelectInput.children := Some (referenceValueOption fmt first).2;
                 SelectInput.disabled := true |} ].
Proof.
  apply (reference_chooser_shows_first_match (fun _ => "1000") sample_catalogue_twins
           sample_state (Js.JNum (Js.lit 1000)) 1
           {| ReferenceValue.buildingType := "Office";
              ReferenceValue.referenceValue := Js.lit 1000 |} "Select an option").
  - reflexivity.
  - discriminate.
  - reflexivity.
Defined.

Example reference_chooser_twins :
  SelectInput.content
    (chooser (fun _ => "1000") (Js.JNum (Js.lit 1000))
       (with_form sample_state
          (Form.onChange Form.referenceValue_name (Js.JStr "1000") (form sample_state)))
       Form.referenceValue_name
       (SelectInput.Labelled
          (referenceValueOptions (fun _ => "1000") sample_catalogue_twins))
       "Select an option")
  = [ {| SelectInput.item_value := "1000";
         SelectInput.children := Some "Residential (1000kgCO₂eq/m² GFA)";
         SelectInput.disabled := true |} ].
Proof. reflexivity. Qed.

(** ** The schema of the whole form *)

Section FormSchema.

Variable ver : Zod.version.

Lemma check_issues_under (p q : list Zod.Key) (x : Js.number) (c : Zod.NumberCheck) :
  Zod.check_issues (p ++ q) x c = map (issue_under p) (Zod.check_issues q x c).
Proof. destruct c as [b]. simpl. by destruct (Js.lt x b). Qed.

Lemma checks_issues_under (p q : list Zod.Key) (x : Js.number)
    (checks : list Zod.NumberCheck) :
  concat (map (Zod.check_issues (p ++ q) x) checks)
  = map (issue_under p) (concat (map (Zod.check_issues q x) checks)).
Proof.
  induction checks as [| c l IH]; [done |].
  cbn [map concat]. by rewrite map_app, check_issues_under, IH.
Qed.

(** Parsing below a path: the same issues, with the path in front. *)
Lemma parse_issues_under (s : Zod.Schema) (p q : list Zod.Key) (v : Js.JsVal) :
  Zod.issues_of (Zod.parse ver s (p ++ q) v)
  = map (issue_under p) (Zod.issues_of (Zod.parse ver s q v)).
Proof.
  induction s as [| members | coerce checks | inner IH] in v |- *; simpl.
  - by destruct v.
  - destruct v; try done. by case_bool_decide.
  - assert (Hnum : forall x,
      Zod.issues_of
        (if Zod.is_number ver x
         then match concat (map (Zod.check_issues (p ++ q) x) checks) with
              | [] => Zod.Ok (Js.JNum x)
              | i :: l => Zod.Err (i :: l)
              end
         else Zod.Err [ {| Zod.code := Zod.invalid_type; Zod.path := p ++ q |} ])
      = map (issue_under p)
          (Zod.issues_of
             (if Zod.is_number ver x
              then match concat (map (Zod.check_issues q x) checks) with
                   | [] => Zod.Ok (Js.JNum x)
                   | i :: l => Zod.Err (i :: l)
                   end
              else Zod.Err [ {| Zod.code := Zod.invalid_type; Zod.path := q |} ]))).
    { intros x. destruct (Zod.is_number ver x); [| done].
      by rewrite !issues_of_match, checks_issues_under. }
    destruct coerce; [apply Hnum |]. destruct v; try done.
  - destruct v; try done; apply IH.
Qed.

Lemma parse_object_issues_under (shape : list (Field.t * Zod.Schema))
    (p : list Zod.Key) (r : InputRow) :
  Zod.issues_of (Zod.parse_object ver shape p r)
  = map (issue_under p) (Zod.issues_of (Zod.parse_object ver shape [] r)).
Proof.
  unfold Zod.parse_object. rewrite !issues_of_match, !map_map. cbn [snd fst].
  induction shape as [| [f s] l IH]; [done |].
  cbn [map concat fst snd]. rewrite map_app, IH. f_equal.
  exact (parse_issues_under s p [Zod.Prop_key (Field.name f)] (row_get f r)).
Qed.

Lemma concat_imap_nil {A B} (f : nat -> A -> list B) (l : list A) :
  concat (imap f l) = [] <-> forall i x, l !! i = Some x -> f i x = [].
Proof.
  induction l as [| a l IH] in f |- *.
  - split; [by intros _ i x; rewrite lookup_nil | done].
  - cbn [imap concat]. split.
    + intros H. apply app_eq_nil in H as [Ha Hl].
      intros [| i] x; simpl.
      * by intros [= <-].
      * intros Hx. by apply (proj1 (IH (f ∘ S)) Hl i x).
    + intros H. apply app_nil. split.
      * by apply (H 0%nat a).
      * apply IH. intros i x Hx. by apply (H (S i) x).
Qed.

Lemma coerce_number_issues (p : list Zod.Key) (v : Js.JsVal) :
  Zod.issues_of (Zod.parse ver Zod.coerce_number p v) = [] <-> coerces ver v = true.
Proof.
  unfold coerces. simpl. by destruct (Zod.is_number ver (Js.Number v)).
Qed.

Lemma rows_issues_nil (l : list InputRow) :
  concat (imap (fun i r =>
                  Zod.issues_of
                    (Zod.parse_object ver rowschema
                       [Zod.Prop_key "rows"; Zod.Index_key i] r)) l) = []
  <-> Forall (fun r => row_ok ver r = true) l.
Proof.
  rewrite concat_imap_nil, Forall_lookup. split.
  - intros H i r Hr. specialize (H i r Hr).
    rewrite parse_object_issues_under in H. apply fmap_nil_inv in H.
    rewrite <- safeParse_success. by apply safeParse_success_issues.
  - intros H i r Hr. specialize (H i r Hr). simpl in H.
    rewrite parse_object_issues_under.
    rewrite <- safeParse_success in H. apply safeParse_success_issues in H.
    unfold rowschema_safeParse in H. by rewrite H.
Qed.

Lemma safeParse_issue_path (r : InputRow) (i : Zod.Issue) :
  i ∈ Zod.issues_of (rowschema_safeParse ver r) ->
  exists f, Zod.path i = [Zod.Prop_key (Field.name f)].
Proof.
  rewrite safeParse_issues. intros Hi.
  apply list_elem_of_In, in_concat in Hi as (l & Hl & Hi).
  apply in_map_iff in Hl as (f & <- & _). exists f.
  apply list_elem_of_In in Hi. unfold field_issues in Hi.
  by apply list_elem_of_filter in Hi as [Hp _].
Qed.

(** X14. The schema the form hands to its resolver. It raises no issue
    exactly when every row passes [rowschema] and [gfa] and
    [referenceValue] coerce to numbers; its issues are, in order, those
    [rowschema] raises on each row alone with their paths put under
    [rows, index], then those of [gfa] and of [referenceValue]; and every
    issue lies at [gfa], at [referenceValue] or at a field of a row the
    form holds. *)
Theorem form_schema_accepts_iff (fv : Form.values) :
  (formschema_issues ver fv = [] <->
     Forall (fun r => row_ok ver r = true) (Form.rows fv)
     /\ coerces ver (Form.gfa fv) = true
     /\ coerces ver (Form.referenceValue fv) = true)
  /\ formschema_issues ver fv
     = concat (imap (fun index r =>
                       map (issue_under [Zod.Prop_key "rows"; Zod.Index_key index])
                           (Zod.issues_of (rowschema_safeParse ver r)))
                    (Form.rows fv))
       ++ (if coerces ver (Form.gfa fv) then []
           else [issue_at Zod.invalid_type [Zod.Prop_key "gfa"]])
       ++ (if coerces ver (Form.referenceValue fv) then []
           else [issue_at Zod.invalid_type [Zod.Prop_key "referenceValue"]])
  /\ Forall (fun i =>
       Zod.path i = [Zod.Prop_key "gfa"]
       \/ Zod.path i = [Zod.Prop_key "referenceValue"]
       \/ exists index f, (index < length (Form.rows fv))%nat
            /\ Zod.path i = [Zod.Prop_key "rows"; Zod.Index_key index;
                             Zod.Prop_key (Field.name f)])
       (formschema_issues ver fv).
Proof.
  assert (Heq : formschema_issues ver fv
     = concat (imap (fun index r =>
                       map (issue_under [Zod.Prop_key "rows"; Zod.Index_key index])
                           (Zod.issues_of (rowschema_safeParse ver r)))
                    (Form.rows fv))
       ++ (if coerces ver (Form.gfa fv) then []
           else [issue_at Zod.invalid_type [Zod.Prop_key "gfa"]])
       ++ (if coerces ver (Form.referenceValue fv) then []
           else [issue_at Zod.invalid_type [Zod.Prop_key "referenceValue"]])).
  { unfold formschema_issues. f_equal; [| f_equal].
    - f_equal. apply imap_ext. intros i r _. apply parse_object_issues_under.
    - unfold coerces. simpl. by destruct (Zod.is_number ver _).
    - unfold coerces. simpl. by destruct (Zod.is_number ver _). }
  split_and!.
  - unfold formschema_issues.
    rewrite <- rows_issues_nil, <- !(coerce_number_issues).
    split.
    + intros H. apply app_eq_nil in H as [H1 H2]. apply app_eq_nil in H2 as [H2 H3].
      by split_and!.
    + intros (H1 & H2 & H3). by rewrite H1, H2, H3.
  - exact Heq.
  - rewrite Heq. rewrite !Forall_app. split_and!.
    + apply Forall_forall. intros i Hi.
      apply list_elem_of_In, in_concat in Hi as (l & Hl & Hi).
      apply list_elem_of_In, elem_of_lookup_imap in Hl as (index & r & -> & Hr).
      apply in_map_iff in Hi as (i0 & <- & Hi0).
      apply list_elem_of_In, safeParse_issue_path in Hi0 as [f Hf].
      right. right. exists index, f. split.
      * by apply lookup_lt_Some in Hr.
      * unfold issue_under. simpl. by rewrite Hf.
    + destruct (coerces ver (Form.gfa fv)); [done |].
      apply Forall_singleton. by left.
    + destruct (coerces ver (Form.referenceValue fv)); [done |].
      apply Forall_singleton. right. by left.
Qed.

End FormSchema.

(** ** The browser along a session *)

Section Exports.

Variable cat : Catalogue.
Variable calculateGreenMark : Form.values -> Output.t.
Variable Number_toString : Js.number -> string.

Lemma download_keeps_urls (out : Output.t) (b : Browser.t) :
  urls_fresh b ->
  Browser.object_urls (download_onClick Number_toString out b) = Browser.object_urls b
  /\ urls_fresh (download_onClick Number_toString out b).
Proof.
  intros Hb. rewrite download_onClick_result. cbn [Browser.object_urls Browser.next_url].
  assert (Hsame : delete (Browser.next_url b)
                    (<[Browser.next_url b :=
                         {| Browser.parts :=
                              [JSON.stringify2 Number_toString (Output_json out)];
                            Browser.type := "application/json" |}]>
                       (Browser.object_urls b))
                  = Browser.object_urls b).
  { rewrite delete_insert_eq. apply delete_id. by apply Hb. }
  split; [done |].
  intros u Hu. cbn [Browser.object_urls Browser.next_url] in *.
  rewrite Hsame. apply Hb. lia.
Qed.

Lemma step_browser (s : State) (e : Event) :
  is_download e = false ->
  browser (step cat calculateGreenMark Number_toString s e) = browser s.
Proof. by destruct e. Qed.

(** X15. Over any sequence of events, the files saved are those of the
    clicks on the download button, in order, each the text of the output
    of the form as it stood at its click; no other event touches the
    browser. Every object URL made is revoked again: the store of object
    URLs and the document body end as they began, and the URL counter has
    advanced by the number of clicks. *)
Theorem exports_along_trace (es : list Event) (s : State) :
  urls_fresh (browser s) ->
  let s' := run cat calculateGreenMark Number_toString s es in
  Browser.downloads (browser s')
  = Browser.downloads (browser s)
    ++ exports (step cat calculateGreenMark Number_toString)
               (output calculateGreenMark) Number_toString s es
  /\ Browser.object_urls (browser s') = Browser.object_urls (browser s)
  /\ Browser.body (browser s') = Browser.body (browser s)
  /\ Browser.next_url (browser s') = (Browser.next_url (browser s) + clicks es)%nat
  /\ urls_fresh (browser s')
  /\ length (exports (step cat calculateGreenMark Number_toString)
                     (output calculateGreenMark) Number_toString s es) = clicks es.
Proof.
  induction es as [| e es IH] in s |- *; intros Hs s'.
  - unfold s', clicks. simpl. rewrite app_nil_r. by split_and!.
  - unfold s', run. cbn [foldl exports].
    fold (run cat calculateGreenMark Number_toString
            (step cat calculateGreenMark Number_toString s e) es).
    destruct (is_download e) eqn:Hne; [destruct e; try done |].
    + assert (Hb : browser (step cat calculateGreenMark Number_toString s Download_onClick)
                   = download_onClick Number_toString (output calculateGreenMark s)
                       (browser s)) by done.
      destruct (download_keeps_urls (output calculateGreenMark s) (browser s) Hs)
        as [Hurls Hfresh].
      rewrite <- Hb in Hurls, Hfresh.
      destruct (IH _ Hfresh) as (H1 & H2 & H3 & H4 & H5 & H6).
      rewrite H1, H2, H3, H4, Hurls. rewrite Hb at 1 2 3.
      rewrite download_onClick_result.
      cbn [Browser.downloads Browser.body Browser.next_url].
      unfold clicks in *. rewrite filter_cons_True by done. cbn [length].
      split_and!; try done.
      * by rewrite <- app_assoc.
      * lia.
      * rewrite length_app, H6. simpl. lia.
    + pose proof (step_browser s e Hne) as Hb.
      assert (Hfresh : urls_fresh
                         (browser (step cat calculateGreenMark Number_toString s e)))
        by by rewrite Hb.
      destruct (IH _ Hfresh) as (H1 & H2 & H3 & H4 & H5 & H6).
      rewrite H1, H2, H3, H4, Hb.
      unfold clicks in *. rewrite filter_cons_False by by rewrite Hne.
      assert (Hnil : match e with
                     | Download_onClick =>
                         [export_file Number_toString (output calculateGreenMark s)]
                     | _ => []
                     end = []) by by destruct e.
      rewrite Hnil. by split_and!.
Qed.

End Exports.

Lemma exports_along_trace_sample :
  let next := step sample_catalogue (fun _ => sample_output) (fun _ => EmptyString) in
  let s' := run sample_catalogue (fun _ => sample_output) (fun _ => EmptyString)
              sample_state sample_trace in
  Browser.downloads (browser s')
  = Browser.downloads (browser sample_state)
    ++ exports next (output (fun _ => sample_output)) (fun _ => EmptyString)
               sample_state sample_trace
  /\ Browser.object_urls (browser s') = Browser.object_urls (browser sample_state)
  /\ Browser.body (browser s') = Browser.body (browser sample_state)
  /\ Browser.next_url (browser s')
     = (Browser.next_url (browser sample_state) + clicks sample_trace)%nat
  /\ urls_fresh (browser s')
  /\ length (exports next (output (fun _ => sample_output)) (fun _ => EmptyString)
                     sample_state sample_trace) = clicks sample_trace.
Proof.
  apply (exports_along_trace sample_catalogue (fun _ => sample_output)
           (fun _ => EmptyString) sample_trace sample_state).
  intros u _. reflexivity.
Defined.

(** ** The default row and the category map *)

(** X16. A default row holds no category, whatever the catalogue says of
    its component. Choosing that same component again in its chooser
    leaves the form as it is exactly when the category map gives the
    component no category; otherwise the row gains the map's category and
    nothing else changes. *)
Theorem default_row_category_unset (cat : Catalogue) (fv : Form.values)
    (index : nat) (r : InputRow) (id : string) :
  defaultInputRow cat = Some r ->
  Form.rows fv !! index = Some r ->
  componentId r = Js.JStr id ->
  let fv' := componentId_onValueChange cat index id fv in
  greenMarkCategory r = Js.JUndefined
  /\ (fv' = fv <-> greenmark_get (componentIdToGreenmarkMap cat) id = None)
  /\ Form.rows fv'
     = <[index := row_set Field.greenMarkCategory
                    (Category_value (greenmark_get (componentIdToGreenmarkMap cat) id))
                    r]> (Form.rows fv)
  /\ Form.gfa fv' = Form.gfa fv
  /\ Form.referenceValue fv' = Form.referenceValue fv.
Proof.
  intros Hdef Hr Hid fv'.
  assert (Hcat : greenMarkCategory r = Js.JUndefined).
  { unfold defaultInputRow in Hdef. destruct (globalComponents cat); [done |].
    by injection Hdef as <-. }
  assert (Hrows : Form.rows fv'
     = <[index := row_set Field.greenMarkCategory
                    (Category_value (greenmark_get (componentIdToGreenmarkMap cat) id))
                    r]> (Form.rows fv)).
  { assert (Hin : id ∈ componentIds cat).
    { unfold defaultInputRow in Hdef.
      destruct (globalComponents cat) as [| c l] eqn:Hg; [done |].
      injection Hdef as <-. simpl in Hid. injection Hid as <-.
      unfold componentIds. rewrite unique_elem, Hg. by left. }
    destruct (componentIds_entry cat id Hin) as (e & _ & _ & Hmap).
    destruct (greenmark_lookup_entry _ _ _ Hmap) as [Hread Hget].
    unfold fv'. rewrite (componentId_onValueChange_rows cat index id fv r Hr).
    rewrite Hread, Hget. do 2 f_equal. by apply row_set_same. }
  split_and!; try done.
  split.
  - intros Hsame. rewrite Hsame in Hrows.
    assert (Hrow : row_set Field.greenMarkCategory
                     (Category_value (greenmark_get (componentIdToGreenmarkMap cat) id)) r
                   = r).
    { apply (f_equal (fun l => l !! index)) in Hrows.
      rewrite list_lookup_insert_eq in Hrows by by eapply lookup_lt_Some.
      rewrite Hr in Hrows. by injection Hrows. }
    apply row_set_same in Hrow. change (row_get Field.greenMarkCategory r)
      with (greenMarkCategory r) in Hrow. rewrite Hcat in Hrow.
    by destruct (greenmark_get _ _).
  - intros Hnone. apply values_ext; try done.
    rewrite Hrows, Hnone. simpl.
    rewrite (proj2 (row_set_same Field.greenMarkCategory Js.JUndefined r) Hcat).
    by apply list_insert_id.
Qed.

Lemma default_row_category_unset_sample :
  let r := default (empty_row) (defaultInputRow sample_catalogue) in
  let fv := {| Form.rows := [r]; Form.gfa := Js.JNum (Js.lit 1000);
               Form.referenceValue := Js.JNum (Js.lit 1000) |} in
  let fv' := componentId_onValueChange sample_catalogue 0 "Concrete C30" fv in
  greenMarkCategory r = Js.JUndefined
  /\ (fv' = fv <->
      greenmark_get (componentIdToGreenmarkMap sample_catalogue) "Concrete C30" = None)
  /\ Form.rows fv'
     = <[0%nat := row_set Field.greenMarkCategory
                    (Category_value
                       (greenmark_get (componentIdToGreenmarkMap sample_catalogue)
                          "Concrete C30")) r]> (Form.rows fv)
  /\ Form.gfa fv' = Form.gfa fv
  /\ Form.referenceValue fv' = Form.referenceValue fv.
Proof.
  apply (default_row_category_unset sample_catalogue
           {| Form.rows := [default (empty_row) (defaultInputRow sample_catalogue)];
              Form.gfa := Js.JNum (Js.lit 1000);
              Form.referenceValue := Js.JNum (Js.lit 1000) |}
           0 (default (empty_row) (defaultInputRow sample_catalogue)) "Concrete C30");
    reflexivity.
Defined.

(** ** The page as it starts *)

Lemma default_row_ok (ver : Zod.version) (cat : Catalogue) (r : InputRow) :
  defaultInputRow cat = Some r -> row_ok ver r = true.
Proof.
  unfold defaultInputRow. destruct (globalComponents cat) as [| c l]; [done |].
  intros [= <-]. by destruct ver.
Qed.

(** X17. The form the page starts with. [useForm] has default values
    exactly when the global components and the reference values are not
    empty; the form then holds the one default row, a floor area of 1000
    and the first reference value. It passes the resolver's schema
    exactly when that reference value is a number, and the closed
    reference value chooser shows the label of the first building type. *)
Theorem initial_form (ver : Zod.version) (Number_toString : Js.number -> string)
    (cat : Catalogue) (b : Browser.t) (mounted : Js.JsVal) (ph : string) :
  (is_Some (defaultValues cat)
   <-> globalComponents cat ≠ [] /\ referenceValues cat ≠ [])
  /\ forall fv, defaultValues cat = Some fv ->
       exists r rv,
         defaultInputRow cat = Some r
         /\ referenceValues cat !! 0%nat = Some rv
         /\ Form.rows fv = [r]
         /\ Form.gfa fv = Js.JNum (Js.lit 1000)
         /\ Form.referenceValue fv = Js.JNum (ReferenceValue.referenceValue rv)
         /\ (formschema_issues ver fv = []
             <-> Zod.is_number ver (ReferenceValue.referenceValue rv) = true)
         /\ (Number_toString (ReferenceValue.referenceValue rv) ≠ EmptyString ->
             SelectInput.content
               (chooser Number_toString mounted (closed_page fv b)
                  Form.referenceValue_name
                  (SelectInput.Labelled (referenceValueOptions Number_toString cat)) ph)
             = [ {| SelectInput.item_value :=
                      Number_toString (ReferenceValue.referenceValue rv);
                    SelectInput.children :=
                      Some (referenceValueOption Number_toString rv).2;
                    SelectInput.disabled := true |} ]).
Proof.
  split.
  - unfold defaultValues, defaultInputRow.
    destruct (globalComponents cat) as [| c l], (referenceValues cat) as [| rv rvs];
      split; try (by intros [? ?]); try (by intros [? ?]; eauto); by eauto.
  - intros fv Hfv. unfold defaultValues in Hfv.
    destruct (defaultInputRow cat) as [r |] eqn:Hr; [| done].
    destruct (referenceValues cat) as [| rv rvs] eqn:Hrv; [done |].
    injection Hfv as <-. exists r, rv. split_and!; try done.
    + split.
      * intros Hnil. unfold formschema_issues in Hnil.
        apply app_eq_nil in Hnil as [_ Hnil]. apply app_eq_nil in Hnil as [_ Hnil].
        by apply coerce_number_issues in Hnil.
      * intros Hnum. unfold formschema_issues.
        rewrite (proj2 (rows_issues_nil ver _)), app_nil_l.
        -- cbn [Form.gfa Form.referenceValue].
           rewrite (proj2 (coerce_number_issues ver _ (Js.JNum (Js.lit 1000)))),
             app_nil_l; [| by destruct ver].
           by apply coerce_number_issues.
        -- cbn [Form.rows]. constructor; [| done]. by eapply default_row_ok.
    + intros Hne. unfold chooser, closed_page, SelectInput.render. simpl.
      unfold SelectInput.closed_items. simpl.
      rewrite bool_decide_eq_false_2 by done.
      unfold referenceValueOptions. rewrite Hrv. simpl.
      by rewrite decide_True.
Qed.
